(** * A shallow embedding of the Mesos slave (agent) core

    This development models the slave actor of [src/src/master/readonly_handler.cpp]
    ([Slave::runTask], [Slave::killTask], [Slave::registerExecutor],
    [Slave::reregisterExecutor], [Slave::statusUpdate], [Slave::executorTerminated],
    [Slave::cleanup], the timeouts and the disk-usage loop) together with the
    [Framework] and [Executor] classes it owns.

    The actor is single threaded: every handler is a function of the slave
    state.  We model it with a small state-and-abort monad [M]: a handler
    maps a [Slave] to [Some (result, Slave')], or to [None] when the process
    aborts ([CHECK], [CHECK_NOTNULL], [LOG(FATAL)]).  Messages, dispatches,
    timers and checkpoint writes are recorded, in order, in the slave's
    outbox [s_outbox]. *)

From stdpp Require Import base gmap sets list strings.
From Stdlib Require Import ZArith Lia Floats.

Local Open Scope string_scope.

(* ================================================================= *)
(** ** Identifiers, resources and task states *)

Abbreviation FrameworkID := string (only parsing).
Abbreviation ExecutorID := string (only parsing).
Abbreviation TaskID := string (only parsing).
Abbreviation UPID := string (only parsing).
(** [UUID::random()] is modelled by a counter of the slave: a fresh [N]. *)
Abbreviation UUID := N (only parsing).

(** Modelled from the spec: the [Resources] arithmetic (src/common/resources.cpp
    is not under src/).  The spec's resources are the scalars cpus, mem and
    disk; [+=] adds a task's resources and [-=] subtracts them. *)
Record Resources := mkResources { cpus : Z; mem : Z; disk : Z }.

Definition res_zero : Resources := mkResources 0 0 0.

Definition res_add (a b : Resources) : Resources :=
  mkResources (cpus a + cpus b) (mem a + mem b) (disk a + disk b).

Definition res_sub (a b : Resources) : Resources :=
  mkResources (cpus a - cpus b) (mem a - mem b) (disk a - disk b).

Inductive TaskState :=
  | TASK_STAGING | TASK_STARTING | TASK_RUNNING | TASK_KILLING
  | TASK_FINISHED | TASK_KILLED | TASK_FAILED | TASK_LOST | TASK_ERROR
  | TASK_DROPPED | TASK_GONE | TASK_GONE_BY_OPERATOR | TASK_UNREACHABLE
  | TASK_UNKNOWN.

#[global] Instance TaskState_eq_dec : EqDecision TaskState.
Proof. solve_decision. Defined.

(** Modelled from the spec: [protobuf::isTerminalState] (src/common/protobuf_utils
    is not under src/); the terminal subset is the one listed in the spec. *)
Definition isTerminalState (st : TaskState) : bool :=
  match st with
  | TASK_STAGING | TASK_STARTING | TASK_RUNNING | TASK_KILLING => false
  | _ => true
  end.

(* ================================================================= *)
(** ** Protocol messages *)

Record ExecutorInfo := mkExecutorInfo {
  ei_executor_id : ExecutorID;
  ei_resources : Resources;
  ei_command : option string;
  ei_source : string }.

Record TaskInfo := mkTaskInfo {
  ti_task_id : TaskID;
  ti_resources : Resources;
  ti_executor : option ExecutorInfo;
  ti_command : option string }.

(** A default-constructed [TaskInfo], what [hashmap::operator[]] inserts
    for a missing key. *)
Definition emptyTaskInfo : TaskInfo := mkTaskInfo "" res_zero None None.

Record Task := mkTask {
  t_task_id : TaskID;
  t_state : TaskState;
  t_resources : Resources;
  t_executor_id : option ExecutorID;
  t_framework_id : FrameworkID }.

(** Modelled from the spec: [protobuf::createTask] (src/common/protobuf_utils is
    not under src/).  The task records the executor id only when the task
    names an executor: a command task carries no executor id, which is how
    [Slave::executorTerminated] recognises it ([!task->has_executor_id()]). *)
Definition createTask (task : TaskInfo) (st : TaskState)
    (executorId : ExecutorID) (frameworkId : FrameworkID) : Task :=
  mkTask (ti_task_id task) st (ti_resources task)
    (match ti_executor task with Some _ => Some executorId | None => None end)
    frameworkId.

Record FrameworkInfo := mkFrameworkInfo {
  fi_name : string;
  fi_checkpoint : bool }.

Record StatusUpdate := mkStatusUpdate {
  su_framework_id : FrameworkID;
  su_slave_id : string;
  su_executor_id : option ExecutorID;
  su_task_id : TaskID;
  su_state : TaskState;
  su_message : string;
  su_uuid : UUID }.

(* ================================================================= *)
(** ** Executor and Framework *)

Inductive ExecutorState := REGISTERING | RUNNING | TERMINATING | TERMINATED.

#[global] Instance ExecutorState_eq_dec : EqDecision ExecutorState.
Proof. solve_decision. Defined.

Inductive FrameworkState := FW_INITIALIZING | FW_RUNNING | FW_TERMINATING.

#[global] Instance FrameworkState_eq_dec : EqDecision FrameworkState.
Proof. solve_decision. Defined.

(** The executor's work directory, [paths::createExecutorDirectory]. *)
Definition Directory := (FrameworkID * ExecutorID * UUID)%type.

(** [class Executor].  [updates] is a [multihashmap<TaskID, UUID>]; following
    the spec ("updates: mapping TaskId to set of RunUuid") it is a set of
    (task id, uuid) pairs. *)
Record Executor := mkExecutor {
  e_id : ExecutorID;
  e_framework_id : FrameworkID;
  e_info : ExecutorInfo;
  e_uuid : UUID;
  e_directory : Directory;
  e_checkpoint : bool;
  e_state : ExecutorState;
  e_pid : option UPID;
  e_resources : Resources;
  e_queued : gmap TaskID TaskInfo;
  e_launched : gmap TaskID Task;
  e_completed : list Task;
  e_updates : gset (TaskID * UUID) }.

Definition set_e_state (st : ExecutorState) (e : Executor) : Executor :=
  mkExecutor (e_id e) (e_framework_id e) (e_info e) (e_uuid e) (e_directory e)
    (e_checkpoint e) st (e_pid e) (e_resources e) (e_queued e) (e_launched e)
    (e_completed e) (e_updates e).

Definition set_e_pid (pid : option UPID) (e : Executor) : Executor :=
  mkExecutor (e_id e) (e_framework_id e) (e_info e) (e_uuid e) (e_directory e)
    (e_checkpoint e) (e_state e) pid (e_resources e) (e_queued e) (e_launched e)
    (e_completed e) (e_updates e).

Definition set_e_queued (q : gmap TaskID TaskInfo) (e : Executor) : Executor :=
  mkExecutor (e_id e) (e_framework_id e) (e_info e) (e_uuid e) (e_directory e)
    (e_checkpoint e) (e_state e) (e_pid e) (e_resources e) q (e_launched e)
    (e_completed e) (e_updates e).

Definition set_e_tasks (r : Resources) (l : gmap TaskID Task) (c : list Task)
    (e : Executor) : Executor :=
  mkExecutor (e_id e) (e_framework_id e) (e_info e) (e_uuid e) (e_directory e)
    (e_checkpoint e) (e_state e) (e_pid e) r (e_queued e) l c (e_updates e).

Definition set_e_updates (u : gset (TaskID * UUID)) (e : Executor) : Executor :=
  mkExecutor (e_id e) (e_framework_id e) (e_info e) (e_uuid e) (e_directory e)
    (e_checkpoint e) (e_state e) (e_pid e) (e_resources e) (e_queued e)
    (e_launched e) (e_completed e) u.

(** [Executor::Executor]: REGISTERING, no pid, the executor's own resources. *)
Definition newExecutor (frameworkId : FrameworkID) (info : ExecutorInfo)
    (uuid : UUID) (directory : Directory) (checkpoint : bool) : Executor :=
  mkExecutor (ei_executor_id info) frameworkId info uuid directory checkpoint
    REGISTERING None (ei_resources info) ∅ ∅ [] ∅.

(** [Executor::addTask]: [CHECK(!launchedTasks.contains(task.task_id()))]. *)
Definition addTask (task : TaskInfo) (e : Executor) : option Executor :=
  match e_launched e !! ti_task_id task with
  | Some _ => None
  | None =>
      let t := createTask task TASK_STAGING (e_id e) (e_framework_id e) in
      Some (set_e_tasks (res_add (e_resources e) (ti_resources task))
              (<[ti_task_id task := t]> (e_launched e)) (e_completed e) e)
  end.

(** [Executor::removeTask]. *)
Definition removeTask (taskId : TaskID) (e : Executor) : Executor :=
  let e1 := set_e_queued (delete taskId (e_queued e)) e in
  match e_launched e1 !! taskId with
  | Some t =>
      set_e_tasks (res_sub (e_resources e1) (t_resources t))
        (delete taskId (e_launched e1)) (e_completed e1 ++ [t]) e1
  | None => e1
  end.

Definition set_t_state (st : TaskState) (t : Task) : Task :=
  mkTask (t_task_id t) st (t_resources t) (t_executor_id t) (t_framework_id t).

(** [Executor::updateTaskState]. *)
Definition updateTaskState (taskId : TaskID) (st : TaskState) (e : Executor)
    : Executor :=
  match e_launched e !! taskId with
  | Some t => set_e_tasks (e_resources e)
                (<[taskId := set_t_state st t]> (e_launched e)) (e_completed e) e
  | None => e
  end.

(** [updates.put(taskId, uuid)] and [updates.remove(taskId, uuid)]. *)
Definition putUpdate (taskId : TaskID) (uuid : UUID) (e : Executor) : Executor :=
  set_e_updates ({[(taskId, uuid)]} ∪ e_updates e) e.

Definition removeUpdate (taskId : TaskID) (uuid : UUID) (e : Executor)
    : Executor :=
  set_e_updates (e_updates e ∖ {[(taskId, uuid)]}) e.

(** [updates.contains(taskId)]: some pending uuid for this task. *)
Definition updatesContainTask (taskId : TaskID) (e : Executor) : bool :=
  existsb (λ p, bool_decide (p.1 = taskId)) (elements (e_updates e)).

Record Framework := mkFramework {
  f_id : FrameworkID;
  f_info : FrameworkInfo;
  f_pid : UPID;
  f_state : FrameworkState;
  f_executors : gmap ExecutorID Executor;
  f_completed : list Executor;
  f_pending : list TaskInfo }.

Definition set_f_state (st : FrameworkState) (f : Framework) : Framework :=
  mkFramework (f_id f) (f_info f) (f_pid f) st (f_executors f) (f_completed f)
    (f_pending f).

Definition set_f_executors (m : gmap ExecutorID Executor) (f : Framework)
    : Framework :=
  mkFramework (f_id f) (f_info f) (f_pid f) (f_state f) m (f_completed f)
    (f_pending f).

Definition set_f_pending (p : list TaskInfo) (f : Framework) : Framework :=
  mkFramework (f_id f) (f_info f) (f_pid f) (f_state f) (f_executors f)
    (f_completed f) p.

(** [Framework::destroyExecutor]: move the executor to the completed ones. *)
Definition destroyExecutor (executorId : ExecutorID) (f : Framework) : Framework :=
  match f_executors f !! executorId with
  | Some e =>
      mkFramework (f_id f) (f_info f) (f_pid f) (f_state f)
        (delete executorId (f_executors f)) (f_completed f ++ [e]) (f_pending f)
  | None => f
  end.

(** [Framework::getExecutor(const TaskID&)]: the first executor (in the
    iteration order of the executors map) that has the task queued,
    launched or with a pending update. *)
Definition getExecutorByTask (f : Framework) (taskId : TaskID)
    : option (ExecutorID * Executor) :=
  List.find (λ '(_, e),
      bool_decide (is_Some (e_queued e !! taskId)) ||
      bool_decide (is_Some (e_launched e !! taskId)) ||
      updatesContainTask taskId e)
    (map_to_list (f_executors f)).

(* ================================================================= *)
(** ** The slave *)

(** Effects of the actor, in the order it performs them: messages sent
    ([send], [reply]; a send to an unset pid is dropped by libprocess, so
    the target is an [option UPID]), dispatches to the isolator and the
    monitor, timers armed with [delay], checkpoint writes, and calls on the
    status update manager and the garbage collector. *)
Inductive Effect :=
  | SendShutdownExecutor (to : option UPID)
  | SendExecutorRegistered (to : option UPID) (fid : FrameworkID) (eid : ExecutorID)
  | SendExecutorReregistered (to : option UPID)
  | SendRunTask (to : option UPID) (fid : FrameworkID) (fpid : UPID) (task : TaskInfo)
  | SendKillTask (to : option UPID) (fid : FrameworkID) (tid : TaskID)
  | SendFrameworkToExecutor (to : option UPID) (sid : string) (fid : FrameworkID)
      (eid : ExecutorID) (data : string)
  | SendExecutorToFramework (to : UPID) (sid : string) (fid : FrameworkID)
      (eid : ExecutorID) (data : string)
  | SendExitedExecutor (to : UPID) (fid : FrameworkID) (eid : ExecutorID)
      (status : Z)
  | DispatchLaunchExecutor (fid : FrameworkID) (eid : ExecutorID) (uuid : UUID)
  | DispatchResourcesChanged (fid : FrameworkID) (eid : ExecutorID) (r : Resources)
  | DispatchKillExecutor (fid : FrameworkID) (eid : ExecutorID)
  | MonitorWatch (fid : FrameworkID) (eid : ExecutorID)
  | MonitorUnwatch (fid : FrameworkID) (eid : ExecutorID)
  | SendReconnectExecutor (to : UPID)
  | FilesAttach (dir : Directory)
  | DelayRegisterExecutorTimeout (fid : FrameworkID) (eid : ExecutorID) (uuid : UUID)
  | DelayShutdownExecutorTimeout (fid : FrameworkID) (eid : ExecutorID) (uuid : UUID)
  | CheckpointFrameworkInfo (fid : FrameworkID)
  | CheckpointExecutorInfo (fid : FrameworkID) (eid : ExecutorID)
  | CheckpointTaskInfo (fid : FrameworkID) (eid : ExecutorID) (uuid : UUID)
      (tid : TaskID)
  | CheckpointLibprocessPid (fid : FrameworkID) (eid : ExecutorID) (uuid : UUID)
      (pid : UPID)
  | UpdateManagerUpdate (u : StatusUpdate) (checkpoint : bool) (ack_to : option UPID)
  | UpdateManagerCleanup (fid : FrameworkID)
  | GcSchedule (dir : Directory)
  | ArchiveMetaAndShutdown
  | RecoveredSet.

Record Stats := mkStats {
  invalidFrameworkMessages : nat;
  validFrameworkMessages : nat;
  invalidStatusUpdates : nat;
  validStatusUpdates : nat }.

Record Flags := mkFlags {
  fl_checkpoint : bool;
  fl_recover : string;
  fl_launcher_dir : string }.

(** [class Slave] (the fields the handlers use; the per-state task counters
    [stats.tasks] are not modelled). *)
Record Slave := mkSlave {
  s_id : string;
  s_flags : Flags;
  s_master : UPID;
  s_frameworks : gmap FrameworkID Framework;
  s_completed_frameworks : list Framework;
  s_stats : Stats;
  s_outbox : list Effect;
  s_next_uuid : N }.

Definition set_s_frameworks (m : gmap FrameworkID Framework) (s : Slave) : Slave :=
  mkSlave (s_id s) (s_flags s) (s_master s) m (s_completed_frameworks s)
    (s_stats s) (s_outbox s) (s_next_uuid s).

Definition set_s_completed (c : list Framework) (s : Slave) : Slave :=
  mkSlave (s_id s) (s_flags s) (s_master s) (s_frameworks s) c
    (s_stats s) (s_outbox s) (s_next_uuid s).

Definition set_s_stats (st : Stats) (s : Slave) : Slave :=
  mkSlave (s_id s) (s_flags s) (s_master s) (s_frameworks s)
    (s_completed_frameworks s) st (s_outbox s) (s_next_uuid s).

Definition set_s_outbox (o : list Effect) (s : Slave) : Slave :=
  mkSlave (s_id s) (s_flags s) (s_master s) (s_frameworks s)
    (s_completed_frameworks s) (s_stats s) o (s_next_uuid s).

Definition set_s_next_uuid (n : N) (s : Slave) : Slave :=
  mkSlave (s_id s) (s_flags s) (s_master s) (s_frameworks s)
    (s_completed_frameworks s) (s_stats s) (s_outbox s) n.

(* ================================================================= *)
(** ** The actor monad *)

Definition M (A : Type) : Type := Slave → option (A * Slave).

Definition ret {A} (a : A) : M A := λ s, Some (a, s).

Definition bindM {A B} (m : M A) (k : A → M B) : M B :=
  λ s, match m s with Some (a, s') => k a s' | None => None end.

(** The process aborts: a failed [CHECK]. *)
Definition abort {A} : M A := λ _, None.

Declare Scope actor_scope.
Delimit Scope actor_scope with actor.
Notation "x <- m ;; k" := (bindM m (λ x, k))
  (at level 100, m at next level, right associativity) : actor_scope.
Notation "m ;;; k" := (bindM m (λ _, k))
  (at level 100, right associativity) : actor_scope.
Local Open Scope actor_scope.

Definition gets {A} (f : Slave → A) : M A := λ s, Some (f s, s).

Definition modify (f : Slave → Slave) : M unit := λ s, Some (tt, f s).

Definition emit (ef : Effect) : M unit :=
  modify (λ s, set_s_outbox (s_outbox s ++ [ef]) s).

Definition modify_stats (f : Stats → Stats) : M unit :=
  modify (λ s, set_s_stats (f (s_stats s)) s).

Definition incr_invalidFrameworkMessages (st : Stats) : Stats :=
  mkStats (S (invalidFrameworkMessages st)) (validFrameworkMessages st)
    (invalidStatusUpdates st) (validStatusUpdates st).

Definition incr_validFrameworkMessages (st : Stats) : Stats :=
  mkStats (invalidFrameworkMessages st) (S (validFrameworkMessages st))
    (invalidStatusUpdates st) (validStatusUpdates st).

Definition incr_invalidStatusUpdates (st : Stats) : Stats :=
  mkStats (invalidFrameworkMessages st) (validFrameworkMessages st)
    (S (invalidStatusUpdates st)) (validStatusUpdates st).

Definition incr_validStatusUpdates (st : Stats) : Stats :=
  mkStats (invalidFrameworkMessages st) (validFrameworkMessages st)
    (invalidStatusUpdates st) (S (validStatusUpdates st)).

(** [UUID::random()]. *)
Definition freshUUID : M UUID :=
  λ s, Some (s_next_uuid s, set_s_next_uuid (N.succ (s_next_uuid s)) s).

Definition getFramework (frameworkId : FrameworkID) : M (option Framework) :=
  gets (λ s, s_frameworks s !! frameworkId).

Definition getExecutor (frameworkId : FrameworkID) (executorId : ExecutorID)
    : M (option Executor) :=
  gets (λ s, s_frameworks s !! frameworkId ≫= λ f, f_executors f !! executorId).

(** Writing through the [Framework*] and [Executor*] pointers. *)
Definition putFramework (frameworkId : FrameworkID) (f : Framework) : M unit :=
  modify (λ s, set_s_frameworks (<[frameworkId := f]> (s_frameworks s)) s).

Definition eraseFramework (frameworkId : FrameworkID) : M unit :=
  modify (λ s, set_s_frameworks (delete frameworkId (s_frameworks s)) s).

Definition modifyFramework (frameworkId : FrameworkID) (g : Framework → Framework)
    : M unit :=
  modify (λ s, set_s_frameworks (alter g frameworkId (s_frameworks s)) s).

Definition alterExecutor (executorId : ExecutorID) (g : Executor → Executor)
    (f : Framework) : Framework :=
  set_f_executors (alter g executorId (f_executors f)) f.

Definition modifyExecutor (frameworkId : FrameworkID) (executorId : ExecutorID)
    (g : Executor → Executor) : M unit :=
  modifyFramework frameworkId (alterExecutor executorId g).

(** An update of the executor that may fail a [CHECK]. *)
Definition modifyExecutorChecked (frameworkId : FrameworkID)
    (executorId : ExecutorID) (g : Executor → option Executor) : M unit :=
  ex <- getExecutor frameworkId executorId ;;
  match ex with
  | Some e =>
      match g e with
      | Some e' => modifyExecutor frameworkId executorId (λ _, e')
      | None => abort
      end
  | None => abort
  end.

Fixpoint foreachM {A} (l : list A) (k : A → M unit) : M unit :=
  match l with
  | [] => ret tt
  | x :: l' => k x ;;; foreachM l' k
  end.

(* ================================================================= *)
(** ** Status updates *)

(** Modelled from the spec: [protobuf::createStatusUpdate] (src/common/protobuf_utils
    is not under src/): an update of the given task and state, tagged with a
    fresh uuid. *)
Definition createStatusUpdate (frameworkId : FrameworkID) (slaveId : string)
    (taskId : TaskID) (st : TaskState) (message : string)
    (executorId : option ExecutorID) : M StatusUpdate :=
  uuid <- freshUUID ;;
  ret (mkStatusUpdate frameworkId slaveId executorId taskId st message uuid).

(** [Slave::forwardUpdate]: hand the update to the status update manager,
    with the framework's checkpoint flag and the executor pid to acknowledge
    once the manager has handled it ([Slave::_forwardUpdate]). *)
Definition forwardUpdate (update : StatusUpdate) (executor : option ExecutorID)
    : M unit :=
  let frameworkId := su_framework_id update in
  pc <- match executor with
        | Some executorId =>
            ex <- getExecutor frameworkId executorId ;;
            fw <- getFramework frameworkId ;;
            match ex, fw with
            | Some e, Some f => ret (e_pid e, fi_checkpoint (f_info f))
            | _, _ => abort
            end
        | None => ret (None, false)
        end ;;
  modify_stats incr_validStatusUpdates ;;;
  emit (UpdateManagerUpdate update pc.2 pc.1).

(** [Slave::statusUpdate]. *)
Definition statusUpdate (update : StatusUpdate) : M unit :=
  let frameworkId := su_framework_id update in
  let taskId := su_task_id update in
  fw <- getFramework frameworkId ;;
  executor <-
    match fw with
    | Some f =>
        match getExecutorByTask f taskId with
        | Some (executorId, _) =>
            modifyExecutor frameworkId executorId
              (λ e, putUpdate taskId (su_uuid update)
                      (updateTaskState taskId (su_state update) e)) ;;;
            (if isTerminalState (su_state update) then
               modifyExecutor frameworkId executorId (removeTask taskId) ;;;
               ex <- getExecutor frameworkId executorId ;;
               emit (DispatchResourcesChanged frameworkId executorId
                       (default res_zero (e_resources <$> ex)))
             else ret tt) ;;;
            ret (Some executorId)
        | None => modify_stats incr_invalidStatusUpdates ;;; ret None
        end
    | None => modify_stats incr_invalidStatusUpdates ;;; ret None
    end ;;
  forwardUpdate update executor.

(* ================================================================= *)
(** ** Task placement and messages from the master *)

(** [Framework::Framework]: RUNNING (INITIALIZING is skipped). *)
Definition newFramework (frameworkId : FrameworkID) (info : FrameworkInfo)
    (pid : UPID) : Framework :=
  mkFramework frameworkId info pid FW_RUNNING ∅ [] [].

(** [Framework::getExecutorInfo]: [CHECK(task.has_executor() != task.has_command())];
    a command task gets an executor whose id is the task id and whose command
    runs the [mesos-executor] launcher. *)
Definition getExecutorInfo (launcherDir : string) (task : TaskInfo)
    : option ExecutorInfo :=
  match ti_executor task, ti_command task with
  | None, Some _ =>
      Some (mkExecutorInfo (ti_task_id task) res_zero
              (Some (launcherDir +:+ "/mesos-executor")) (ti_task_id task))
  | Some ei, None => Some ei
  | _, _ => None
  end.

(** [Framework::createExecutor]: a fresh run uuid and work directory. *)
Definition createExecutor (frameworkId : FrameworkID) (f : Framework)
    (executorInfo : ExecutorInfo) : M Executor :=
  uuid <- freshUUID ;;
  let executorId := ei_executor_id executorInfo in
  let e := newExecutor frameworkId executorInfo uuid
             (frameworkId, executorId, uuid) (fi_checkpoint (f_info f)) in
  (if e_checkpoint e then emit (CheckpointExecutorInfo frameworkId executorId)
   else ret tt) ;;;
  ex <- getExecutor frameworkId executorId ;;
  match ex with
  | Some _ => abort
  | None =>
      modifyFramework frameworkId
        (λ f, set_f_executors (<[executorId := e]> (f_executors f)) f) ;;;
      ret e
  end.

(** [Slave::runTask]. *)
Definition runTask (frameworkInfo : FrameworkInfo) (frameworkId : FrameworkID)
    (pid : UPID) (task : TaskInfo) : M unit :=
  slaveId <- gets s_id ;;
  flags <- gets s_flags ;;
  if fi_checkpoint frameworkInfo && negb (fl_checkpoint flags) then
    update <- createStatusUpdate frameworkId slaveId (ti_task_id task) TASK_LOST
      ("Could not launch the task because the framework expects " +:+
       "checkpointing, but checkpointing is disabled on the slave") None ;;
    statusUpdate update
  else
  fw <- getFramework frameworkId ;;
  framework <-
    match fw with
    | Some f => ret f
    | None =>
        let f := newFramework frameworkId frameworkInfo pid in
        (if fi_checkpoint frameworkInfo
         then emit (CheckpointFrameworkInfo frameworkId) else ret tt) ;;;
        putFramework frameworkId f ;;;
        ret f
    end ;;
  match f_state framework with
  | FW_INITIALIZING =>
      modifyFramework frameworkId (λ f, set_f_pending (f_pending f ++ [task]) f)
  | FW_TERMINATING =>
      update <- createStatusUpdate frameworkId slaveId (ti_task_id task) TASK_LOST
        "Framework terminating" None ;;
      statusUpdate update
  | FW_RUNNING =>
      match getExecutorInfo (fl_launcher_dir flags) task with
      | None => abort
      | Some executorInfo =>
          let executorId := ei_executor_id executorInfo in
          ex <- getExecutor frameworkId executorId ;;
          executor <-
            match ex with
            | Some e => ret e
            | None =>
                e <- createExecutor frameworkId framework executorInfo ;;
                emit (FilesAttach (e_directory e)) ;;;
                emit (DispatchLaunchExecutor frameworkId executorId (e_uuid e)) ;;;
                emit (DelayRegisterExecutorTimeout frameworkId executorId (e_uuid e)) ;;;
                ret e
            end ;;
          if bool_decide (e_state executor = TERMINATING) ||
             bool_decide (e_state executor = TERMINATED) then
            update <- createStatusUpdate frameworkId slaveId (ti_task_id task)
              TASK_LOST "Executor terminating/terminated" None ;;
            statusUpdate update
          else
            (if e_checkpoint executor
             then emit (CheckpointTaskInfo frameworkId executorId (e_uuid executor)
                          (ti_task_id task))
             else ret tt) ;;;
            if bool_decide (e_state executor = REGISTERING) then
              modifyExecutor frameworkId executorId
                (λ e, set_e_queued (<[ti_task_id task := task]> (e_queued e)) e)
            else
              modifyExecutorChecked frameworkId executorId (addTask task) ;;;
              ex' <- getExecutor frameworkId executorId ;;
              emit (DispatchResourcesChanged frameworkId executorId
                      (default res_zero (e_resources <$> ex'))) ;;;
              emit (SendRunTask (e_pid executor) frameworkId (f_pid framework) task)
      end
  end.

(** [Slave::killTask]. *)
Definition killTask (frameworkId : FrameworkID) (taskId : TaskID) : M unit :=
  slaveId <- gets s_id ;;
  fw <- getFramework frameworkId ;;
  match fw with
  | None =>
      update <- createStatusUpdate frameworkId slaveId taskId TASK_LOST
        "Cannot find framework" None ;;
      statusUpdate update
  | Some f =>
      match getExecutorByTask f taskId with
      | None =>
          update <- createStatusUpdate frameworkId slaveId taskId TASK_LOST
            "Cannot find executor" None ;;
          statusUpdate update
      | Some (_, e) =>
          if bool_decide (e_state e = REGISTERING) then
            update <- createStatusUpdate frameworkId slaveId taskId TASK_KILLED
              "Unregistered executor" (Some (e_id e)) ;;
            statusUpdate update
          else
            emit (SendKillTask (e_pid e) frameworkId taskId)
      end
  end.

(** [Slave::schedulerMessage]. *)
Definition schedulerMessage (slaveId : string) (frameworkId : FrameworkID)
    (executorId : ExecutorID) (data : string) : M unit :=
  fw <- getFramework frameworkId ;;
  match fw with
  | None => modify_stats incr_invalidFrameworkMessages
  | Some f =>
      match f_executors f !! executorId with
      | None => modify_stats incr_invalidFrameworkMessages
      | Some e =>
          if bool_decide (e_state e = REGISTERING) then
            modify_stats incr_invalidFrameworkMessages
          else
            emit (SendFrameworkToExecutor (e_pid e) slaveId frameworkId executorId data) ;;;
            modify_stats incr_validFrameworkMessages
      end
  end.

(** [Slave::executorMessage]. *)
Definition executorMessage (slaveId : string) (frameworkId : FrameworkID)
    (executorId : ExecutorID) (data : string) : M unit :=
  fw <- getFramework frameworkId ;;
  match fw with
  | None => modify_stats incr_invalidFrameworkMessages
  | Some f =>
      emit (SendExecutorToFramework (f_pid f) slaveId frameworkId executorId data) ;;;
      modify_stats incr_validFrameworkMessages
  end.

(* ================================================================= *)
(** ** Executor lifecycle *)

(** [Slave::cleanup] of a framework and an executor; the [CHECK_NOTNULL]s become
    an abort when the framework or the executor is missing. *)
Definition cleanup (frameworkId : FrameworkID) (executorId : ExecutorID)
    : M unit :=
  fw <- getFramework frameworkId ;;
  ex <- getExecutor frameworkId executorId ;;
  match fw, ex with
  | Some f, Some e =>
      (if bool_decide (e_state e = TERMINATED) &&
          (bool_decide (e_updates e = ∅) || bool_decide (f_state f = FW_TERMINATING))
       then emit (GcSchedule (e_directory e)) ;;;
            modifyFramework frameworkId (destroyExecutor executorId)
       else ret tt) ;;;
      fw' <- getFramework frameworkId ;;
      (match fw' with
       | Some f' =>
           if bool_decide (f_executors f' = ∅) then
             eraseFramework frameworkId ;;;
             modify (λ s, set_s_completed (s_completed_frameworks s ++ [f']) s)
           else ret tt
       | None => ret tt
       end) ;;;
      flags <- gets s_flags ;;
      frameworks <- gets s_frameworks ;;
      if bool_decide (fl_recover flags = "cleanup") && bool_decide (frameworks = ∅)
      then emit ArchiveMetaAndShutdown
      else ret tt
  | _, _ => abort
  end.
(** How [Slave::_statusUpdateAcknowledgement] receives the outcome of
    [StatusUpdateManager::acknowledgement]. *)
Inductive AckResult := AckReady | AckError | AckNotReady.

(** [Slave::_statusUpdateAcknowledgement]. *)
Definition statusUpdateAcknowledgementDone (result : AckResult)
    (taskId : TaskID) (frameworkId : FrameworkID) (uuid : UUID) : M unit :=
  match result with
  | AckNotReady => abort
  | AckError => ret tt
  | AckReady =>
      fw <- getFramework frameworkId ;;
      match fw with
      | None => ret tt
      | Some f =>
          match getExecutorByTask f taskId with
          | None => ret tt
          | Some (executorId, _) =>
              modifyExecutor frameworkId executorId (removeUpdate taskId uuid) ;;;
              cleanup frameworkId executorId
          end
      end
  end.

(** [Slave::registerExecutor]; [from] is the sender of the message. *)
Definition registerExecutor (from : UPID) (frameworkId : FrameworkID)
    (executorId : ExecutorID) : M unit :=
  fw <- getFramework frameworkId ;;
  match fw with
  | None => emit (SendShutdownExecutor (Some from))
  | Some f =>
      match f_executors f !! executorId with
      | None => emit (SendShutdownExecutor (Some from))
      | Some e =>
          if negb (bool_decide (e_state e = REGISTERING)) then
            emit (SendShutdownExecutor (Some from))
          else
            (* [executor->pid = from; executor->state = Executor::RUNNING;] *)
            modifyExecutor frameworkId executorId
              (λ e, set_e_state RUNNING (set_e_pid (Some from) e)) ;;;
            (if fi_checkpoint (f_info f)
             then emit (CheckpointLibprocessPid frameworkId executorId (e_uuid e) from)
             else ret tt) ;;;
            foreachM (map snd (map_to_list (e_queued e)))
              (λ task, modifyExecutorChecked frameworkId executorId (addTask task)) ;;;
            ex <- getExecutor frameworkId executorId ;;
            emit (DispatchResourcesChanged frameworkId executorId
                    (default res_zero (e_resources <$> ex))) ;;;
            emit (SendExecutorRegistered (Some from) frameworkId executorId) ;;;
            foreachM (map snd (map_to_list (e_queued e)))
              (λ task, emit (SendRunTask (Some from) frameworkId (f_pid f) task)) ;;;
            modifyExecutor frameworkId executorId (set_e_queued ∅)
      end
  end.

(** The relaunch loop of [Slave::reregisterExecutor]: a launched task still
    in STAGING and missing from [launched] is sent again, with the message's
    task taken from [launched[task->task_id()]], which default-constructs the
    missing entry. *)
Fixpoint relaunchStaged (frameworkId : FrameworkID) (frameworkPid : UPID)
    (pid : option UPID) (launched : gmap TaskID TaskInfo) (ts : list Task)
    : M unit :=
  match ts with
  | [] => ret tt
  | t :: ts' =>
      if bool_decide (t_state t = TASK_STAGING) &&
         negb (bool_decide (is_Some (launched !! t_task_id t))) then
        let info := default emptyTaskInfo (launched !! t_task_id t) in
        emit (SendRunTask pid frameworkId frameworkPid info) ;;;
        relaunchStaged frameworkId frameworkPid pid
          (<[t_task_id t := info]> launched) ts'
      else relaunchStaged frameworkId frameworkPid pid launched ts'
  end.

(** [Slave::reregisterExecutor]; the two [CHECK]s abort on an unknown
    framework or executor. *)
Definition reregisterExecutor (from : UPID) (frameworkId : FrameworkID)
    (executorId : ExecutorID) (tasks : list TaskInfo)
    (updates : list StatusUpdate) : M unit :=
  fw <- getFramework frameworkId ;;
  match fw with
  | None => abort
  | Some _ =>
      ex <- getExecutor frameworkId executorId ;;
      match ex with
      | None => abort
      | Some _ =>
          (* [executor->pid = from; executor->state = Executor::RUNNING;] *)
          modifyExecutor frameworkId executorId
            (λ e, set_e_state RUNNING (set_e_pid (Some from) e)) ;;;
          emit (SendExecutorReregistered (Some from)) ;;;
          foreachM updates (λ update,
            ex <- getExecutor frameworkId executorId ;;
            if bool_decide ((su_task_id update, su_uuid update) ∈
                              default ∅ (e_updates <$> ex))
            then ret tt
            else statusUpdate update) ;;;
          let launched := foldl (λ m t, <[ti_task_id t := t]> m) ∅ tasks in
          fw <- getFramework frameworkId ;;
          ex <- getExecutor frameworkId executorId ;;
          (* [statusUpdate] removes no framework and no executor, so both
             pointers are still those of the maps. *)
          match fw, ex with
          | Some f, Some e =>
              relaunchStaged frameworkId (f_pid f) (e_pid e) launched
                (map snd (map_to_list (e_launched e)))
          | _, _ => abort
          end
      end
  end.

(** The first loop of [Slave::executorTerminated], over a copy of the
    launched tasks: every live task gets a TASK_FAILED (isolator destroyed
    the executor, or command task) or TASK_LOST update.  The flag
    [isCommandExecutor] is overwritten at each live task. *)
Fixpoint transitionLaunched (frameworkId : FrameworkID) (executorId : ExecutorID)
    (slaveId : string) (destroyed : bool) (message : string)
    (isCommandExecutor : bool) (ts : list Task) : M bool :=
  match ts with
  | [] => ret isCommandExecutor
  | t :: ts' =>
      if negb (isTerminalState (t_state t)) then
        let isCmd := negb (bool_decide (is_Some (t_executor_id t))) in
        update <- createStatusUpdate frameworkId slaveId (t_task_id t)
          (if destroyed || isCmd then TASK_FAILED else TASK_LOST)
          message (Some executorId) ;;
        statusUpdate update ;;;
        transitionLaunched frameworkId executorId slaveId destroyed message isCmd ts'
      else
        transitionLaunched frameworkId executorId slaveId destroyed message
          isCommandExecutor ts'
  end.

(** The second loop of [Slave::executorTerminated], over a copy of the
    queued tasks. *)
Fixpoint transitionQueued (frameworkId : FrameworkID) (executorId : ExecutorID)
    (slaveId : string) (destroyed : bool) (message : string)
    (isCommandExecutor : bool) (ts : list TaskInfo) : M bool :=
  match ts with
  | [] => ret isCommandExecutor
  | task :: ts' =>
      let isCmd := bool_decide (is_Some (ti_command task)) in
      update <- createStatusUpdate frameworkId slaveId (ti_task_id task)
        (if destroyed || isCmd then TASK_FAILED else TASK_LOST)
        message (Some executorId) ;;
      statusUpdate update ;;;
      transitionQueued frameworkId executorId slaveId destroyed message isCmd ts'
  end.

(** [Slave::executorTerminated], called by the isolator. *)
Definition executorTerminated (frameworkId : FrameworkID) (executorId : ExecutorID)
    (status : Z) (destroyed : bool) (message : string) : M unit :=
  emit (MonitorUnwatch frameworkId executorId) ;;;
  fw <- getFramework frameworkId ;;
  match fw with
  | None => ret tt
  | Some f =>
      match f_executors f !! executorId with
      | None => ret tt
      | Some e =>
          modifyExecutor frameworkId executorId (set_e_state TERMINATED) ;;;
          slaveId <- gets s_id ;;
          isCommandExecutor <-
            (if bool_decide (f_state f ≠ FW_TERMINATING) then
               c <- transitionLaunched frameworkId executorId slaveId destroyed
                      message false (map snd (map_to_list (e_launched e))) ;;
               transitionQueued frameworkId executorId slaveId destroyed message c
                 (map snd (map_to_list (e_queued e)))
             else ret false) ;;
          master <- gets s_master ;;
          (if negb isCommandExecutor
           then emit (SendExitedExecutor master frameworkId executorId status)
           else ret tt) ;;;
          cleanup frameworkId executorId
      end
  end.

(** [Slave::registerExecutorTimeout]. *)
Definition registerExecutorTimeout (frameworkId : FrameworkID)
    (executorId : ExecutorID) (uuid : UUID) : M unit :=
  fw <- getFramework frameworkId ;;
  match fw with
  | None => ret tt
  | Some f =>
      match f_executors f !! executorId with
      | None => ret tt
      | Some e =>
          if bool_decide (e_uuid e ≠ uuid) then ret tt
          else
            match e_pid e with
            | None =>
                modifyExecutor frameworkId executorId (set_e_state TERMINATING) ;;;
                emit (DispatchKillExecutor frameworkId executorId)
            | Some _ => ret tt
            end
      end
  end.

(** [Slave::shutdownExecutor]. *)
Definition shutdownExecutor (frameworkId : FrameworkID) (executorId : ExecutorID)
    : M unit :=
  modifyExecutor frameworkId executorId (set_e_state TERMINATING) ;;;
  ex <- getExecutor frameworkId executorId ;;
  match ex with
  | Some e =>
      emit (SendShutdownExecutor (e_pid e)) ;;;
      emit (DelayShutdownExecutorTimeout frameworkId executorId (e_uuid e))
  | None => abort
  end.

(** [Slave::shutdownFramework]; [from] is [None] for a call from inside the
    slave and the sender of the message otherwise. *)
Definition shutdownFramework (from : option UPID) (frameworkId : FrameworkID)
    : M unit :=
  master <- gets s_master ;;
  if (match from with Some p => bool_decide (p ≠ master) | None => false end)
  then ret tt
  else
    fw <- getFramework frameworkId ;;
    (match fw with
     | Some f =>
         modifyFramework frameworkId (set_f_state FW_TERMINATING) ;;;
         foreachM (map fst (map_to_list (f_executors f))) (shutdownExecutor frameworkId)
     | None => ret tt
     end) ;;;
    emit (UpdateManagerCleanup frameworkId).

(** [Slave::shutdownExecutorTimeout]. *)
Definition shutdownExecutorTimeout (frameworkId : FrameworkID)
    (executorId : ExecutorID) (uuid : UUID) : M unit :=
  ex <- getExecutor frameworkId executorId ;;
  match ex with
  | Some e =>
      if bool_decide (e_uuid e ≠ uuid) then ret tt
      else emit (DispatchKillExecutor frameworkId executorId)
  | None => ret tt
  end.

(* ================================================================= *)
(** ** Recovery *)

(** The checkpointed state read back by [state::recover].  The tasks of a
    run keep their hash map, keyed by task id ([RunState::tasks]); the other
    hash maps of [SlaveState] become lists in their iteration order. *)
Record RecTaskState := mkRecTaskState {
  rt_id : TaskID;
  rt_info : option Task;
  rt_updates : list StatusUpdate;
  rt_acks : gset UUID }.

Record RecRunState := mkRecRunState {
  rr_tasks : gmap TaskID RecTaskState;
  rr_forkedPid : option Z;
  rr_libprocessPid : option UPID }.

Record RecExecutorState := mkRecExecutorState {
  rx_id : ExecutorID;
  rx_info : option ExecutorInfo;
  rx_latest : option UUID;
  rx_runs : gmap UUID RecRunState }.

Record RecFrameworkState := mkRecFrameworkState {
  rf_id : FrameworkID;
  rf_info : option FrameworkInfo;
  rf_pid : option UPID;
  rf_executors : list RecExecutorState }.

(** The update loop of [Executor::recoverTask], which stops at the first
    terminal update. *)
Fixpoint recoverTaskUpdates (taskId : TaskID) (acks : gset UUID)
    (updates : list StatusUpdate) (e : Executor) : Executor :=
  match updates with
  | [] => e
  | u :: updates' =>
      let e1 := putUpdate taskId (su_uuid u)
                  (updateTaskState taskId (su_state u) e) in
      if isTerminalState (su_state u) then
        let e2 := removeTask taskId e1 in
        if bool_decide (su_uuid u ∈ acks) then removeUpdate taskId (su_uuid u) e2
        else e2
      else recoverTaskUpdates taskId acks updates' e1
  end.

(** [Executor::recoverTask]. *)
Definition recoverTask (st : RecTaskState) (e : Executor) : Executor :=
  match rt_info st with
  | None => e
  | Some t =>
      let e1 := set_e_tasks (res_add (e_resources e) (t_resources t))
                  (<[rt_id st := t]> (e_launched e)) (e_completed e) e in
      recoverTaskUpdates (rt_id st) (rt_acks st) (rt_updates st) e1
  end.

(** [Framework::recoverExecutor]: [None] for an executor that cannot be
    recovered; the [CHECK]s on the latest run and on the forked pid abort. *)
Definition recoverExecutor (frameworkId : FrameworkID) (f : Framework)
    (st : RecExecutorState) : M (option Executor) :=
  match rx_info st, rx_latest st with
  | Some info, Some uuid =>
      match rx_runs st !! uuid with
      | None => abort
      | Some run =>
          let e0 := newExecutor frameworkId info uuid (frameworkId, rx_id st, uuid)
                      (fi_checkpoint (f_info f)) in
          (if e_checkpoint e0
           then emit (CheckpointExecutorInfo frameworkId (e_id e0)) else ret tt) ;;;
          match rr_libprocessPid run, rr_forkedPid run with
          | Some _, None => abort
          | _, _ =>
              let e1 := match rr_libprocessPid run with
                        | Some pid => set_e_pid (Some pid) e0
                        | None => e0
                        end in
              let e := foldl (λ e t, recoverTask t e) e1
                        (map snd (map_to_list (rr_tasks run))) in
              modifyFramework frameworkId
                (λ f, set_f_executors (<[e_id e := e]> (f_executors f)) f) ;;;
              ret (Some e)
          end
      end
  | _, _ => ret None
  end.

(** [Slave::recover] of one checkpointed framework. *)
Definition recoverFramework (st : RecFrameworkState) (reconnect : bool) : M unit :=
  match rf_info st, rf_pid st with
  | Some info, Some pid =>
      let frameworkId := rf_id st in
      fw <- getFramework frameworkId ;;
      match fw with
      | Some _ => abort
      | None =>
          let f := newFramework frameworkId info pid in
          (if fi_checkpoint info
           then emit (CheckpointFrameworkInfo frameworkId) else ret tt) ;;;
          putFramework frameworkId f ;;;
          foreachM (rf_executors st) (λ xs,
            ex <- recoverExecutor frameworkId f xs ;;
            match ex with
            | None => ret tt
            | Some e =>
                emit (FilesAttach (e_directory e)) ;;;
                emit (MonitorWatch frameworkId (e_id e)) ;;;
                if reconnect then
                  match e_pid e with
                  | Some p => emit (SendReconnectExecutor p)
                  | None => ret tt
                  end
                else
                  match e_pid e with
                  | Some _ => shutdownExecutor frameworkId (e_id e)
                  | None => emit (DispatchKillExecutor frameworkId (e_id e))
                  end
            end)
      end
  | _, _ => abort
  end.

(** [Slave::reregisterExecutorTimeout]. *)
Definition reregisterExecutorTimeout : M unit :=
  frameworks <- gets s_frameworks ;;
  foreachM (map_to_list frameworks) (λ '(frameworkId, f),
    foreachM (map_to_list (f_executors f)) (λ '(executorId, e),
      match e_pid e with
      | None => emit (DispatchKillExecutor frameworkId executorId)
      | Some _ => ret tt
      end)) ;;;
  emit RecoveredSet.

(* ================================================================= *)
(** ** The actor: events and reachable states *)

(** The messages and callbacks the slave actor processes. *)
Inductive Event :=
  | EvRunTask (fi : FrameworkInfo) (fid : FrameworkID) (pid : UPID) (task : TaskInfo)
  | EvKillTask (fid : FrameworkID) (tid : TaskID)
  | EvShutdownFramework (from : option UPID) (fid : FrameworkID)
  | EvSchedulerMessage (sid : string) (fid : FrameworkID) (eid : ExecutorID)
      (data : string)
  | EvExecutorMessage (sid : string) (fid : FrameworkID) (eid : ExecutorID)
      (data : string)
  | EvStatusUpdate (u : StatusUpdate)
  | EvStatusUpdateAcknowledged (r : AckResult) (tid : TaskID) (fid : FrameworkID)
      (uuid : UUID)
  | EvRegisterExecutor (from : UPID) (fid : FrameworkID) (eid : ExecutorID)
  | EvReregisterExecutor (from : UPID) (fid : FrameworkID) (eid : ExecutorID)
      (tasks : list TaskInfo) (updates : list StatusUpdate)
  | EvExecutorTerminated (fid : FrameworkID) (eid : ExecutorID) (status : Z)
      (destroyed : bool) (message : string)
  | EvRegisterExecutorTimeout (fid : FrameworkID) (eid : ExecutorID) (uuid : UUID)
  | EvShutdownExecutorTimeout (fid : FrameworkID) (eid : ExecutorID) (uuid : UUID)
  | EvRecoverFramework (st : RecFrameworkState) (reconnect : bool)
  | EvReregisterExecutorTimeout.

Definition handle (ev : Event) : M unit :=
  match ev with
  | EvRunTask fi fid pid task => runTask fi fid pid task
  | EvKillTask fid tid => killTask fid tid
  | EvShutdownFramework from fid => shutdownFramework from fid
  | EvSchedulerMessage sid fid eid data => schedulerMessage sid fid eid data
  | EvExecutorMessage sid fid eid data => executorMessage sid fid eid data
  | EvStatusUpdate u => statusUpdate u
  | EvStatusUpdateAcknowledged r tid fid uuid =>
      statusUpdateAcknowledgementDone r tid fid uuid
  | EvRegisterExecutor from fid eid => registerExecutor from fid eid
  | EvReregisterExecutor from fid eid tasks updates =>
      reregisterExecutor from fid eid tasks updates
  | EvExecutorTerminated fid eid status destroyed message =>
      executorTerminated fid eid status destroyed message
  | EvRegisterExecutorTimeout fid eid uuid => registerExecutorTimeout fid eid uuid
  | EvShutdownExecutorTimeout fid eid uuid => shutdownExecutorTimeout fid eid uuid
  | EvRecoverFramework st reconnect => recoverFramework st reconnect
  | EvReregisterExecutorTimeout => reregisterExecutorTimeout
  end.

(** A slave freshly started: no frameworks, nothing sent. *)
Definition initSlave (slaveId : string) (flags : Flags) (master : UPID) : Slave :=
  mkSlave slaveId flags master ∅ [] (mkStats 0 0 0 0) [] 0.

(** States reachable from a fresh slave by handling events that do not
    abort the process. *)
Inductive reachable : Slave → Prop :=
  | reachable_init slaveId flags master : reachable (initSlave slaveId flags master)
  | reachable_step s ev s' :
      reachable s → handle ev s = Some (tt, s') → reachable s'.

(* ================================================================= *)
(** ** The disk-usage loop *)

Module DiskUsage.

Local Open Scope float_scope.

(** Modelled from the spec: stout's [Duration] (not under src/); a duration
    is kept as its number of weeks, a double, so that [Weeks(x)] is [x] and
    [d.weeks()] is [d]. *)
Definition Duration := float.

(** [Slave::age]: [Weeks(flags.gc_delay.weeks() * (1.0 - usage))]. *)
Definition age (gc_delay : Duration) (usage : float) : Duration :=
  gc_delay * (1 - usage).

(** The outcome of [fs::usage()] as [_checkDiskUsage] receives it. *)
Inductive UsageResult :=
  | UsageNotReady
  | UsageError (message : string)
  | UsageSome (use : float).

Inductive GcEffect :=
  | GcPrune (d : Duration)
  | DelayCheckDiskUsage.

(** [Slave::_checkDiskUsage]: the calls on the garbage collector and the
    timer it arms. *)
Definition _checkDiskUsage (gc_delay : Duration) (usage : UsageResult)
    : list GcEffect :=
  match usage with
  | UsageSome use => [GcPrune (gc_delay - age gc_delay use); DelayCheckDiskUsage]
  | UsageNotReady | UsageError _ => [DelayCheckDiskUsage]
  end.

End DiskUsage.

(* ================================================================= *)
(** ** Predicates on slave states *)

(** Every executor tracked by the slave (of a framework of [s_frameworks]). *)
Definition allExecutors (P : Executor → Prop) (s : Slave) : Prop :=
  ∀ fid f eid e, s_frameworks s !! fid = Some f →
    f_executors f !! eid = Some e → P e.

(** The spec's pid-state consistency (P6, I7). *)
Definition pidStateConsistent (e : Executor) : Prop :=
  is_Some (e_pid e) ↔ (e_state e = RUNNING ∨ e_state e = TERMINATING).

(** The direction that the code maintains: a RUNNING executor has a pid. *)
Definition runningHasPid (e : Executor) : Prop :=
  e_state e = RUNNING → is_Some (e_pid e).

(** A handler keeps [allExecutors P]. *)
Definition preservesP (P : Executor → Prop) {A} (m : M A) : Prop :=
  ∀ s a s', allExecutors P s → m s = Some (a, s') → allExecutors P s'.

Abbreviation preserves := (preservesP runningHasPid).

(** An executor update that leaves its state and its pid alone. *)
Definition keepsStatePid (g : Executor → Executor) : Prop :=
  ∀ e, e_state (g e) = e_state e ∧ e_pid (g e) = e_pid e.

(** The executor [eid] of framework [fid], if the slave tracks it. *)
Definition lookupExecutor (s : Slave) (fid : FrameworkID) (eid : ExecutorID)
    : option Executor :=
  s_frameworks s !! fid ≫= λ f, f_executors f !! eid.

(** Two states with the same frameworks and the same executors (by id),
    whatever their contents. *)
Definition sameDomains (s s' : Slave) : Prop :=
  (∀ fid, is_Some (s_frameworks s' !! fid) ↔ is_Some (s_frameworks s !! fid)) ∧
  (∀ fid eid, is_Some (lookupExecutor s' fid eid) ↔ is_Some (lookupExecutor s fid eid)).

(** What [statusUpdate] does to the state: it sends, after some
    [resourcesChanged] dispatches, one update to the status update manager,
    and it creates and removes no framework or executor. *)
Definition statusUpdate_outcome (u : StatusUpdate) (s s' : Slave) : Prop :=
  ∃ pre c p,
    s_outbox s' = (s_outbox s ++ pre ++ [UpdateManagerUpdate u c p])%list ∧
    Forall (λ ef, ∃ fid eid r, ef = DispatchResourcesChanged fid eid r) pre ∧
    sameDomains s s'.

(** An action that adds and changes no executor: every executor of the final
    state is, unchanged, an executor of the initial state. *)
Definition shrinks {A} (m : M A) : Prop :=
  ∀ s a s' fid eid e, m s = Some (a, s') →
    lookupExecutor s' fid eid = Some e → lookupExecutor s fid eid = Some e.

(** The executor [eid] of framework [fid] is tracked and the pair [p]
    (task id, uuid) is among its pending [updates]. *)
Definition holdsPair (s : Slave) (fid : FrameworkID) (eid : ExecutorID)
    (p : TaskID * UUID) : Prop :=
  ∃ e, lookupExecutor s fid eid = Some e ∧ p ∈ e_updates e.

(** An action that keeps the pair [p] in the [updates] of executor [eid] of
    framework [fid]. *)
Definition keepsPair (fid : FrameworkID) (eid : ExecutorID) (p : TaskID * UUID)
    {A} (m : M A) : Prop :=
  ∀ s a s', holdsPair s fid eid p → m s = Some (a, s') → holdsPair s' fid eid p.

(** The executor [eid] of [fid] is no longer tracked: [Framework::destroyExecutor]
    has moved it, TERMINATED and with the pair [p] still in its [updates], to
    the end of the completed executors of its framework, which is TERMINATING;
    that framework is still the one of [fid], or the last completed framework. *)
Definition destroyedPending (s : Slave) (fid : FrameworkID) (eid : ExecutorID)
    (p : TaskID * UUID) : Prop :=
  lookupExecutor s fid eid = None ∧
  ∃ f e, (s_frameworks s !! fid = Some f ∨ last (s_completed_frameworks s) = Some f) ∧
    f_state f = FW_TERMINATING ∧ last (f_completed f) = Some e ∧
    e_state e = TERMINATED ∧ p ∈ e_updates e.

(** An action that keeps the pair [p], or destroys the executor with it. *)
Definition keepsOrDestroys (fid : FrameworkID) (eid : ExecutorID)
    (p : TaskID * UUID) {A} (m : M A) : Prop :=
  ∀ s a s', holdsPair s fid eid p → m s = Some (a, s') →
    holdsPair s' fid eid p ∨ destroyedPending s' fid eid p.

(** Handle the events in order; [None] when one of them aborts. *)
Fixpoint handleAll (evs : list Event) (s : Slave) : option Slave :=
  match evs with
  | [] => Some s
  | ev :: evs' =>
      match handle ev s with
      | Some (_, s1) => handleAll evs' s1
      | None => None
      end
  end.

(* ================================================================= *)
(** ** Concrete runs *)

(** Handle one event, keeping the state when the handler aborts. *)
Definition run (ev : Event) (s : Slave) : Slave :=
  match handle ev s with Some (_, s') => s' | None => s end.

Definition scen_flags : Flags := mkFlags false "reconnect" "/usr/libexec/mesos".

Definition scen_init : Slave := initSlave "S1" scen_flags "master@1".

Definition scen_fi : FrameworkInfo := mkFrameworkInfo "fw" false.

(** A command task: no executor, a shell command. *)
Definition scen_cmd_task : TaskInfo :=
  mkTaskInfo "T1" (mkResources 1 128 0) None (Some "sleep 10").

(** The command task is placed: its executor "T1" (run uuid 0) is created,
    REGISTERING, and the task is queued. *)
Definition scen_launched : Slave :=
  run (EvRunTask scen_fi "F1" "sched@1" scen_cmd_task) scen_init.

(** The executor never registered; its registration timeout fires. *)
Definition scen_timed_out : Slave :=
  run (EvRegisterExecutorTimeout "F1" "T1" 0) scen_launched.

(** The executor "T1" registers from [exec@1]: the queued task is launched
    (STAGING) and sent to it. *)
Definition scen_registered : Slave :=
  run (EvRegisterExecutor "exec@1" "F1" "T1") scen_launched.

(** The executor reports its command task "T1" FINISHED. *)
Definition scen_finished_update : StatusUpdate :=
  mkStatusUpdate "F1" "S1" (Some "T1") "T1" TASK_FINISHED "done" 100.

Definition scen_task_finished : Slave :=
  run (EvStatusUpdate scen_finished_update) scen_registered.

(** The command executor then exits. *)
Definition scen_cmd_exited : Slave :=
  run (EvExecutorTerminated "F1" "T1" 0 false "exited") scen_task_finished.

(** Alternatively, the framework is shut down while "T1" is still STAGING,
    and the command executor then exits. *)
Definition scen_fw_shutdown : Slave :=
  run (EvShutdownFramework None "F1") scen_registered.

Definition scen_fw_shutdown_exited : Slave :=
  run (EvExecutorTerminated "F1" "T1" 0 false "exited") scen_fw_shutdown.

(** The accounting loop of [Slave::registerExecutor]:
    [executor->addTask(task)] for each queued task, in order; [None] when
    one of the [CHECK]s of [addTask] fails. *)
Fixpoint addTasks (ts : list TaskInfo) (e : Executor) : option Executor :=
  match ts with
  | [] => Some e
  | t :: ts' => addTask t e ≫= addTasks ts'
  end.

(* ================================================================= *)
(** ** Resource accounting *)

(** The resources of the launched tasks, added up. *)
Definition launchedRes (m : gmap TaskID Task) : Resources :=
  map_fold (λ _ t acc, res_add (t_resources t) acc) res_zero m.

(** The spec's accounting (P1, I5): an executor holds its own declared
    resources plus those of its launched tasks. *)
Definition resourcesAccounted (e : Executor) : Prop :=
  e_resources e = res_add (ei_resources (e_info e)) (launchedRes (e_launched e)).

(** Each task of a recovered run is stored under its own id, as
    [state::recover] builds [RunState::tasks]. *)
Definition recTasksKeyed (st : RecFrameworkState) : Prop :=
  ∀ xs uuid run tid t, xs ∈ rf_executors st → rx_runs xs !! uuid = Some run →
    rr_tasks run !! tid = Some t → rt_id t = tid.

Definition eventWF (ev : Event) : Prop :=
  match ev with
  | EvRecoverFramework st _ => recTasksKeyed st
  | _ => True
  end.

(** States reachable from a fresh slave by events whose recovered state, if
    any, is keyed as above. *)
Inductive reachableWF : Slave → Prop :=
  | reachableWF_init slaveId flags master :
      reachableWF (initSlave slaveId flags master)
  | reachableWF_step s ev s' :
      reachableWF s → eventWF ev → handle ev s = Some (tt, s') → reachableWF s'.

(* ================================================================= *)
(** ** The master's read-only HTTP handlers *)

(** The master side of [src/src/master/readonly_handler.cpp]: the task-state
    summaries and the agent/framework mapping of [/state-summary], the task
    comparator and the page of [/tasks], and the [executors] and [tasks]
    fields of a framework in [/state] and [/frameworks].  The master's
    [Framework], [Task] and [TaskInfo] are kept to the fields these read. *)
Module Master.

(** [TaskState] as the master's protobuf has it. *)
Inductive TaskState :=
  | TASK_STAGING | TASK_STARTING | TASK_RUNNING | TASK_KILLING
  | TASK_FINISHED | TASK_KILLED | TASK_FAILED | TASK_LOST | TASK_ERROR
  | TASK_DROPPED | TASK_UNREACHABLE | TASK_GONE | TASK_GONE_BY_OPERATOR
  | TASK_UNKNOWN.

#[global] Instance TaskState_eq_dec : EqDecision TaskState.
Proof. solve_decision. Defined.

(** A [Task]: its id, state, agent and the timestamps of its [statuses]. *)
Record Task := mkTask {
  task_id : string;
  state : TaskState;
  slave_id : string;
  statuses : list float }.

(** A pending [TaskInfo]: its id and the agent it is for. *)
Record TaskInfo := mkTaskInfo {
  ti_task_id : string;
  ti_slave_id : string }.

(** A master [Framework]: [pendingTasks], [tasks] and [unreachableTasks]
    (hash maps, as the list of their values in iteration order) and
    [completedTasks] (a circular buffer). *)
Record Framework := mkFramework {
  pendingTasks : list TaskInfo;
  tasks : list Task;
  unreachableTasks : list Task;
  completedTasks : list Task }.

(** [struct TaskStateSummary]; the counters are [size_t] counts of tasks in
    memory, far below [2^64], kept as [nat]. *)
Record TaskStateSummary := mkSummary {
  staging : nat; starting : nat; running : nat; killing : nat;
  finished : nat; killed : nat; failed : nat; lost : nat; error : nat;
  dropped : nat; unreachable : nat; gone : nat; gone_by_operator : nat;
  unknown : nat }.

(** [TaskStateSummary::EMPTY], the default-constructed summary. *)
Definition EMPTY : TaskStateSummary :=
  mkSummary 0 0 0 0 0 0 0 0 0 0 0 0 0 0.

(** [TaskStateSummary::count]. *)
Definition count (task : Task) (s : TaskStateSummary) : TaskStateSummary :=
  let '(mkSummary sg st ru ki fi kd fa lo er dr un go gb uk) := s in
  match state task with
  | TASK_STAGING => mkSummary (S sg) st ru ki fi kd fa lo er dr un go gb uk
  | TASK_STARTING => mkSummary sg (S st) ru ki fi kd fa lo er dr un go gb uk
  | TASK_RUNNING => mkSummary sg st (S ru) ki fi kd fa lo er dr un go gb uk
  | TASK_KILLING => mkSummary sg st ru (S ki) fi kd fa lo er dr un go gb uk
  | TASK_FINISHED => mkSummary sg st ru ki (S fi) kd fa lo er dr un go gb uk
  | TASK_KILLED => mkSummary sg st ru ki fi (S kd) fa lo er dr un go gb uk
  | TASK_FAILED => mkSummary sg st ru ki fi kd (S fa) lo er dr un go gb uk
  | TASK_LOST => mkSummary sg st ru ki fi kd fa (S lo) er dr un go gb uk
  | TASK_ERROR => mkSummary sg st ru ki fi kd fa lo (S er) dr un go gb uk
  | TASK_DROPPED => mkSummary sg st ru ki fi kd fa lo er (S dr) un go gb uk
  | TASK_UNREACHABLE => mkSummary sg st ru ki fi kd fa lo er dr (S un) go gb uk
  | TASK_GONE => mkSummary sg st ru ki fi kd fa lo er dr un (S go) gb uk
  | TASK_GONE_BY_OPERATOR => mkSummary sg st ru ki fi kd fa lo er dr un go (S gb) uk
  | TASK_UNKNOWN => mkSummary sg st ru ki fi kd fa lo er dr un go gb (S uk)
  end.

(** [summary.staging++], as [TaskStateSummaries] does for a pending task. *)
Definition incr_staging (s : TaskStateSummary) : TaskStateSummary :=
  let '(mkSummary sg st ru ki fi kd fa lo er dr un go gb uk) := s in
  mkSummary (S sg) st ru ki fi kd fa lo er dr un go gb uk.

(** The counter of a summary for one state (the field the [/state-summary]
    writer prints for it). *)
Definition field (st : TaskState) (s : TaskStateSummary) : nat :=
  match st with
  | TASK_STAGING => staging s | TASK_STARTING => starting s
  | TASK_RUNNING => running s | TASK_KILLING => killing s
  | TASK_FINISHED => finished s | TASK_KILLED => killed s
  | TASK_FAILED => failed s | TASK_LOST => lost s | TASK_ERROR => error s
  | TASK_DROPPED => dropped s | TASK_UNREACHABLE => unreachable s
  | TASK_GONE => gone s | TASK_GONE_BY_OPERATOR => gone_by_operator s
  | TASK_UNKNOWN => unknown s
  end.

(** [m[k]] followed by an update: [hashmap::operator[]] inserts a
    default-constructed value for a missing key. *)
Definition updateAt {V} (dflt : V) (k : string) (g : V → V) (m : gmap string V)
    : gmap string V :=
  <[k := g (default dflt (m !! k))]> m.

(** [class TaskStateSummaries]: its two hash maps. *)
Record TaskStateSummaries := mkSummaries {
  frameworkTaskSummaries : gmap string TaskStateSummary;
  slaveTaskSummaries : gmap string TaskStateSummary }.

(** The body of the constructor's loop for one framework. *)
Definition summariesOfFramework (frameworkId : string) (framework : Framework)
    (acc : TaskStateSummaries) : TaskStateSummaries :=
  let countTask (m : TaskStateSummaries) (task : Task) :=
    mkSummaries
      (updateAt EMPTY frameworkId (count task) (frameworkTaskSummaries m))
      (updateAt EMPTY (slave_id task) (count task) (slaveTaskSummaries m)) in
  let acc1 := foldl (λ m (taskInfo : TaskInfo),
      mkSummaries
        (updateAt EMPTY frameworkId incr_staging (frameworkTaskSummaries m))
        (updateAt EMPTY (ti_slave_id taskInfo) incr_staging (slaveTaskSummaries m)))
      acc (pendingTasks framework) in
  let acc2 := foldl countTask acc1 (tasks framework) in
  let acc3 := foldl countTask acc2 (unreachableTasks framework) in
  foldl countTask acc3 (completedTasks framework).

(** [TaskStateSummaries::TaskStateSummaries(frameworks)]. *)
Definition taskStateSummaries (frameworks : gmap string Framework)
    : TaskStateSummaries :=
  foldl (λ acc '(frameworkId, framework), summariesOfFramework frameworkId framework acc)
    (mkSummaries ∅ ∅) (map_to_list frameworks).

(** [TaskStateSummaries::framework] and [TaskStateSummaries::slave]:
    [EMPTY] for an id without a summary. *)
Definition summaryOfFramework (s : TaskStateSummaries) (frameworkId : string)
    : TaskStateSummary :=
  default EMPTY (frameworkTaskSummaries s !! frameworkId).

Definition summaryOfSlave (s : TaskStateSummaries) (slaveId : string)
    : TaskStateSummary :=
  default EMPTY (slaveTaskSummaries s !! slaveId).

(** [class SlaveFrameworkMapping]: its two hash maps of hash sets. *)
Record SlaveFrameworkMapping := mkMapping {
  slavesToFrameworks : gmap string (gset string);
  frameworksToSlaves : gmap string (gset string) }.

(** [frameworksToSlaves[frameworkId].insert(slaveId);
     slavesToFrameworks[slaveId].insert(frameworkId);] *)
Definition link (frameworkId slaveId : string) (m : SlaveFrameworkMapping)
    : SlaveFrameworkMapping :=
  mkMapping
    (updateAt ∅ slaveId ({[frameworkId]} ∪.) (slavesToFrameworks m))
    (updateAt ∅ frameworkId ({[slaveId]} ∪.) (frameworksToSlaves m)).

Definition mappingOfFramework (frameworkId : string) (framework : Framework)
    (acc : SlaveFrameworkMapping) : SlaveFrameworkMapping :=
  let linkTask m (task : Task) := link frameworkId (slave_id task) m in
  let acc1 := foldl (λ m (taskInfo : TaskInfo), link frameworkId (ti_slave_id taskInfo) m)
                acc (pendingTasks framework) in
  let acc2 := foldl linkTask acc1 (tasks framework) in
  let acc3 := foldl linkTask acc2 (unreachableTasks framework) in
  foldl linkTask acc3 (completedTasks framework).

(** [SlaveFrameworkMapping::SlaveFrameworkMapping(frameworks)]. *)
Definition slaveFrameworkMapping (frameworks : gmap string Framework)
    : SlaveFrameworkMapping :=
  foldl (λ acc '(frameworkId, framework), mappingOfFramework frameworkId framework acc)
    (mkMapping ∅ ∅) (map_to_list frameworks).

(** [SlaveFrameworkMapping::frameworks] and [::slaves]: the empty set for
    an id without an entry. *)
Definition frameworksOfSlave (m : SlaveFrameworkMapping) (slaveId : string)
    : gset string :=
  default ∅ (slavesToFrameworks m !! slaveId).

Definition slavesOfFramework (m : SlaveFrameworkMapping) (frameworkId : string)
    : gset string :=
  default ∅ (frameworksToSlaves m !! frameworkId).

(** [TaskComparator::ascending]: by the timestamp of the first status. *)
Definition ascending (lhs rhs : Task) : bool :=
  match statuses lhs, statuses rhs with
  | [], [] => false
  | [], _ => true
  | _, [] => false
  | l :: _, r :: _ => PrimFloat.ltb l r
  end.

(** [TaskComparator::descending]; [l > r] on doubles is [r < l]. *)
Definition descending (lhs rhs : Task) : bool :=
  match statuses lhs, statuses rhs with
  | [], [] => false
  | _, [] => true
  | [], _ => false
  | l :: _, r :: _ => PrimFloat.ltb r l
  end.

(** The conversion of an [int] to [size_t]: modulo [2^64]. *)
Definition size_t_of_int (x : Z) : Z := x mod 2^64.

(** [size_t limit = result.isSome() ? result.get() : TASK_LIMIT;] (and the
    same for [offset], with default [0]), where [result] is the [int] that
    [numify<int>] read from the query, if any. *)
Definition listOption (result : option Z) (dflt : Z) : Z :=
  match result with
  | Some x => size_t_of_int x
  | None => dflt
  end.

(** The [tasks] array written by [Master::ReadOnlyHandler::tasks] from the
    sorted [tasks]: [end = min(offset + limit, tasks.size())] in [size_t]
    arithmetic, then [tasks[i]] for [offset <= i < end]. *)
Definition tasksPage {A} (limit offset : Z) (tasks : list A) : list A :=
  let end_ := Z.min ((offset + limit) mod 2^64) (Z.of_nat (length tasks)) in
  omap (λ i, tasks !! Z.to_nat i) (seqZ offset (end_ - offset)).

(** A JSON value as the writers build it. *)
Inductive Json :=
  | JString (s : string)
  | JNumber (n : Z)
  | JArray (elements : list Json)
  | JObject (fields : list (string * Json)).

Section Writers.

Context {ExecutorInfo : Type}.
(** [approvers->approved<VIEW_EXECUTOR>(executor, framework->info)] and
    [approvers->approved<VIEW_TASK>(...)] for the framework being written. *)
Context (approvedExecutor : ExecutorInfo → bool).
Context (approvedTaskInfo : TaskInfo → bool) (approvedTask : Task → bool).
(** [json(writer, executor)] and [writer->element] of a task: the fields the
    protobuf writers emit. *)
Context (jsonExecutor : ExecutorInfo → list (string * Json)).
Context (jsonPending : TaskInfo → list (string * Json)).
Context (jsonTask : Task → list (string * Json)).

(** The [executors] field of [FullFrameworkWriter]: one element per
    executor of each agent ([framework_->executors], a hash map of hash
    maps); the authorization check [return]s from inside the element's
    writer, after the element has been opened. *)
Definition executorsField (executors : list (string * list ExecutorInfo)) : Json :=
  JArray (concat (map (λ '(slaveId, executorsMap),
    map (λ executor,
      JObject (if approvedExecutor executor
               then (jsonExecutor executor ++ [("slave_id", JString slaveId)])%list
               else []))
      executorsMap) executors)).

(** The [tasks] field of [FullFrameworkWriter]: the pending tasks, then the
    tasks; an unauthorized one is skipped with [continue]. *)
Definition tasksField (framework : Framework) : Json :=
  JArray (map (λ taskInfo, JObject (jsonPending taskInfo))
            (filter approvedTaskInfo (pendingTasks framework)) ++
          map (λ task, JObject (jsonTask task))
            (filter approvedTask (tasks framework)))%list.

End Writers.

(** Whether a JSON value is the empty object [{}]. *)
Definition isEmptyObject (j : Json) : bool :=
  match j with JObject [] => true | _ => false end.

(** The executors of [framework_->executors] in the order the writer visits
    them, each with the id of its agent. *)
Definition executorEntries {ExecutorInfo : Type}
    (executors : list (string * list ExecutorInfo)) : list (string * ExecutorInfo) :=
  concat (map (λ '(slaveId, executorsMap),
    map (λ executor, (slaveId, executor)) executorsMap) executors).

(** The sum, over a map of summaries, of the counter for one state (the
    total of a column of the [/state-summary] output). *)
Definition summariesTotal (st : TaskState) (m : gmap string TaskStateSummary) : nat :=
  map_fold (λ _ v acc, field st v + acc) 0 m.

(** The tasks of a framework the summaries account for in state [st]: the
    pending tasks in [TASK_STAGING], then the tasks, unreachable tasks and
    completed tasks by their own state. *)
Definition frameworkTasksIn (st : TaskState) (framework : Framework) : nat :=
  (if decide (st = TASK_STAGING) then length (pendingTasks framework) else 0) +
  length (filter (λ task, state task = st)
            (tasks framework ++ unreachableTasks framework ++ completedTasks framework)%list).

(** The agents a framework's tasks are on. *)
Definition frameworkSlaves (framework : Framework) : list string :=
  (map ti_slave_id (pendingTasks framework) ++
   map slave_id (tasks framework ++ unreachableTasks framework ++ completedTasks framework))%list.

(** The page of [/tasks] from the query's [limit] and [offset] as read by
    [numify<int>] (if present), with the default limit [TASK_LIMIT]. *)
Definition tasksOfQuery {A} (TASK_LIMIT : Z) (limit offset : option Z) (tasks : list A)
    : list A :=
  tasksPage (listOption limit TASK_LIMIT) (listOption offset 0) tasks.

End Master.

(* ================================================================= *)
(** ** The master's metrics *)

(** [src/src/master/metrics.cpp]: the counters a master keeps per task
    state, source and reason, and the counters of a framework's metrics.  A
    [process::metrics::Counter] is a handle on a shared cell: copies of it
    (the local [Counter counter = ...] of each function, the value in a
    map) update the same value, so counters are kept as ids into a heap of
    cells, and [process::metrics::add] records the counter in the registry.
    The names are built with [strings::lower] of stout, passed as [lower]. *)
Module Metrics.

Record Counter := mkCounter { counter_id : N; counter_name : string }.

(** The cells of all counters, the next fresh id, and the counters added to
    [process::metrics] in order. *)
Record Heap := mkHeap {
  cells : gmap N Z;
  next_id : N;
  added : list Counter }.

(** [Counter(name)]: a new cell holding [0]. *)
Definition newCounter (name : string) (h : Heap) : Counter * Heap :=
  (mkCounter (next_id h) name,
   mkHeap (<[next_id h := 0%Z]> (cells h)) (N.succ (next_id h)) (added h)).

(** [process::metrics::add(counter)]. *)
Definition add (c : Counter) (h : Heap) : Heap :=
  mkHeap (cells h) (next_id h) (added h ++ [c])%list.

(** [counter += v] (and [counter++] for [v = 1]). *)
Definition incr (c : Counter) (v : Z) (h : Heap) : Heap :=
  mkHeap (<[counter_id c := (default 0%Z (cells h !! counter_id c) + v)%Z]> (cells h))
    (next_id h) (added h).

(** The current value of a counter. *)
Definition value (h : Heap) (c : Counter) : Z := default 0%Z (cells h !! counter_id c).

(** The block each [increment*] function starts with:
    [if (!m.contains(k)) { Counter counter(name); m.put(k, counter);
     process::metrics::add(counter); }]. *)
Definition ensure (m : gmap string Counter) (k name : string) (h : Heap)
    : gmap string Counter * Heap :=
  match m !! k with
  | Some _ => (m, h)
  | None => let '(c, h1) := newCounter name h in (<[k := c]> m, add c h1)
  end.

(** [Counter counter = m.get(k).get(); counter++;] after [ensure]: the
    [get()] always finds the counter. *)
Definition bump (m : gmap string Counter) (k : string) (h : Heap) : Heap :=
  match m !! k with
  | Some c => incr c 1 h
  | None => h
  end.

Section WithLower.

Context (lower : string → string).

(** The master's [tasks_states], a map of maps of maps from task state,
    status source and status reason (by their protobuf names) to counter. *)
Definition TasksStates := gmap string (gmap string (gmap string Counter)).

(** [Metrics::incrementTasksStates]. *)
Definition incrementTasksStates (state source reason : string)
    (tasks_states : TasksStates) (h : Heap) : TasksStates * Heap :=
  (* if (!tasks_states.contains(state)) tasks_states[state] = SourcesReasons(); *)
  let ts1 := match tasks_states !! state with
             | Some _ => tasks_states
             | None => <[state := ∅]> tasks_states end in
  let sr := default ∅ (ts1 !! state) in
  (* if (!tasks_states[state].contains(source)) ... = Reasons(); *)
  let sr1 := match sr !! source with Some _ => sr | None => <[source := ∅]> sr end in
  let rs := default ∅ (sr1 !! source) in
  let '(rs1, h1) :=
    ensure rs reason
      ("master/" ++ lower state ++ "/" ++ lower source ++ "/" ++ lower reason) h in
  (<[state := <[source := rs1]> sr1]> ts1, bump rs1 reason h1).

(** The part of [class FrameworkMetrics] these functions use. *)
Record FrameworkMetrics := mkFrameworkMetrics {
  prefix : string;  (* getPrefix(frameworkInfo) *)
  calls : Counter;
  events : Counter;
  operations : Counter;
  refuse_seconds_infinite : Counter;
  refuseSecondsBuckets : list (Z * Counter);  (* Duration in nanoseconds *)
  callTypes : gmap string Counter;
  eventTypes : gmap string Counter;
  eventUpdates : gmap string Counter;
  operation_types : gmap string Counter;
  offers_with_resource_types : gmap string Counter }.

Definition set_callTypes (m : gmap string Counter) (fm : FrameworkMetrics) :=
  let 'mkFrameworkMetrics p c e o r b _ et eu ot ow := fm in
  mkFrameworkMetrics p c e o r b m et eu ot ow.
Definition set_eventTypes (m : gmap string Counter) (fm : FrameworkMetrics) :=
  let 'mkFrameworkMetrics p c e o r b ct _ eu ot ow := fm in
  mkFrameworkMetrics p c e o r b ct m eu ot ow.
Definition set_eventUpdates (m : gmap string Counter) (fm : FrameworkMetrics) :=
  let 'mkFrameworkMetrics p c e o r b ct et _ ot ow := fm in
  mkFrameworkMetrics p c e o r b ct et m ot ow.
Definition set_operation_types (m : gmap string Counter) (fm : FrameworkMetrics) :=
  let 'mkFrameworkMetrics p c e o r b ct et eu _ ow := fm in
  mkFrameworkMetrics p c e o r b ct et eu m ow.
Definition set_offers_with_resource_types (m : gmap string Counter)
    (fm : FrameworkMetrics) :=
  let 'mkFrameworkMetrics p c e o r b ct et eu ot _ := fm in
  mkFrameworkMetrics p c e o r b ct et eu ot m.

(** [FrameworkMetrics::incrementCall], for a call of type [type]
    ([scheduler::Call::Type_Name]). *)
Definition incrementCall (type : string) (fm : FrameworkMetrics) (h : Heap)
    : FrameworkMetrics * Heap :=
  let '(m, h1) := ensure (callTypes fm) type (prefix fm ++ "calls/" ++ lower type) h in
  (set_callTypes m fm, incr (calls fm) 1 (bump m type h1)).

(** [FrameworkMetrics::incrementSubscribeCall]. *)
Definition incrementSubscribeCall (fm : FrameworkMetrics) (h : Heap)
    : FrameworkMetrics * Heap :=
  let '(m, h1) := ensure (callTypes fm) "SUBSCRIBE" (prefix fm ++ "calls/subscribe") h in
  (set_callTypes m fm, incr (calls fm) 1 (bump m "SUBSCRIBE" h1)).

(** A [scheduler::Event]: its type and, for an [UPDATE], the state of the
    status it carries. *)
Record Event := mkEvent { event_type : string; update_state : string }.

(** [FrameworkMetrics::incrementEvent]. *)
Definition incrementEvent (event : Event) (fm : FrameworkMetrics) (h : Heap)
    : FrameworkMetrics * Heap :=
  let '(fm1, h1) :=
    if decide (event_type event = "UPDATE") then
      let taskState := update_state event in
      let '(m, h') := ensure (eventUpdates fm) taskState
                        (prefix fm ++ "events/update/" ++ lower taskState) h in
      (set_eventUpdates m fm, bump m taskState h')
    else (fm, h) in
  let '(m, h2) := ensure (eventTypes fm1) (event_type event)
                    (prefix fm1 ++ "events/" ++ lower (event_type event)) h1 in
  (set_eventTypes m fm1, incr (events fm1) 1 (bump m (event_type event) h2)).

(** [FrameworkMetrics::incrementOperation], for an operation of type
    [type] ([Offer::Operation::Type_Name]). *)
Definition incrementOperation (type : string) (fm : FrameworkMetrics) (h : Heap)
    : FrameworkMetrics * Heap :=
  let '(m, h1) := ensure (operation_types fm) type
                    (prefix fm ++ "operations/" ++ lower type) h in
  (set_operation_types m fm, incr (operations fm) 1 (bump m type h1)).

(** [FrameworkMetrics::incrementOfferFilterBuckets]; [_duration <= duration]
    on [Duration]s, their nanosecond counts. *)
Definition incrementOfferFilterBuckets (_duration : Z) (fm : FrameworkMetrics) (h : Heap)
    : Heap :=
  foldl (λ h '(duration, counter),
           if Z.leb _duration duration then incr counter 1 h else h)
    (incr (refuse_seconds_infinite fm) 1 h) (refuseSecondsBuckets fm).

Section Resources.

Context {Resource : Type}.
(** [resource.name()] and [Resources::isEmpty(resource)] of
    [src/common/resources.cpp]. *)
Context (name : Resource → string) (isEmpty : Resource → bool).

(** [FrameworkMetrics::incrementOffersWithResourceTypes]; a new counter is
    incremented through the local copy that was put in the map. *)
Definition incrementOffersWithResourceTypes (resources : list Resource)
    (fm : FrameworkMetrics) (h : Heap) : FrameworkMetrics * Heap :=
  foldl (λ '(fm, h) resource,
    if negb (isEmpty resource) then
      match offers_with_resource_types fm !! name resource with
      | None =>
          let '(counter, h1) :=
            newCounter (prefix fm ++ "offers/sent/with_" ++ name resource) h in
          (set_offers_with_resource_types
             (<[name resource := counter]> (offers_with_resource_types fm)) fm,
           incr counter 1 (add counter h1))
      | Some counter => (fm, incr counter 1 h)
      end
    else (fm, h)) (fm, h) resources.

End Resources.

End WithLower.

(** The four buckets of the constructor, in nanoseconds: [Seconds(5)],
    [Minutes(1)], [Hours(1)] and [Days(1)]. *)
Definition bucketBounds : list Z :=
  [5 * 10^9; 60 * 10^9; 3600 * 10^9; 86400 * 10^9]%Z.

(** [FrameworkMetrics::FrameworkMetrics]: the counters are created in the
    order of the initializer list and then added in the order of the
    constructor's body; [prefix] is [getPrefix(frameworkInfo)].  The
    counters no function modelled here uses ([subscribed], [offers/*],
    [offered_resources/*]) are created and added but not kept. *)
Definition frameworkMetrics (prefix : string) (h : Heap) : FrameworkMetrics * Heap :=
  let '(subscribed, h) := newCounter (prefix ++ "subscribed") h in
  let '(calls, h) := newCounter (prefix ++ "calls") h in
  let '(events, h) := newCounter (prefix ++ "events") h in
  let '(offers_sent, h) := newCounter (prefix ++ "offers/sent") h in
  let '(offers_accepted, h) := newCounter (prefix ++ "offers/accepted") h in
  let '(offers_declined, h) := newCounter (prefix ++ "offers/declined") h in
  let '(offers_rescinded, h) := newCounter (prefix ++ "offers/rescinded") h in
  let '(with_cpus, h) := newCounter (prefix ++ "offers/sent/with_cpus") h in
  let '(with_mem, h) := newCounter (prefix ++ "offers/sent/with_mem") h in
  let '(with_disk, h) := newCounter (prefix ++ "offers/sent/with_disk") h in
  let '(with_ports, h) := newCounter (prefix ++ "offers/sent/with_ports") h in
  let '(with_gpus, h) := newCounter (prefix ++ "offers/sent/with_gpus") h in
  let '(offered_cpus, h) := newCounter (prefix ++ "offered_resources/cpus") h in
  let '(offered_mem, h) := newCounter (prefix ++ "offered_resources/mem") h in
  let '(offered_disk, h) := newCounter (prefix ++ "offered_resources/disk") h in
  let '(offered_gpus, h) := newCounter (prefix ++ "offered_resources/gpus") h in
  let '(operations, h) := newCounter (prefix ++ "operations") h in
  let '(infinite, h) := newCounter
      (prefix ++ "allocation/offer_filters/refuse_seconds/infinite") h in
  let '(b5secs, h) := newCounter
      (prefix ++ "allocation/offer_filters/refuse_seconds/5secs") h in
  let '(b1mins, h) := newCounter
      (prefix ++ "allocation/offer_filters/refuse_seconds/1mins") h in
  let '(b1hours, h) := newCounter
      (prefix ++ "allocation/offer_filters/refuse_seconds/1hours") h in
  let '(b1days, h) := newCounter
      (prefix ++ "allocation/offer_filters/refuse_seconds/1days") h in
  let h := foldl (λ h c, add c h) h
    [subscribed; calls; events; operations; offers_sent; offers_accepted;
     offers_declined; offers_rescinded; with_cpus; with_mem; with_disk; with_ports;
     with_gpus; offered_cpus; offered_mem; offered_disk; offered_gpus; infinite;
     b5secs; b1mins; b1hours; b1days] in
  (mkFrameworkMetrics prefix calls events operations infinite
     (zip bucketBounds [b5secs; b1mins; b1hours; b1days]) ∅ ∅ ∅ ∅
     (<["cpus" := with_cpus]> (<["mem" := with_mem]> (<["disk" := with_disk]>
       (<["ports" := with_ports]> (<["gpus" := with_gpus]> ∅))))), h).


(** The value of the counter a map (or map of maps) holds at a key, [0]
    when it holds none. *)
Definition famValue {P} (L : P → option Counter) (h : Heap) (p : P) : Z :=
  match L p with Some c => value h c | None => 0%Z end.

(** How many times a counter was added to [process::metrics]. *)
Definition regCount (h : Heap) (c : Counter) : nat :=
  length (filter (λ c', counter_id c' = counter_id c) (added h)).

(** The counters a map (or map of maps) holds are distinct cells, allocated
    before [next_id], and each was added to [process::metrics] once. *)
Definition famInj {P} (L : P → option Counter) : Prop :=
  ∀ p1 p2 c1 c2, L p1 = Some c1 → L p2 = Some c2 →
    counter_id c1 = counter_id c2 → p1 = p2.

Definition famBelow {P} (L : P → option Counter) (h : Heap) : Prop :=
  ∀ p c, L p = Some c → (counter_id c < next_id h)%N.

Definition famRegOnce {P} (L : P → option Counter) (h : Heap) : Prop :=
  ∀ p c, L p = Some c → regCount h c = 1.

(** Every counter added to [process::metrics] was allocated before
    [next_id]. *)
Definition heapOK (h : Heap) : Prop :=
  Forall (λ c, (counter_id c < next_id h)%N) (added h).

(** What [incrementEvent] keeps: the counters of [eventTypes], of
    [eventUpdates] and [events] are distinct cells, allocated, and those of
    the two maps were each added to [process::metrics] once. *)
Definition eventsOK (fm : FrameworkMetrics) (h : Heap) : Prop :=
  famInj (eventTypes fm !!.) ∧ famBelow (eventTypes fm !!.) h ∧
  famRegOnce (eventTypes fm !!.) h ∧
  famInj (eventUpdates fm !!.) ∧ famBelow (eventUpdates fm !!.) h ∧
  famRegOnce (eventUpdates fm !!.) h ∧
  heapOK h ∧ (counter_id (events fm) < next_id h)%N ∧
  (∀ p c, eventTypes fm !! p = Some c → counter_id c ≠ counter_id (events fm)) ∧
  (∀ p c, eventUpdates fm !! p = Some c → counter_id c ≠ counter_id (events fm)) ∧
  (∀ p c p' c', eventTypes fm !! p = Some c → eventUpdates fm !! p' = Some c' →
     counter_id c ≠ counter_id c').

(** [tasks_states[state][source][reason]], if present. *)
Definition tasksStatesAt (ts : TasksStates) (key : string * string * string)
    : option Counter :=
  let '(state, source, reason) := key in
  match ts !! state with
  | Some sr => match sr !! source with Some rs => rs !! reason | None => None end
  | None => None
  end.

End Metrics.

(* ================================================================= *)
(** * Properties *)

(* ----------------------------------------------------------------- *)
(** ** Preservation of [runningHasPid], handler by handler *)

Section Preservation.

Context (P : Executor → Prop).

Lemma preserves_ret {A} (a : A) : preservesP P (ret a).
Proof. intros s b s' H E. unfold ret in E. injection E as _ <-. exact H. Qed.

Lemma preserves_abort {A} : preservesP P (@abort A).
Proof. intros s b s' H E. discriminate. Qed.

Lemma preserves_bind {A B} (m : M A) (k : A → M B) :
  preservesP P m → (∀ a, preservesP P (k a)) → preservesP P (bindM m k).
Proof.
  intros Hm Hk s b s' H E. unfold bindM in E.
  destruct (m s) as [[a s1]|] eqn:Em; [|discriminate].
  eapply Hk; [|exact E]. eapply Hm; eauto.
Qed.

Lemma preserves_frameworks_same (f : Slave → Slave) :
  (∀ s, s_frameworks (f s) = s_frameworks s) → preservesP P (modify f).
Proof.
  intros Hf s b s' H E. unfold modify in E. injection E as <- <-.
  intros fid fr eid e Hfr He. rewrite Hf in Hfr. eauto.
Qed.

Lemma preserves_gets {A} (f : Slave → A) : preservesP P (gets f).
Proof. intros s b s' H E. unfold gets in E. injection E as _ <-. exact H. Qed.

Lemma preserves_emit ef : preservesP P (emit ef).
Proof. apply preserves_frameworks_same. reflexivity. Qed.

Lemma preserves_modify_stats g : preservesP P (modify_stats g).
Proof. apply preserves_frameworks_same. reflexivity. Qed.

Lemma preserves_freshUUID : preservesP P freshUUID.
Proof. intros s b s' H E. unfold freshUUID in E. injection E as <- <-. exact H. Qed.

Lemma preserves_getFramework fid : preservesP P (getFramework fid).
Proof. apply preserves_gets. Qed.

Lemma preserves_getExecutor fid eid : preservesP P (getExecutor fid eid).
Proof. apply preserves_gets. Qed.

Lemma preserves_eraseFramework fid : preservesP P (eraseFramework fid).
Proof.
  intros s b s' H E. unfold eraseFramework, modify in E. injection E as <- <-.
  intros fid' f eid e Hf He. simpl in Hf.
  destruct (decide (fid = fid')) as [->|Hne].
  - rewrite lookup_delete_eq in Hf. discriminate.
  - rewrite lookup_delete_ne in Hf by done. eauto.
Qed.

Lemma preserves_putFramework fid f :
  (∀ eid e, f_executors f !! eid = Some e → P e) →
  preservesP P (putFramework fid f).
Proof.
  intros Hfe s b s' H E. unfold putFramework, modify in E. injection E as <- <-.
  intros fid' f' eid e Hf He. simpl in Hf.
  destruct (decide (fid = fid')) as [->|Hne].
  - rewrite lookup_insert_eq in Hf. injection Hf as <-. eauto.
  - rewrite lookup_insert_ne in Hf by done. eauto.
Qed.

Lemma preserves_modifyFramework fid g :
  (∀ f, (∀ eid e, f_executors f !! eid = Some e → P e) →
        ∀ eid e, f_executors (g f) !! eid = Some e → P e) →
  preservesP P (modifyFramework fid g).
Proof.
  intros Hg s b s' H E. unfold modifyFramework, modify in E. injection E as <- <-.
  intros fid' f' eid e Hf He. simpl in Hf.
  destruct (decide (fid = fid')) as [->|Hne].
  - rewrite lookup_alter_eq in Hf.
    destruct (s_frameworks s !! fid') as [f0|] eqn:E0; simpl in Hf; [|discriminate].
    injection Hf as <-. eapply Hg; [|exact He]. intros; eapply H; eauto.
  - rewrite lookup_alter_ne in Hf by done. eauto.
Qed.

Lemma preserves_modifyExecutor fid eid g :
  (∀ e, P e → P (g e)) →
  preservesP P (modifyExecutor fid eid g).
Proof.
  intros Hg. apply preserves_modifyFramework.
  intros f Hf eid' e He. unfold alterExecutor in He. simpl in He.
  destruct (decide (eid = eid')) as [->|Hne].
  - rewrite lookup_alter_eq in He.
    destruct (f_executors f !! eid') as [e0|] eqn:E0; simpl in He; [|discriminate].
    injection He as <-. eauto.
  - rewrite lookup_alter_ne in He by done. eauto.
Qed.

Lemma preserves_foreachM {A} (l : list A) (k : A → M unit) :
  (∀ x, preservesP P (k x)) → preservesP P (foreachM l k).
Proof.
  intros Hk. induction l as [|x l IH]; simpl.
  - apply preserves_ret.
  - apply preserves_bind; [apply Hk | intros; exact IH].
Qed.

Lemma preserves_insertExecutor fid eid e :
  P e →
  preservesP P (modifyFramework fid
    (λ f, set_f_executors (<[eid := e]> (f_executors f)) f)).
Proof.
  intros He. apply preserves_modifyFramework. intros f Hf eid' e' He'.
  simpl in He'. destruct (decide (eid = eid')) as [<-|Hne].
  - rewrite lookup_insert_eq in He'. injection He' as <-. exact He.
  - rewrite lookup_insert_ne in He' by done. eauto.
Qed.

Lemma preserves_destroyExecutor fid eid :
  preservesP P (modifyFramework fid (destroyExecutor eid)).
Proof.
  apply preserves_modifyFramework. intros f Hf eid' e' He'.
  unfold destroyExecutor in He'. destruct (f_executors f !! eid) eqn:E; [|eauto].
  simpl in He'. destruct (decide (eid = eid')) as [<-|Hne].
  - rewrite lookup_delete_eq in He'. discriminate.
  - rewrite lookup_delete_ne in He' by done. eauto.
Qed.

Lemma preserves_set_f_state fid st : preservesP P (modifyFramework fid (set_f_state st)).
Proof. apply preserves_modifyFramework. intros f Hf. exact Hf. Qed.

Lemma preserves_set_f_pending fid g :
  preservesP P (modifyFramework fid (λ f, set_f_pending (g f) f)).
Proof. apply preserves_modifyFramework. intros f Hf. exact Hf. Qed.

Lemma preserves_modify_completed g :
  preservesP P (modify (λ s, set_s_completed (g s) s)).
Proof. apply preserves_frameworks_same. reflexivity. Qed.

Lemma preserves_putNewFramework fid info pid :
  preservesP P (putFramework fid (newFramework fid info pid)).
Proof. apply preserves_putFramework. intros eid e. simpl. rewrite lookup_empty. done. Qed.

Lemma preserves_foreachM_in {A} (l : list A) (k : A → M unit) :
  (∀ x, x ∈ l → preservesP P (k x)) → preservesP P (foreachM l k).
Proof.
  intros Hk. induction l as [|x l IH]; simpl.
  - apply preserves_ret.
  - apply preserves_bind.
    + apply Hk. constructor.
    + intros _. apply IH. intros y Hy. apply Hk. by constructor.
Qed.

Lemma preserves_modifyExecutorChecked_gen fid eid g :
  (∀ e e', g e = Some e' → P e → P e') →
  preservesP P (modifyExecutorChecked fid eid g).
Proof.
  intros Hg s b s' H E. unfold modifyExecutorChecked, bindM, getExecutor, gets in E.
  destruct (s_frameworks s !! fid) as [f|] eqn:Ef; simpl in E; [|discriminate].
  destruct (f_executors f !! eid) as [e|] eqn:Ee; simpl in E; [|discriminate].
  destruct (g e) as [e'|] eqn:Eg; [|discriminate].
  assert (Hp : P e') by (apply (Hg e); [exact Eg | exact (H fid f eid e Ef Ee)]).
  exact (preserves_modifyExecutor fid eid (λ _, e') (λ _ _, Hp) s b s' H E).
Qed.

End Preservation.

Lemma preserves_keepsStatePid fid eid g :
  keepsStatePid g → preserves (modifyExecutor fid eid g).
Proof.
  intros Hg. apply preserves_modifyExecutor.
  intros e He Hs. destruct (Hg e) as [Hst Hpid]. rewrite Hpid. apply He.
  congruence.
Qed.

Lemma preserves_modifyExecutorChecked fid eid g :
  (∀ e e', g e = Some e' → e_state e' = e_state e ∧ e_pid e' = e_pid e) →
  preserves (modifyExecutorChecked fid eid g).
Proof.
  intros Hg s b s' H E. unfold modifyExecutorChecked, bindM, getExecutor, gets in E.
  destruct (s_frameworks s !! fid) as [f|] eqn:Ef; simpl in E; [|discriminate].
  destruct (f_executors f !! eid) as [e|] eqn:Ee; simpl in E; [|discriminate].
  destruct (g e) as [e'|] eqn:Eg; [|discriminate].
  destruct (Hg _ _ Eg) as [Hst Hpid].
  revert E. unfold modifyExecutor, modifyFramework, modify. intros E.
  injection E as <- <-.
  intros fid' f' eid' e1 Hf He. simpl in Hf.
  destruct (decide (fid = fid')) as [<-|Hne].
  - rewrite lookup_alter_eq, Ef in Hf. simpl in Hf. injection Hf as <-.
    unfold alterExecutor in He. simpl in He.
    destruct (decide (eid = eid')) as [<-|Hne'].
    + rewrite lookup_alter_eq, Ee in He. simpl in He. injection He as <-.
      intros Hr. rewrite Hpid. apply (H fid f eid e Ef Ee). congruence.
    + rewrite lookup_alter_ne in He by done. eauto.
  - rewrite lookup_alter_ne in Hf by done. eauto.
Qed.


Create HintDb pres_db.

Lemma keepsStatePid_updateTaskState tid st : keepsStatePid (updateTaskState tid st).
Proof. intros e. unfold updateTaskState. case_match; done. Qed.

Lemma keepsStatePid_removeTask tid : keepsStatePid (removeTask tid).
Proof. intros e. unfold removeTask. case_match; done. Qed.

Lemma keepsStatePid_compose g h :
  keepsStatePid g → keepsStatePid h → keepsStatePid (λ e, g (h e)).
Proof. intros Hg Hh e. destruct (Hg (h e)), (Hh e). split; congruence. Qed.

Lemma keepsStatePid_recoverTaskUpdates tid acks ups :
  keepsStatePid (recoverTaskUpdates tid acks ups).
Proof.
  induction ups as [|u ups IH]; intros e; simpl; [done|].
  destruct (isTerminalState (su_state u)).
  - destruct (keepsStatePid_removeTask tid
      (putUpdate tid (su_uuid u) (updateTaskState tid (su_state u) e))) as [H1 H2].
    destruct (keepsStatePid_updateTaskState tid (su_state u) e) as [H3 H4].
    case_decide; simpl in *; split; congruence.
  - destruct (IH (putUpdate tid (su_uuid u) (updateTaskState tid (su_state u) e)))
      as [H1 H2].
    destruct (keepsStatePid_updateTaskState tid (su_state u) e) as [H3 H4].
    simpl in *; split; congruence.
Qed.

Lemma keepsStatePid_recoverTask st : keepsStatePid (recoverTask st).
Proof.
  intros e. unfold recoverTask. destruct (rt_info st); [|done].
  apply (keepsStatePid_recoverTaskUpdates (rt_id st) (rt_acks st) (rt_updates st)
    (set_e_tasks _ _ _ e)).
Qed.

Lemma keepsStatePid_foldl_recoverTask ts e :
  e_state (foldl (λ e t, recoverTask t e) e ts) = e_state e ∧
  e_pid (foldl (λ e t, recoverTask t e) e ts) = e_pid e.
Proof.
  revert e. induction ts as [|t ts IH]; intros e; simpl; [done|].
  destruct (IH (recoverTask t e)), (keepsStatePid_recoverTask t e). split; congruence.
Qed.

Lemma addTask_keeps task e e' :
  addTask task e = Some e' → e_state e' = e_state e ∧ e_pid e' = e_pid e.
Proof. unfold addTask. case_match; [discriminate|]. intros [= <-]. done. Qed.

Lemma preserves_set_state_not_running fid eid st :
  st ≠ RUNNING → preserves (modifyExecutor fid eid (set_e_state st)).
Proof. intros Hst. apply preserves_modifyExecutor. intros e _ H. simpl in H. done. Qed.

Lemma preserves_register fid eid from :
  preserves (modifyExecutor fid eid (λ e, set_e_state RUNNING (set_e_pid (Some from) e))).
Proof. apply preserves_modifyExecutor. intros e _ _. simpl. eauto. Qed.

#[local] Hint Resolve preserves_destroyExecutor preserves_set_f_state
  preserves_set_f_pending preserves_modify_completed preserves_putNewFramework
  preserves_register : pres_db.

Ltac keeps_tac :=
  first
  [ solve [intros ?e; split; reflexivity]
  | apply keepsStatePid_updateTaskState | apply keepsStatePid_removeTask
  | lazymatch goal with
    | |- keepsStatePid (λ e, ?g (?h e)) =>
        apply (keepsStatePid_compose g h); keeps_tac
    end ].

Ltac pres_tac :=
  repeat first
  [ progress cbv beta zeta
  | solve [eauto with pres_db]
  | lazymatch goal with
    | |- preserves (bindM _ _) => apply preserves_bind; [ | intros ? ]
    end
  | apply preserves_ret | apply preserves_abort | apply preserves_emit
  | apply preserves_modify_stats | apply preserves_freshUUID
  | apply preserves_getFramework | apply preserves_getExecutor
  | apply preserves_gets | apply preserves_eraseFramework
  | lazymatch goal with
    | |- preserves (foreachM _ _) => apply preserves_foreachM; intros ?
    end
  | apply preserves_set_state_not_running; discriminate
  | apply preserves_keepsStatePid; solve [keeps_tac]
  | apply preserves_modifyExecutorChecked; solve [intros ? ? ?; eapply addTask_keeps; eauto]
  | match goal with
    | |- preserves (match ?x with _ => _ end) => destruct x
    | |- preserves (if ?b then _ else _) => destruct b
    end ].

Lemma preserves_createStatusUpdate fid sid tid st msg eid :
  preserves (createStatusUpdate fid sid tid st msg eid).
Proof. unfold createStatusUpdate. pres_tac. Qed.

Lemma preserves_forwardUpdate u eid : preserves (forwardUpdate u eid).
Proof. unfold forwardUpdate. pres_tac. Qed.

#[local] Hint Resolve preserves_createStatusUpdate preserves_forwardUpdate : pres_db.

Lemma preserves_statusUpdate u : preserves (statusUpdate u).
Proof. unfold statusUpdate. pres_tac. Qed.

Lemma preserves_cleanup fid eid : preserves (cleanup fid eid).
Proof. unfold cleanup. pres_tac. Qed.

#[local] Hint Resolve preserves_statusUpdate preserves_cleanup : pres_db.

Lemma preserves_statusUpdateAcknowledgementDone r tid fid uuid :
  preserves (statusUpdateAcknowledgementDone r tid fid uuid).
Proof.
  unfold statusUpdateAcknowledgementDone. pres_tac.
Qed.

Lemma preserves_createExecutor fid f info : preserves (createExecutor fid f info).
Proof.
  unfold createExecutor. pres_tac.
  apply preserves_insertExecutor. intros H. discriminate.
Qed.

#[local] Hint Resolve preserves_createExecutor : pres_db.

Lemma preserves_runTask fi fid pid task : preserves (runTask fi fid pid task).
Proof.
  unfold runTask. pres_tac.
Qed.

Lemma preserves_killTask fid tid : preserves (killTask fid tid).
Proof. unfold killTask. pres_tac. Qed.

Lemma preserves_schedulerMessage sid fid eid data :
  preserves (schedulerMessage sid fid eid data).
Proof. unfold schedulerMessage. pres_tac. Qed.

Lemma preserves_executorMessage sid fid eid data :
  preserves (executorMessage sid fid eid data).
Proof. unfold executorMessage. pres_tac. Qed.

Lemma preserves_registerExecutor from fid eid :
  preserves (registerExecutor from fid eid).
Proof.
  unfold registerExecutor. pres_tac.
Qed.

Lemma preserves_relaunchStaged fid fpid pid launched ts :
  preserves (relaunchStaged fid fpid pid launched ts).
Proof.
  revert launched. induction ts as [|t ts IH]; intros launched; simpl; pres_tac.
Qed.

#[local] Hint Resolve preserves_relaunchStaged : pres_db.

Lemma preserves_reregisterExecutor from fid eid tasks updates :
  preserves (reregisterExecutor from fid eid tasks updates).
Proof. unfold reregisterExecutor. pres_tac. Qed.

Lemma preserves_transitionLaunched fid eid sid d msg c ts :
  preserves (transitionLaunched fid eid sid d msg c ts).
Proof. revert c. induction ts as [|t ts IH]; intros c; simpl; pres_tac. Qed.

Lemma preserves_transitionQueued fid eid sid d msg c ts :
  preserves (transitionQueued fid eid sid d msg c ts).
Proof. revert c. induction ts as [|t ts IH]; intros c; simpl; pres_tac. Qed.

#[local] Hint Resolve preserves_transitionLaunched preserves_transitionQueued : pres_db.

Lemma preserves_executorTerminated fid eid status d msg :
  preserves (executorTerminated fid eid status d msg).
Proof. unfold executorTerminated. pres_tac. Qed.

Lemma preserves_registerExecutorTimeout fid eid uuid :
  preserves (registerExecutorTimeout fid eid uuid).
Proof. unfold registerExecutorTimeout. pres_tac. Qed.

Lemma preserves_shutdownExecutor fid eid : preserves (shutdownExecutor fid eid).
Proof. unfold shutdownExecutor. pres_tac. Qed.

#[local] Hint Resolve preserves_shutdownExecutor : pres_db.

Lemma preserves_shutdownFramework from fid : preserves (shutdownFramework from fid).
Proof. unfold shutdownFramework. pres_tac. Qed.

Lemma preserves_shutdownExecutorTimeout fid eid uuid :
  preserves (shutdownExecutorTimeout fid eid uuid).
Proof. unfold shutdownExecutorTimeout. pres_tac. Qed.

Lemma preserves_recoverExecutor fid f st : preserves (recoverExecutor fid f st).
Proof.
  unfold recoverExecutor. pres_tac;
    apply preserves_insertExecutor; intros Hs;
    match type of Hs with
    | e_state (foldl _ ?e1 ?ts) = _ =>
        destruct (keepsStatePid_foldl_recoverTask ts e1) as [H1 _];
        rewrite H1 in Hs; discriminate
    end.
Qed.

#[local] Hint Resolve preserves_recoverExecutor : pres_db.

Lemma preserves_recoverFramework st reconnect :
  preserves (recoverFramework st reconnect).
Proof. unfold recoverFramework. pres_tac. Qed.

Lemma preserves_reregisterExecutorTimeout : preserves reregisterExecutorTimeout.
Proof. unfold reregisterExecutorTimeout. pres_tac. Qed.

Lemma preserves_handle ev : preserves (handle ev).
Proof.
  destruct ev; simpl.
  - apply preserves_runTask.
  - apply preserves_killTask.
  - apply preserves_shutdownFramework.
  - apply preserves_schedulerMessage.
  - apply preserves_executorMessage.
  - apply preserves_statusUpdate.
  - apply preserves_statusUpdateAcknowledgementDone.
  - apply preserves_registerExecutor.
  - apply preserves_reregisterExecutor.
  - apply preserves_executorTerminated.
  - apply preserves_registerExecutorTimeout.
  - apply preserves_shutdownExecutorTimeout.
  - apply preserves_recoverFramework.
  - apply preserves_reregisterExecutorTimeout.
Qed.

Lemma allExecutors_lookup P s fid eid e :
  allExecutors P s → lookupExecutor s fid eid = Some e → P e.
Proof.
  intros H E. unfold lookupExecutor in E.
  destruct (s_frameworks s !! fid) as [f|] eqn:Ef; simpl in E; [|discriminate].
  eapply H; eauto.
Qed.

Lemma scen_timed_out_reachable : reachable scen_timed_out.
Proof.
  apply reachable_step with (s := scen_launched) (ev := EvRegisterExecutorTimeout "F1" "T1" 0);
    [|vm_compute; reflexivity].
  apply reachable_step with (s := scen_init) (ev := EvRunTask scen_fi "F1" "sched@1" scen_cmd_task);
    [apply reachable_init|vm_compute; reflexivity].
Qed.

(* ----------------------------------------------------------------- *)
(** ** C1: pid and executor state *)

(** C1 (counterexample): the equivalence "pid set iff RUNNING or TERMINATING"
    is not an invariant of reachable states.  A command task is placed, its
    executor never registers, and [registerExecutorTimeout] moves it to
    TERMINATING while its pid is still unset. *)
Lemma pid_state_consistency_counterexample :
  ¬ (∀ s, reachable s → allExecutors pidStateConsistent s).
Proof.
  intros H.
  pose proof (H _ scen_timed_out_reachable) as Hall.
  destruct (lookupExecutor scen_timed_out "F1" "T1") as [e|] eqn:E;
    [|vm_compute in E; discriminate].
  pose proof (allExecutors_lookup _ _ _ _ _ Hall E) as Hc.
  vm_compute in E. injection E as <-.
  vm_compute in Hc. destruct Hc as [_ Hc].
  destruct (Hc (or_intror eq_refl)) as [p Hp]. discriminate.
Qed.

(** C1 (amended): in every reachable slave state, every executor the slave
    tracks that is RUNNING has its pid set: registration and re-registration
    set the pid and RUNNING together, no handler clears a pid, and every
    other state change leaves RUNNING. *)
Theorem running_executor_has_pid s :
  reachable s → allExecutors runningHasPid s.
Proof.
  induction 1 as [sid flags master|s ev s' _ IH Hstep].
  - intros fid f eid e Hf. simpl in Hf. rewrite lookup_empty in Hf. discriminate.
  - eapply preserves_handle; eauto.
Qed.

Lemma running_executor_has_pid_witness :
  reachable scen_timed_out ∧ allExecutors runningHasPid scen_timed_out.
Proof.
  split.
  - apply reachable_step with (s := scen_launched) (ev := EvRegisterExecutorTimeout "F1" "T1" 0);
      [|vm_compute; reflexivity].
    apply reachable_step with (s := scen_init) (ev := EvRunTask scen_fi "F1" "sched@1" scen_cmd_task);
      [apply reachable_init|vm_compute; reflexivity].
  - apply running_executor_has_pid.
    apply reachable_step with (s := scen_launched) (ev := EvRegisterExecutorTimeout "F1" "T1" 0);
      [|vm_compute; reflexivity].
    apply reachable_step with (s := scen_init) (ev := EvRunTask scen_fi "F1" "sched@1" scen_cmd_task);
      [apply reachable_init|vm_compute; reflexivity].
Defined.

(* ----------------------------------------------------------------- *)
(** ** C2: the argument of [gc.prune] *)

(** C2 (counterexample): [gc.prune] is not called with the age itself.  With
    [gc_delay] one week and a disk usage of 25%, the age is 0.75 weeks but
    the directories pruned are those due within 0.25 weeks. *)
Lemma prune_with_age_counterexample :
  DiskUsage._checkDiskUsage 1%float (DiskUsage.UsageSome 0.25%float)
  ≠ [DiskUsage.GcPrune (DiskUsage.age 1%float 0.25%float);
     DiskUsage.DelayCheckDiskUsage].
Proof.
  intros H.
  apply (f_equal (λ l, match l with
                       | DiskUsage.GcPrune d :: _ => PrimFloat.eqb d 0.25%float
                       | _ => false
                       end)) in H.
  vm_compute in H. discriminate.
Qed.

(** C2 (amended): when a usage [u] is sampled, the agent calls [gc.prune]
    with [gc_delay - age(u)] weeks, where [age(u) = gc_delay * (1 - u)], and
    then re-arms the check; when sampling fails or is discarded, it only
    re-arms the check. *)
Theorem checkDiskUsage_prunes_complement_of_age (gc_delay : DiskUsage.Duration) :
  (∀ u, DiskUsage._checkDiskUsage gc_delay (DiskUsage.UsageSome u)
        = [DiskUsage.GcPrune (gc_delay - gc_delay * (1 - u))%float;
           DiskUsage.DelayCheckDiskUsage]) ∧
  DiskUsage._checkDiskUsage gc_delay DiskUsage.UsageNotReady
    = [DiskUsage.DelayCheckDiskUsage] ∧
  (∀ msg, DiskUsage._checkDiskUsage gc_delay (DiskUsage.UsageError msg)
          = [DiskUsage.DelayCheckDiskUsage]).
Proof.
  split; [|split]; intros; reflexivity.
Qed.

(* ----------------------------------------------------------------- *)
(** ** C3: messages naming an unknown framework or executor *)

(** C3 (counterexample): an executor re-registering with a framework the
    agent does not know is not dropped: the [CHECK] of
    [Slave::reregisterExecutor] aborts the process. *)
Lemma reregister_unknown_counterexample :
  reregisterExecutor "exec@1" "F9" "E9" [] [] scen_init = None.
Proof. reflexivity. Qed.

(** C3 (amended): for a message naming an executor the agent does not track
    (unknown framework, or unknown executor of a known framework),
    [schedulerMessage] only increments [invalidFrameworkMessages];
    [registerExecutor] only replies [ShutdownExecutor], with no counter;
    [reregisterExecutor] aborts.  When the framework itself is unknown,
    [executorMessage] only increments [invalidFrameworkMessages], and
    [killTask] synthesizes a TASK_LOST update "Cannot find framework" that
    [statusUpdate] counts as invalid and still forwards to the status update
    manager, leaving the frameworks unchanged. *)
Theorem unknown_target_handling s fid eid :
  lookupExecutor s fid eid = None →
  (∀ sid data, schedulerMessage sid fid eid data s =
     Some (tt, set_s_stats (incr_invalidFrameworkMessages (s_stats s)) s)) ∧
  (∀ from, registerExecutor from fid eid s =
     Some (tt, set_s_outbox (s_outbox s ++ [SendShutdownExecutor (Some from)])%list s)) ∧
  (∀ from tasks updates, reregisterExecutor from fid eid tasks updates s = None) ∧
  (s_frameworks s !! fid = None →
   (∀ sid data, executorMessage sid fid eid data s =
      Some (tt, set_s_stats (incr_invalidFrameworkMessages (s_stats s)) s)) ∧
   (∀ tid, ∃ s', killTask fid tid s = Some (tt, s') ∧
      s_frameworks s' = s_frameworks s ∧
      invalidFrameworkMessages (s_stats s') = invalidFrameworkMessages (s_stats s) ∧
      invalidStatusUpdates (s_stats s') = S (invalidStatusUpdates (s_stats s)) ∧
      s_outbox s' = (s_outbox s ++
        [UpdateManagerUpdate
           (mkStatusUpdate fid (s_id s) None tid TASK_LOST "Cannot find framework"
              (s_next_uuid s)) false None])%list)).
Proof.
  intros H. destruct s as [sid0 fl ms fws cfws st ob nu]. unfold lookupExecutor in H.
  simpl in *.
  destruct (fws !! fid) as [f|] eqn:Ef.
  - assert (H' : f_executors f !! eid = None) by exact H. clear H.
    split; [|split; [|split]].
    + intros. unfold schedulerMessage, getFramework, gets, bindM. simpl.
      rewrite Ef; simpl; rewrite H'; reflexivity.
    + intros. unfold registerExecutor, getFramework, gets, bindM. simpl.
      rewrite Ef; simpl; rewrite H'; reflexivity.
    + intros. unfold reregisterExecutor, getFramework, getExecutor, gets, bindM.
      simpl. rewrite Ef. simpl. rewrite Ef. simpl. rewrite H'. reflexivity.
    + discriminate.
  - split; [|split; [|split]].
    + intros. unfold schedulerMessage, getFramework, gets, bindM. simpl.
      rewrite Ef. reflexivity.
    + intros. unfold registerExecutor, getFramework, gets, bindM. simpl.
      rewrite Ef. reflexivity.
    + intros. unfold reregisterExecutor, getFramework, getExecutor, gets, bindM.
      simpl. rewrite Ef. reflexivity.
    + intros _. split.
      * intros. unfold executorMessage, getFramework, gets, bindM. simpl.
        rewrite Ef. reflexivity.
      * intros tid. eexists. split.
        { unfold killTask, getFramework, gets, bindM. simpl. rewrite Ef.
          unfold createStatusUpdate, freshUUID, bindM, ret. simpl.
          unfold statusUpdate, getFramework, gets, bindM. simpl. rewrite Ef.
          reflexivity. }
        simpl. repeat split.
Qed.

Lemma unknown_target_handling_witness :
  lookupExecutor scen_init "F9" "E9" = None ∧
  reregisterExecutor "exec@1" "F9" "E9" [] [] scen_init = None.
Proof.
  split; [reflexivity|].
  apply (unknown_target_handling scen_init "F9" "E9"). reflexivity.
Defined.

(* ----------------------------------------------------------------- *)
(** ** C4: re-registration of an executor *)

(** C4 (code bug): the executor "T1" runs, with its task "T1" launched and
    still STAGING.  It re-registers from [exec@2] reporting no task.  The
    agent resends a RunTask message, but the message carries the empty
    [TaskInfo] that [launched[task->task_id()]] default-constructs, not the
    launched task.  When the executor reports the task, no RunTask is sent. *)
Theorem reregister_resends_empty_task :
  (lookupExecutor scen_registered "F1" "T1" ≫= λ e, t_state <$> e_launched e !! "T1")
    = Some TASK_STAGING ∧
  reregisterExecutor "exec@2" "F1" "T1" [] [] scen_registered
    = Some (tt, run (EvReregisterExecutor "exec@2" "F1" "T1" [] []) scen_registered) ∧
  s_outbox (run (EvReregisterExecutor "exec@2" "F1" "T1" [] []) scen_registered)
    = (s_outbox scen_registered ++
       [SendExecutorReregistered (Some "exec@2");
        SendRunTask (Some "exec@2") "F1" "sched@1" emptyTaskInfo])%list ∧
  emptyTaskInfo ≠ scen_cmd_task ∧
  s_outbox (run (EvReregisterExecutor "exec@2" "F1" "T1" [scen_cmd_task] [])
              scen_registered)
    = (s_outbox scen_registered ++ [SendExecutorReregistered (Some "exec@2")])%list.
Proof.
  split; [vm_compute; reflexivity|].
  split; [vm_compute; reflexivity|].
  split; [vm_compute; reflexivity|].
  split; [discriminate|].
  vm_compute; reflexivity.
Qed.

(* ----------------------------------------------------------------- *)
(** ** C5: termination of a command executor *)

(** C5 (code bug): [Slave::executorTerminated] decides that an executor is a
    command executor only from the live tasks it walks, and otherwise keeps
    [isCommandExecutor = false].  The executor "T1" runs the command task
    "T1" (no executor id).  If the task has FINISHED before the executor
    exits, or the framework is TERMINATING (both loops skipped), the agent
    sends ExitedExecutor for this command executor. *)
Theorem command_executor_exit_reported :
  (lookupExecutor scen_registered "F1" "T1" ≫= λ e, t_executor_id <$> e_launched e !! "T1")
    = Some None ∧
  s_outbox scen_cmd_exited =
    (s_outbox scen_task_finished ++
     [MonitorUnwatch "F1" "T1"; SendExitedExecutor "master@1" "F1" "T1" 0])%list ∧
  (f_state <$> s_frameworks scen_fw_shutdown !! "F1") = Some FW_TERMINATING ∧
  (lookupExecutor scen_fw_shutdown "F1" "T1" ≫= λ e, t_state <$> e_launched e !! "T1")
    = Some TASK_STAGING ∧
  s_outbox scen_fw_shutdown_exited =
    (s_outbox scen_fw_shutdown ++
     [MonitorUnwatch "F1" "T1"; SendExitedExecutor "master@1" "F1" "T1" 0;
      GcSchedule ("F1", "T1", 0%N)])%list.
Proof.
  split; [vm_compute; reflexivity|].
  split; [vm_compute; reflexivity|].
  split; [vm_compute; reflexivity|].
  split; vm_compute; reflexivity.
Qed.

(* ----------------------------------------------------------------- *)
(** ** Running handlers step by step *)

Lemma bindM_Some {A B} (m : M A) (k : A → M B) s a s' :
  m s = Some (a, s') → bindM m k s = k a s'.
Proof. unfold bindM. intros ->. reflexivity. Qed.

Lemma bindM_None {A B} (m : M A) (k : A → M B) s :
  m s = None → bindM m k s = None.
Proof. unfold bindM. intros ->. reflexivity. Qed.

Lemma alter_some_insert {A} (m : gmap string A) i g x :
  m !! i = Some x → alter g i m = <[i := g x]> m.
Proof.
  intros H. rewrite <- (insert_id m i x H) at 1. apply alter_insert_eq.
Qed.

Lemma alterExecutor_set eid g f e :
  f_executors f !! eid = Some e →
  alterExecutor eid g f = set_f_executors (<[eid := g e]> (f_executors f)) f.
Proof. intros H. unfold alterExecutor. rewrite (alter_some_insert _ _ _ _ H). done. Qed.

Lemma set_f_executors_same f : set_f_executors (f_executors f) f = f.
Proof. by destruct f. Qed.

Lemma set_f_executors_twice m m' f :
  set_f_executors m (set_f_executors m' f) = set_f_executors m f.
Proof. by destruct f. Qed.

Lemma set_s_frameworks_same s : set_s_frameworks (s_frameworks s) s = s.
Proof. by destruct s. Qed.

Lemma set_s_frameworks_twice m m' s :
  set_s_frameworks m (set_s_frameworks m' s) = set_s_frameworks m s.
Proof. by destruct s. Qed.

Lemma modifyExecutor_run fid eid g s f e :
  s_frameworks s !! fid = Some f → f_executors f !! eid = Some e →
  modifyExecutor fid eid g s =
  Some (tt, set_s_frameworks
              (<[fid := set_f_executors (<[eid := g e]> (f_executors f)) f]>
                 (s_frameworks s)) s).
Proof.
  intros Hf He. unfold modifyExecutor, modifyFramework, modify.
  rewrite (alter_some_insert _ _ _ _ Hf), (alterExecutor_set _ _ _ _ He). done.
Qed.

Lemma foreachM_emit {A} (g : A → Effect) ts : ∀ s,
  foreachM ts (λ x, emit (g x)) s =
  Some (tt, set_s_outbox (app (s_outbox s) (map g ts)) s).
Proof.
  induction ts as [|x ts IH]; intros s; simpl.
  - rewrite app_nil_r. by destruct s.
  - unfold bindM. unfold emit at 1, modify. rewrite IH. simpl.
    rewrite <- app_assoc. by destruct s.
Qed.

Lemma foreachM_addTask fid eid ts : ∀ s f e,
  s_frameworks s !! fid = Some f → f_executors f !! eid = Some e →
  foreachM ts (λ task, modifyExecutorChecked fid eid (addTask task)) s =
  (λ e', (tt, set_s_frameworks
                (<[fid := set_f_executors (<[eid := e']> (f_executors f)) f]>
                   (s_frameworks s)) s)) <$> addTasks ts e.
Proof.
  induction ts as [|t ts IH]; intros s f e Hf He; cbn [foreachM addTasks].
  - simpl. unfold ret.
    rewrite (insert_id _ _ _ He), set_f_executors_same, (insert_id _ _ _ Hf).
    by rewrite set_s_frameworks_same.
  - destruct (addTask t e) as [e1|] eqn:Ea; simpl.
    + rewrite (bindM_Some _ _ s tt
        (set_s_frameworks
           (<[fid := set_f_executors (<[eid := e1]> (f_executors f)) f]>
              (s_frameworks s)) s)).
      * rewrite (IH _ (set_f_executors (<[eid := e1]> (f_executors f)) f) e1).
        -- destruct (addTasks ts e1); simpl; [|done].
           rewrite set_f_executors_twice. simpl. rewrite insert_insert_eq.
           rewrite insert_insert_eq. by rewrite set_s_frameworks_twice.
        -- simpl. apply lookup_insert_eq.
        -- simpl. apply lookup_insert_eq.
      * unfold modifyExecutorChecked, bindM, getExecutor, gets.
        rewrite Hf. simpl. rewrite He, Ea.
        by rewrite (modifyExecutor_run _ _ _ _ _ _ Hf He).
    + apply bindM_None. unfold modifyExecutorChecked, bindM, getExecutor, gets.
      rewrite Hf. simpl. by rewrite He, Ea.
Qed.

Lemma addTasks_keeps ts : ∀ e e2,
  addTasks ts e = Some e2 →
  e_state e2 = e_state e ∧ e_pid e2 = e_pid e ∧ e_queued e2 = e_queued e.
Proof.
  induction ts as [|t ts IH]; intros e e2; simpl; [by intros [= <-]|].
  destruct (addTask t e) as [e1|] eqn:Ea; simpl; [|discriminate].
  intros H. destruct (IH _ _ H) as (? & ? & ?).
  revert Ea. unfold addTask. case_match; [discriminate|]. intros [= <-].
  simpl in *. auto.
Qed.

Lemma getExecutor_run fid eid s f e :
  s_frameworks s !! fid = Some f → f_executors f !! eid = Some e →
  getExecutor fid eid s = Some (Some e, s).
Proof. intros Hf He. unfold getExecutor, gets. rewrite Hf. simpl. by rewrite He. Qed.

Lemma lookupExecutor_framework s fid eid f :
  s_frameworks s !! fid = Some f → lookupExecutor s fid eid = f_executors f !! eid.
Proof. intros Hf. unfold lookupExecutor. by rewrite Hf. Qed.

(* ----------------------------------------------------------------- *)
(** ** C6: registration of an executor *)

(** C6: [registerExecutor from fid eid].  When the executor is not tracked
    or is not REGISTERING, the agent only replies ShutdownExecutor to the
    sender.  Otherwise, with [qs] the queued tasks, the agent sets the pid
    to the sender and the state to RUNNING, checkpoints the libprocess pid
    when the framework checkpoints, adds every queued task to the executor
    ([addTask], aborting on a failed [CHECK]), then dispatches
    [resourcesChanged] with the resulting resources, replies
    ExecutorRegistered, sends one RunTask per queued task, and clears the
    queued tasks; nothing else changes. *)
Theorem registerExecutor_behaviour s from fid eid :
  (match lookupExecutor s fid eid with
   | Some e => e_state e ≠ REGISTERING
   | None => True
   end →
   registerExecutor from fid eid s =
     Some (tt, set_s_outbox (s_outbox s ++ [SendShutdownExecutor (Some from)])%list s)) ∧
  (∀ f e, s_frameworks s !! fid = Some f → f_executors f !! eid = Some e →
     e_state e = REGISTERING →
     let qs := map snd (map_to_list (e_queued e)) in
     registerExecutor from fid eid s =
       (λ e2, (tt,
         set_s_outbox
           (s_outbox s ++
            (if fi_checkpoint (f_info f)
             then [CheckpointLibprocessPid fid eid (e_uuid e) from] else []) ++
            [DispatchResourcesChanged fid eid (e_resources e2);
             SendExecutorRegistered (Some from) fid eid] ++
            map (SendRunTask (Some from) fid (f_pid f)) qs)%list
           (set_s_frameworks
              (<[fid := set_f_executors (<[eid := set_e_queued ∅ e2]> (f_executors f)) f]>
                 (s_frameworks s)) s)))
       <$> addTasks qs (set_e_state RUNNING (set_e_pid (Some from) e)) ∧
     (∀ e2, addTasks qs (set_e_state RUNNING (set_e_pid (Some from) e)) = Some e2 →
        e_pid e2 = Some from ∧ e_state e2 = RUNNING ∧ e_queued e2 = e_queued e)).
Proof.
  split.
  - intros H. unfold registerExecutor.
    rewrite (bindM_Some _ _ s (s_frameworks s !! fid) s) by done.
    destruct (s_frameworks s !! fid) as [f|] eqn:Ef; [|done].
    rewrite (lookupExecutor_framework _ _ _ _ Ef) in H.
    cbn beta iota.
    destruct (f_executors f !! eid) as [e|] eqn:Ee; [|done].
    rewrite bool_decide_false by exact H. done.
  - intros f e Hf He Hst qs. split.
    2:{ intros e2 Ha. destruct (addTasks_keeps _ _ _ Ha) as (-> & -> & ->). done. }
    unfold registerExecutor.
    rewrite (bindM_Some _ _ s (Some f) s) by (unfold getFramework, gets; by rewrite Hf).
    cbn beta iota. rewrite He, Hst, bool_decide_true by done. cbn [negb].
    unfold qs; clear qs.
    erewrite bindM_Some; [|exact (modifyExecutor_run _ _ _ _ _ _ Hf He)].
    cbn beta.
    destruct (addTasks (map snd (map_to_list (e_queued e)))
                (set_e_state RUNNING (set_e_pid (Some from) e))) as [e2|] eqn:Ea.
    + destruct (fi_checkpoint (f_info f));
        erewrite bindM_Some by reflexivity; cbn beta;
        (erewrite bindM_Some;
         [|rewrite (foreachM_addTask _ _ _ _
                      (set_f_executors (<[eid := set_e_state RUNNING (set_e_pid (Some from) e)]>
                         (f_executors f)) f)
                      (set_e_state RUNNING (set_e_pid (Some from) e)));
           [rewrite Ea; reflexivity
           |simpl; apply lookup_insert_eq
           |simpl; apply lookup_insert_eq]]);
        cbn beta;
        (erewrite bindM_Some;
         [|eapply getExecutor_run; [simpl; apply lookup_insert_eq|simpl; apply lookup_insert_eq]]);
        cbn beta;
        erewrite bindM_Some by reflexivity; cbn beta;
        erewrite bindM_Some by reflexivity; cbn beta;
        (erewrite bindM_Some; [|apply foreachM_emit]); cbn beta;
        (erewrite modifyExecutor_run; [|simpl; apply lookup_insert_eq|simpl; apply lookup_insert_eq]);
        simpl.
      all: destruct s; simpl; rewrite ?set_f_executors_twice; simpl;
        rewrite !insert_insert_eq; rewrite <- !app_assoc; reflexivity.
    + destruct (fi_checkpoint (f_info f));
        erewrite bindM_Some by reflexivity; cbn beta;
        (rewrite bindM_None;
         [|rewrite (foreachM_addTask _ _ _ _
                      (set_f_executors (<[eid := set_e_state RUNNING (set_e_pid (Some from) e)]>
                         (f_executors f)) f)
                      (set_e_state RUNNING (set_e_pid (Some from) e)));
           [rewrite Ea; reflexivity
           |simpl; apply lookup_insert_eq
           |simpl; apply lookup_insert_eq]]); done.
Qed.

Lemma registerExecutor_behaviour_witness :
  lookupExecutor scen_init "F1" "T1" = None ∧
  registerExecutor "exec@1" "F1" "T1" scen_init =
    Some (tt, set_s_outbox [SendShutdownExecutor (Some "exec@1")] scen_init) ∧
  ∃ r, registerExecutor "exec@1" "F1" "T1" scen_launched = Some r.
Proof.
  split; [reflexivity|]. split.
  - apply (proj1 (registerExecutor_behaviour scen_init "exec@1" "F1" "T1")).
    exact I.
  - destruct (s_frameworks scen_launched !! "F1") as [f|] eqn:Ef;
      [|vm_compute in Ef; discriminate].
    destruct (f_executors f !! "T1") as [e|] eqn:Ee.
    2:{ vm_compute in Ef. injection Ef as <-. vm_compute in Ee. discriminate. }
    destruct (addTasks (map snd (map_to_list (e_queued e)))
                (set_e_state RUNNING (set_e_pid (Some "exec@1") e))) as [e2|] eqn:Ea.
    2:{ vm_compute in Ef. injection Ef as <-. vm_compute in Ee. injection Ee as <-.
        vm_compute in Ea. discriminate. }
    assert (Hst : e_state e = REGISTERING).
    { vm_compute in Ef. injection Ef as <-. vm_compute in Ee. injection Ee as <-.
      reflexivity. }
    eexists.
    rewrite (proj1 (proj2 (registerExecutor_behaviour scen_launched "exec@1" "F1" "T1")
                    f e Ef Ee Hst)).
    rewrite Ea. reflexivity.
Defined.

(* ----------------------------------------------------------------- *)
(** ** Resource accounting of one executor *)

Lemma res_ext a b : cpus a = cpus b → mem a = mem b → disk a = disk b → a = b.
Proof. destruct a, b; simpl; intros -> -> ->; reflexivity. Qed.

Ltac res_eq := apply res_ext; simpl; lia.

Lemma launchedRes_empty : launchedRes ∅ = res_zero.
Proof. unfold launchedRes. apply map_fold_empty. Qed.

Lemma launchedRes_insert m i t :
  m !! i = None → launchedRes (<[i := t]> m) = res_add (t_resources t) (launchedRes m).
Proof.
  intros H. unfold launchedRes. rewrite map_fold_insert_L; [done| |exact H].
  intros. res_eq.
Qed.

Lemma launchedRes_delete m i t :
  m !! i = Some t → launchedRes m = res_add (t_resources t) (launchedRes (delete i m)).
Proof.
  intros H. unfold launchedRes. rewrite (map_fold_delete_L _ _ i t m); [done| |exact H].
  intros. res_eq.
Qed.

Lemma launchedRes_replace m i t t' :
  m !! i = Some t → t_resources t' = t_resources t →
  launchedRes (<[i := t']> m) = launchedRes m.
Proof.
  intros H Hr. rewrite (launchedRes_delete m i t H), <- insert_delete_eq.
  rewrite launchedRes_insert by apply lookup_delete_eq. by rewrite Hr.
Qed.

Lemma accounted_fields e e' :
  e_resources e' = e_resources e → e_info e' = e_info e →
  e_launched e' = e_launched e →
  resourcesAccounted e → resourcesAccounted e'.
Proof. unfold resourcesAccounted. intros -> -> ->. done. Qed.

Lemma accounted_newExecutor fid info uuid dir cp :
  resourcesAccounted (newExecutor fid info uuid dir cp).
Proof. unfold resourcesAccounted. simpl. rewrite launchedRes_empty. res_eq. Qed.

Lemma accounted_set_e_state st e :
  resourcesAccounted e → resourcesAccounted (set_e_state st e).
Proof. by apply accounted_fields. Qed.

Lemma accounted_set_e_pid p e :
  resourcesAccounted e → resourcesAccounted (set_e_pid p e).
Proof. by apply accounted_fields. Qed.

Lemma accounted_set_e_queued q e :
  resourcesAccounted e → resourcesAccounted (set_e_queued q e).
Proof. by apply accounted_fields. Qed.

Lemma accounted_putUpdate tid uuid e :
  resourcesAccounted e → resourcesAccounted (putUpdate tid uuid e).
Proof. by apply accounted_fields. Qed.

Lemma accounted_removeUpdate tid uuid e :
  resourcesAccounted e → resourcesAccounted (removeUpdate tid uuid e).
Proof. by apply accounted_fields. Qed.

Lemma accounted_updateTaskState tid st e :
  resourcesAccounted e → resourcesAccounted (updateTaskState tid st e).
Proof.
  unfold updateTaskState, resourcesAccounted. intros H.
  destruct (e_launched e !! tid) as [t|] eqn:Et; [|exact H].
  simpl. rewrite (launchedRes_replace _ _ t) by done. exact H.
Qed.

Lemma accounted_addTask task e e' :
  addTask task e = Some e' → resourcesAccounted e → resourcesAccounted e'.
Proof.
  unfold addTask, resourcesAccounted.
  destruct (e_launched e !! ti_task_id task) eqn:Et; [discriminate|].
  intros [= <-] H. simpl. rewrite launchedRes_insert by exact Et.
  rewrite H. simpl. res_eq.
Qed.

Lemma accounted_removeTask tid e :
  resourcesAccounted e → resourcesAccounted (removeTask tid e).
Proof.
  unfold removeTask, resourcesAccounted. simpl. intros H.
  destruct (e_launched e !! tid) as [t|] eqn:Et; [|exact H].
  simpl. rewrite H, (launchedRes_delete _ tid t Et). res_eq.
Qed.

Lemma accounted_recoverTaskUpdates tid acks ups e :
  resourcesAccounted e → resourcesAccounted (recoverTaskUpdates tid acks ups e).
Proof.
  revert e. induction ups as [|u ups IH]; intros e H; simpl; [exact H|].
  destruct (isTerminalState (su_state u)); [case_decide|].
  - apply accounted_removeUpdate, accounted_removeTask, accounted_putUpdate,
      accounted_updateTaskState, H.
  - apply accounted_removeTask, accounted_putUpdate, accounted_updateTaskState, H.
  - apply IH, accounted_putUpdate, accounted_updateTaskState, H.
Qed.

Lemma accounted_recoverTask st e :
  e_launched e !! rt_id st = None →
  resourcesAccounted e → resourcesAccounted (recoverTask st e).
Proof.
  unfold recoverTask. intros Hn H. destruct (rt_info st) as [t|]; [|exact H].
  apply accounted_recoverTaskUpdates. unfold resourcesAccounted in *. simpl.
  rewrite launchedRes_insert by exact Hn. rewrite H. res_eq.
Qed.

(** The updates of [recoverTaskUpdates tid] touch no other launched task. *)
Lemma recoverTaskUpdates_other tid acks ups e j :
  j ≠ tid →
  e_launched (recoverTaskUpdates tid acks ups e) !! j = e_launched e !! j.
Proof.
  intros Hj. revert e. induction ups as [|u ups IH]; intros e; simpl; [done|].
  assert (Hu : ∀ e0, e_launched (updateTaskState tid (su_state u) e0) !! j
                     = e_launched e0 !! j).
  { intros e0. unfold updateTaskState. case_match; [|done].
    simpl. by rewrite lookup_insert_ne by congruence. }
  assert (Hr : ∀ e0, e_launched (removeTask tid e0) !! j = e_launched e0 !! j).
  { intros e0. unfold removeTask. simpl. case_match; [|done].
    simpl. by rewrite lookup_delete_ne by congruence. }
  destruct (isTerminalState (su_state u)); [case_decide|]; simpl.
  - rewrite Hr. simpl. apply Hu.
  - rewrite Hr. simpl. apply Hu.
  - rewrite IH. simpl. apply Hu.
Qed.

Lemma recoverTask_other st e j :
  j ≠ rt_id st → e_launched (recoverTask st e) !! j = e_launched e !! j.
Proof.
  intros Hj. unfold recoverTask. destruct (rt_info st); [|done].
  rewrite recoverTaskUpdates_other by done. simpl.
  by rewrite lookup_insert_ne by congruence.
Qed.

Lemma accounted_foldl_recoverTask ts e :
  NoDup (map rt_id ts) →
  (∀ t, t ∈ ts → e_launched e !! rt_id t = None) →
  resourcesAccounted e →
  resourcesAccounted (foldl (λ e t, recoverTask t e) e ts).
Proof.
  revert e. induction ts as [|t ts IH]; intros e Hnd Hfresh H; simpl; [exact H|].
  inversion Hnd as [|? ? Hnin Hnd']; subst.
  apply IH; [exact Hnd'| |].
  - intros t' Ht'. rewrite recoverTask_other.
    + apply Hfresh. by constructor.
    + intros Heq. apply Hnin. rewrite <- Heq.
      apply list_elem_of_In, in_map, list_elem_of_In, Ht'.
  - apply accounted_recoverTask; [apply Hfresh; constructor|exact H].
Qed.

Lemma keyed_list_NoDup (l : list (TaskID * RecTaskState)) :
  NoDup (l.*1) → (∀ i t, (i, t) ∈ l → rt_id t = i) →
  NoDup (map rt_id (map snd l)).
Proof.
  induction l as [|[i t] l IH]; intros Hnd Hk; simpl; [constructor|].
  inversion Hnd as [|? ? Hnin Hnd']; subst.
  constructor.
  - rewrite (Hk i t) by constructor. intros Hin. apply Hnin.
    apply list_elem_of_In in Hin. apply in_map_iff in Hin as [t' [Ht' Hin]].
    apply in_map_iff in Hin as [[i' t''] [Heq Hin]]. simpl in Heq. subst t''.
    rewrite (Hk i' t') in Ht' by (constructor; apply list_elem_of_In, Hin).
    subst i'. apply list_elem_of_In in Hin.
    apply (list_elem_of_fmap_2 fst) in Hin. exact Hin.
  - apply IH; [exact Hnd'|]. intros i' t' H. apply Hk. by constructor.
Qed.

Lemma keyed_tasks_NoDup (m : gmap TaskID RecTaskState) :
  (∀ tid t, m !! tid = Some t → rt_id t = tid) →
  NoDup (map rt_id (map snd (map_to_list m))).
Proof.
  intros Hk. apply keyed_list_NoDup; [apply NoDup_fst_map_to_list|].
  intros i t H. apply Hk. by apply elem_of_map_to_list.
Qed.

(* ----------------------------------------------------------------- *)
(** ** Every handler keeps the resource accounting *)

Create HintDb presR_db.

#[local] Hint Resolve preserves_destroyExecutor preserves_set_f_state
  preserves_set_f_pending preserves_modify_completed preserves_putNewFramework
  : presR_db.

Ltac acc_tac :=
  cbv beta;
  first
  [ assumption
  | apply accounted_newExecutor
  | apply accounted_set_e_state; acc_tac
  | apply accounted_set_e_pid; acc_tac
  | apply accounted_set_e_queued; acc_tac
  | apply accounted_putUpdate; acc_tac
  | apply accounted_removeUpdate; acc_tac
  | apply accounted_updateTaskState; acc_tac
  | apply accounted_removeTask; acc_tac ].

Ltac presR_tac :=
  repeat first
  [ progress cbv beta zeta
  | solve [eauto with presR_db]
  | lazymatch goal with
    | |- preservesP _ (bindM _ _) => apply preserves_bind; [ | intros ? ]
    end
  | apply preserves_ret | apply preserves_abort | apply preserves_emit
  | apply preserves_modify_stats | apply preserves_freshUUID
  | apply preserves_getFramework | apply preserves_getExecutor
  | apply preserves_gets | apply preserves_eraseFramework
  | lazymatch goal with
    | |- preservesP _ (foreachM _ _) => apply preserves_foreachM_in; intros ? ?
    end
  | apply preserves_modifyExecutor; intros ?e ?He; solve [acc_tac]
  | apply preserves_modifyExecutorChecked_gen;
    solve [intros ? ? ?Ha ?He; eapply accounted_addTask; eauto]
  | apply preserves_insertExecutor; solve [acc_tac]
  | match goal with
    | |- preservesP _ (match ?x with _ => _ end) => destruct x
    | |- preservesP _ (if ?b then _ else _) => destruct b
    end ].

Lemma presR_createStatusUpdate fid sid tid st msg eid :
  preservesP resourcesAccounted (createStatusUpdate fid sid tid st msg eid).
Proof. unfold createStatusUpdate. presR_tac. Qed.

Lemma presR_forwardUpdate u eid :
  preservesP resourcesAccounted (forwardUpdate u eid).
Proof. unfold forwardUpdate. presR_tac. Qed.

#[local] Hint Resolve presR_createStatusUpdate presR_forwardUpdate : presR_db.

Lemma presR_statusUpdate u : preservesP resourcesAccounted (statusUpdate u).
Proof. unfold statusUpdate. presR_tac. Qed.

Lemma presR_cleanup fid eid : preservesP resourcesAccounted (cleanup fid eid).
Proof. unfold cleanup. presR_tac. Qed.

#[local] Hint Resolve presR_statusUpdate presR_cleanup : presR_db.

Lemma presR_statusUpdateAcknowledgementDone r tid fid uuid :
  preservesP resourcesAccounted (statusUpdateAcknowledgementDone r tid fid uuid).
Proof. unfold statusUpdateAcknowledgementDone. presR_tac. Qed.

Lemma presR_createExecutor fid f info :
  preservesP resourcesAccounted (createExecutor fid f info).
Proof. unfold createExecutor. presR_tac. Qed.

#[local] Hint Resolve presR_createExecutor : presR_db.

Lemma presR_runTask fi fid pid task :
  preservesP resourcesAccounted (runTask fi fid pid task).
Proof. unfold runTask. presR_tac. Qed.

Lemma presR_killTask fid tid : preservesP resourcesAccounted (killTask fid tid).
Proof. unfold killTask. presR_tac. Qed.

Lemma presR_schedulerMessage sid fid eid data :
  preservesP resourcesAccounted (schedulerMessage sid fid eid data).
Proof. unfold schedulerMessage. presR_tac. Qed.

Lemma presR_executorMessage sid fid eid data :
  preservesP resourcesAccounted (executorMessage sid fid eid data).
Proof. unfold executorMessage. presR_tac. Qed.

Lemma presR_registerExecutor from fid eid :
  preservesP resourcesAccounted (registerExecutor from fid eid).
Proof. unfold registerExecutor. presR_tac. Qed.

Lemma presR_relaunchStaged fid fpid pid launched ts :
  preservesP resourcesAccounted (relaunchStaged fid fpid pid launched ts).
Proof.
  revert launched. induction ts as [|t ts IH]; intros launched; simpl; presR_tac.
Qed.

#[local] Hint Resolve presR_relaunchStaged : presR_db.

Lemma presR_reregisterExecutor from fid eid tasks updates :
  preservesP resourcesAccounted (reregisterExecutor from fid eid tasks updates).
Proof. unfold reregisterExecutor. presR_tac. Qed.

Lemma presR_transitionLaunched fid eid sid d msg c ts :
  preservesP resourcesAccounted (transitionLaunched fid eid sid d msg c ts).
Proof. revert c. induction ts as [|t ts IH]; intros c; simpl; presR_tac. Qed.

Lemma presR_transitionQueued fid eid sid d msg c ts :
  preservesP resourcesAccounted (transitionQueued fid eid sid d msg c ts).
Proof. revert c. induction ts as [|t ts IH]; intros c; simpl; presR_tac. Qed.

#[local] Hint Resolve presR_transitionLaunched presR_transitionQueued : presR_db.

Lemma presR_executorTerminated fid eid status d msg :
  preservesP resourcesAccounted (executorTerminated fid eid status d msg).
Proof. unfold executorTerminated. presR_tac. Qed.

Lemma presR_registerExecutorTimeout fid eid uuid :
  preservesP resourcesAccounted (registerExecutorTimeout fid eid uuid).
Proof. unfold registerExecutorTimeout. presR_tac. Qed.

Lemma presR_shutdownExecutor fid eid :
  preservesP resourcesAccounted (shutdownExecutor fid eid).
Proof. unfold shutdownExecutor. presR_tac. Qed.

#[local] Hint Resolve presR_shutdownExecutor : presR_db.

Lemma presR_shutdownFramework from fid :
  preservesP resourcesAccounted (shutdownFramework from fid).
Proof. unfold shutdownFramework. presR_tac. Qed.

Lemma presR_shutdownExecutorTimeout fid eid uuid :
  preservesP resourcesAccounted (shutdownExecutorTimeout fid eid uuid).
Proof. unfold shutdownExecutorTimeout. presR_tac. Qed.

Lemma presR_reregisterExecutorTimeout :
  preservesP resourcesAccounted reregisterExecutorTimeout.
Proof. unfold reregisterExecutorTimeout. presR_tac. Qed.

Lemma presR_recoverExecutor fid f st :
  (∀ uuid run tid t, rx_runs st !! uuid = Some run →
     rr_tasks run !! tid = Some t → rt_id t = tid) →
  preservesP resourcesAccounted (recoverExecutor fid f st).
Proof.
  intros Hk. unfold recoverExecutor.
  destruct (rx_info st) as [info|]; [|presR_tac].
  destruct (rx_latest st) as [uuid|]; [|presR_tac].
  destruct (rx_runs st !! uuid) as [run|] eqn:Erun; [|presR_tac].
  presR_tac;
    apply preserves_insertExecutor; apply accounted_foldl_recoverTask;
    try (apply keyed_tasks_NoDup; intros tid t; apply (Hk uuid run tid t Erun));
    try (intros; reflexivity);
    try (apply accounted_set_e_pid); apply accounted_newExecutor.
Qed.

Lemma presR_recoverFramework st reconnect :
  recTasksKeyed st →
  preservesP resourcesAccounted (recoverFramework st reconnect).
Proof.
  intros Hk. unfold recoverFramework.
  destruct (rf_info st); [|presR_tac]. destruct (rf_pid st); [|presR_tac].
  presR_tac.
  match goal with
  | Hxs : ?xs ∈ rf_executors st |- _ =>
      apply presR_recoverExecutor; intros uuid run tid t;
      apply (Hk xs uuid run tid t Hxs)
  end.
Qed.

Lemma presR_handle ev : eventWF ev → preservesP resourcesAccounted (handle ev).
Proof.
  intros Hwf. destruct ev; simpl.
  - apply presR_runTask.
  - apply presR_killTask.
  - apply presR_shutdownFramework.
  - apply presR_schedulerMessage.
  - apply presR_executorMessage.
  - apply presR_statusUpdate.
  - apply presR_statusUpdateAcknowledgementDone.
  - apply presR_registerExecutor.
  - apply presR_reregisterExecutor.
  - apply presR_executorTerminated.
  - apply presR_registerExecutorTimeout.
  - apply presR_shutdownExecutorTimeout.
  - apply presR_recoverFramework. exact Hwf.
  - apply presR_reregisterExecutorTimeout.
Qed.

(* ----------------------------------------------------------------- *)
(** ** C7: resource accounting *)

(** C7: in every state reached from [initSlave] (with recovered task states
    filed under their own task ids, as the checkpointed state is), every
    executor's [resources] is its [info.resources] plus the resources of its
    launched tasks; [addTask] (when its [CHECK] passes) and [removeTask] each
    keep this equality. *)
Theorem resources_accounting_invariant :
  (∀ s, reachableWF s → allExecutors resourcesAccounted s) ∧
  (∀ task e e', addTask task e = Some e' →
     resourcesAccounted e → resourcesAccounted e') ∧
  (∀ tid e, resourcesAccounted e → resourcesAccounted (removeTask tid e)).
Proof.
  split; [|split].
  - induction 1 as [sid flags master|s ev s' _ IH Hwf Hstep].
    + intros fid f eid e Hf. simpl in Hf. rewrite lookup_empty in Hf. discriminate.
    + eapply presR_handle; eauto.
  - intros task e e' Ha He. eapply accounted_addTask; eauto.
  - intros tid e He. apply accounted_removeTask. exact He.
Qed.

Lemma resources_accounting_invariant_witness :
  reachableWF scen_task_finished ∧
  allExecutors resourcesAccounted scen_task_finished ∧
  addTask scen_cmd_task (newExecutor "F1" (mkExecutorInfo "E1" (mkResources 1 32 0) None "cmd") 7%N ("F1", "E1", 7%N) false)
    = Some (set_e_tasks (mkResources 2 160 0)
              (<["T1" := createTask scen_cmd_task TASK_STAGING "E1" "F1"]> ∅) []
              (newExecutor "F1" (mkExecutorInfo "E1" (mkResources 1 32 0) None "cmd") 7%N ("F1", "E1", 7%N) false)) ∧
  resourcesAccounted (set_e_tasks (mkResources 2 160 0)
              (<["T1" := createTask scen_cmd_task TASK_STAGING "E1" "F1"]> ∅) []
              (newExecutor "F1" (mkExecutorInfo "E1" (mkResources 1 32 0) None "cmd") 7%N ("F1", "E1", 7%N) false)).
Proof.
  assert (Hr : reachableWF scen_task_finished).
  { apply reachableWF_step with (s := scen_registered) (ev := EvStatusUpdate scen_finished_update);
      [|exact I|vm_compute; reflexivity].
    apply reachableWF_step with (s := scen_launched) (ev := EvRegisterExecutor "exec@1" "F1" "T1");
      [|exact I|vm_compute; reflexivity].
    apply reachableWF_step with (s := scen_init) (ev := EvRunTask scen_fi "F1" "sched@1" scen_cmd_task);
      [apply reachableWF_init|exact I|vm_compute; reflexivity]. }
  assert (Ha : addTask scen_cmd_task (newExecutor "F1" (mkExecutorInfo "E1" (mkResources 1 32 0) None "cmd") 7%N ("F1", "E1", 7%N) false)
    = Some (set_e_tasks (mkResources 2 160 0)
              (<["T1" := createTask scen_cmd_task TASK_STAGING "E1" "F1"]> ∅) []
              (newExecutor "F1" (mkExecutorInfo "E1" (mkResources 1 32 0) None "cmd") 7%N ("F1", "E1", 7%N) false)))
    by (vm_compute; reflexivity).
  split; [exact Hr|]. split; [exact (proj1 resources_accounting_invariant _ Hr)|].
  split; [exact Ha|].
  exact (proj1 (proj2 resources_accounting_invariant) _ _ _ Ha
           (accounted_newExecutor _ _ _ _ _)).
Defined.

(* ----------------------------------------------------------------- *)
(** ** Status updates and their acknowledgements *)

Lemma getExecutorByTask_lookup f tid eid e :
  getExecutorByTask f tid = Some (eid, e) → f_executors f !! eid = Some e.
Proof.
  unfold getExecutorByTask. intros H. apply List.find_some in H as [Hin _].
  apply elem_of_map_to_list, list_elem_of_In, Hin.
Qed.

Lemma removeTask_launched tid e : e_launched (removeTask tid e) !! tid = None.
Proof.
  unfold removeTask. simpl. destruct (e_launched e !! tid) eqn:E; simpl.
  - apply lookup_delete_eq.
  - exact E.
Qed.

Lemma removeTask_updates tid e : e_updates (removeTask tid e) = e_updates e.
Proof. unfold removeTask. simpl. by case_match. Qed.

Lemma updateTaskState_updates tid st e :
  e_updates (updateTaskState tid st e) = e_updates e.
Proof. unfold updateTaskState. by case_match. Qed.

Lemma forwardUpdate_run u eid s e :
  lookupExecutor s (su_framework_id u) eid = Some e →
  ∃ s', forwardUpdate u (Some eid) s = Some (tt, s') ∧
        s_frameworks s' = s_frameworks s.
Proof.
  unfold lookupExecutor. intros H.
  destruct (s_frameworks s !! su_framework_id u) as [f|] eqn:Ef; [|discriminate].
  simpl in H. eexists. split.
  - unfold forwardUpdate, bindM, getExecutor, getFramework, gets, ret,
      modify_stats, emit, modify.
    rewrite Ef. simpl. rewrite H. reflexivity.
  - reflexivity.
Qed.

Lemma shrinks_ret {A} (a : A) : shrinks (ret a).
Proof. intros s b s' fid eid e E. by injection E as <- <-. Qed.

Lemma shrinks_abort {A} : shrinks (@abort A).
Proof. intros s b s' fid eid e E. discriminate. Qed.

Lemma shrinks_bind {A B} (m : M A) (k : A → M B) :
  shrinks m → (∀ a, shrinks (k a)) → shrinks (bindM m k).
Proof.
  intros Hm Hk s b s' fid eid e E. unfold bindM in E.
  destruct (m s) as [[a s1]|] eqn:Em; [|discriminate].
  intros H. eapply Hm; [exact Em|]. eapply Hk; eauto.
Qed.

Lemma shrinks_gets {A} (f : Slave → A) : shrinks (gets f).
Proof. intros s b s' fid eid e E. by injection E as <- <-. Qed.

Lemma shrinks_same (f : Slave → Slave) :
  (∀ s, s_frameworks (f s) = s_frameworks s) → shrinks (modify f).
Proof.
  intros Hf s b s' fid eid e E. injection E as <- <-.
  unfold lookupExecutor. by rewrite Hf.
Qed.

Lemma shrinks_emit ef : shrinks (emit ef).
Proof. apply shrinks_same. reflexivity. Qed.

Lemma shrinks_getFramework fid : shrinks (getFramework fid).
Proof. apply shrinks_gets. Qed.

Lemma shrinks_getExecutor fid eid : shrinks (getExecutor fid eid).
Proof. apply shrinks_gets. Qed.

Lemma shrinks_eraseFramework fid : shrinks (eraseFramework fid).
Proof.
  intros s b s' fid' eid e E. injection E as <- <-. unfold lookupExecutor. simpl.
  destruct (decide (fid' = fid)) as [->|Hne].
  - rewrite lookup_delete_eq. discriminate.
  - by rewrite lookup_delete_ne by congruence.
Qed.

Lemma shrinks_destroyExecutor fid eid :
  shrinks (modifyFramework fid (destroyExecutor eid)).
Proof.
  intros s b s' fid' eid' e E. injection E as <- <-. unfold lookupExecutor. simpl.
  destruct (decide (fid' = fid)) as [->|Hne].
  - rewrite lookup_alter_eq.
    destruct (s_frameworks s !! fid) as [f|]; simpl; [|discriminate].
    unfold destroyExecutor. destruct (f_executors f !! eid) eqn:Ee; simpl; [|done].
    destruct (decide (eid' = eid)) as [->|Hne'].
    + rewrite lookup_delete_eq. discriminate.
    + by rewrite lookup_delete_ne by congruence.
  - by rewrite lookup_alter_ne by congruence.
Qed.

Lemma shrinks_cleanup fid eid : shrinks (cleanup fid eid).
Proof.
  unfold cleanup.
  repeat first
  [ progress cbv beta zeta
  | apply shrinks_bind; [ | intros ? ]
  | apply shrinks_ret | apply shrinks_abort | apply shrinks_emit
  | apply shrinks_getFramework | apply shrinks_getExecutor | apply shrinks_gets
  | apply shrinks_eraseFramework | apply shrinks_destroyExecutor
  | apply shrinks_same; reflexivity
  | match goal with
    | |- shrinks (match ?x with _ => _ end) => destruct x
    | |- shrinks (if ?b then _ else _) => destruct b
    end ].
Qed.

(* ----------------------------------------------------------------- *)
(** ** Pending updates stay until their acknowledgement *)

Lemma putUpdate_updates tid uuid e :
  e_updates (putUpdate tid uuid e) = {[(tid, uuid)]} ∪ e_updates e.
Proof. reflexivity. Qed.

Lemma addTask_updates task e e' :
  addTask task e = Some e' → e_updates e' = e_updates e.
Proof. unfold addTask. case_match; [discriminate|]. intros [= <-]. done. Qed.

(** What [cleanup] does to the frameworks: with [f1] the framework once the
    executor is destroyed (or not), either [f1] replaces the framework, or it
    has no executor left and moves to the completed frameworks. *)
Lemma cleanup_cases fid eid s b s' :
  cleanup fid eid s = Some (b, s') →
  ∃ f e, s_frameworks s !! fid = Some f ∧ f_executors f !! eid = Some e ∧
    let f1 := if bool_decide (e_state e = TERMINATED) &&
                 (bool_decide (e_updates e = ∅) || bool_decide (f_state f = FW_TERMINATING))
              then destroyExecutor eid f else f in
    (s_frameworks s' = <[fid := f1]> (s_frameworks s) ∧
     s_completed_frameworks s' = s_completed_frameworks s) ∨
    (f_executors f1 = ∅ ∧ s_frameworks s' = delete fid (s_frameworks s) ∧
     s_completed_frameworks s' = (s_completed_frameworks s ++ [f1])%list).
Proof.
  unfold cleanup. intros E.
  rewrite (bindM_Some _ _ s (s_frameworks s !! fid) s) in E by reflexivity.
  rewrite (bindM_Some _ _ s (lookupExecutor s fid eid) s) in E by reflexivity.
  destruct (s_frameworks s !! fid) as [f|] eqn:Ef; [|discriminate].
  rewrite (lookupExecutor_framework _ _ _ _ Ef) in E.
  destruct (f_executors f !! eid) as [e|] eqn:Ee; [|discriminate].
  exists f, e. split; [done|]. split; [done|]. cbv zeta.
  set (c := bool_decide (e_state e = TERMINATED) &&
              (bool_decide (e_updates e = ∅) || bool_decide (f_state f = FW_TERMINATING))) in *.
  set (f1 := if c then destroyExecutor eid f else f).
  cbv beta iota in E.
  assert (H1 : ∃ s1, (if c then emit (GcSchedule (e_directory e)) ;;;
                               modifyFramework fid (destroyExecutor eid)
                      else ret tt) s = Some (tt, s1) ∧
                 s_frameworks s1 = <[fid := f1]> (s_frameworks s) ∧
                 s_completed_frameworks s1 = s_completed_frameworks s).
  { unfold f1. destruct c.
    - eexists. split; [reflexivity|]. simpl. split; [|done].
      by rewrite (alter_some_insert _ _ _ _ Ef).
    - eexists. split; [reflexivity|]. by rewrite insert_id. }
  destruct H1 as (s1 & Es1 & Hf1 & Hc1).
  rewrite (bindM_Some _ _ _ _ _ Es1) in E.
  rewrite (bindM_Some _ _ s1 (Some f1) s1) in E
    by (unfold getFramework, gets; by rewrite Hf1, lookup_insert_eq).
  cbv beta iota in E.
  destruct (bool_decide (f_executors f1 = ∅)) eqn:Eb.
  - apply bool_decide_eq_true_1 in Eb. right. split; [exact Eb|].
    unfold bindM, eraseFramework, modify, gets in E. cbv beta iota in E.
    match type of E with context [if ?c then _ else _] => destruct c end;
      [unfold emit, modify in E|unfold ret in E];
      injection E as _ <-; simpl; rewrite Hf1, Hc1; split; try done;
      apply delete_insert_eq.
  - left. unfold bindM, ret, gets in E. cbv beta iota in E.
    match type of E with context [if ?c then _ else _] => destruct c end;
      [unfold emit, modify in E|unfold ret in E];
      injection E as _ <-; simpl; rewrite Hf1, Hc1; done.
Qed.

Section PairKept.

Context (fid : FrameworkID) (eid : ExecutorID) (p : TaskID * UUID).

Lemma kp_ret {A} (a : A) : keepsPair fid eid p (ret a).
Proof. intros s b s' H E. injection E as _ <-. exact H. Qed.

Lemma kp_abort {A} : keepsPair fid eid p (@abort A).
Proof. intros s b s' H E. discriminate. Qed.

Lemma kp_bind {A B} (m : M A) (k : A → M B) :
  keepsPair fid eid p m → (∀ a, keepsPair fid eid p (k a)) →
  keepsPair fid eid p (bindM m k).
Proof.
  intros Hm Hk s b s' H E. unfold bindM in E.
  destruct (m s) as [[a s1]|] eqn:Em; [|discriminate].
  eapply Hk; [|exact E]. eapply Hm; eauto.
Qed.

Lemma kp_same (g : Slave → Slave) :
  (∀ s, s_frameworks (g s) = s_frameworks s) → keepsPair fid eid p (modify g).
Proof.
  intros Hg s b s' [e [He Hp]] E. injection E as _ <-.
  exists e. unfold lookupExecutor in *. rewrite Hg. done.
Qed.

Lemma kp_gets {A} (g : Slave → A) : keepsPair fid eid p (gets g).
Proof. intros s b s' H E. injection E as _ <-. exact H. Qed.

Lemma kp_emit ef : keepsPair fid eid p (emit ef).
Proof. apply kp_same. reflexivity. Qed.

Lemma kp_modify_stats g : keepsPair fid eid p (modify_stats g).
Proof. apply kp_same. reflexivity. Qed.

Lemma kp_freshUUID : keepsPair fid eid p freshUUID.
Proof. intros s b s' H E. injection E as _ <-. exact H. Qed.

Lemma kp_modifyFramework fid' g :
  (∀ f e, fid' = fid → f_executors f !! eid = Some e → p ∈ e_updates e →
     ∃ e', f_executors (g f) !! eid = Some e' ∧ p ∈ e_updates e') →
  keepsPair fid eid p (modifyFramework fid' g).
Proof.
  intros Hg s b s' [e [He Hp]] E. unfold modifyFramework, modify in E.
  injection E as _ <-. unfold holdsPair, lookupExecutor in *. simpl.
  destruct (decide (fid' = fid)) as [->|Hne].
  - rewrite lookup_alter_eq.
    destruct (s_frameworks s !! fid) as [f|]; simpl in *; [|discriminate].
    exact (Hg f e eq_refl He Hp).
  - rewrite lookup_alter_ne by done. eauto.
Qed.

Lemma kp_modifyFramework_other fid' g :
  fid' ≠ fid → keepsPair fid eid p (modifyFramework fid' g).
Proof. intros Hne. apply kp_modifyFramework. intros; congruence. Qed.

Lemma kp_set_f_state fid' st :
  keepsPair fid eid p (modifyFramework fid' (set_f_state st)).
Proof. apply kp_modifyFramework. intros f e _ He Hp. exists e. done. Qed.

Lemma kp_set_f_pending fid' g :
  keepsPair fid eid p (modifyFramework fid' (λ f, set_f_pending (g f) f)).
Proof. apply kp_modifyFramework. intros f e _ He Hp. exists e. done. Qed.

Lemma kp_insertExecutor fid' eid' e' :
  (fid', eid') ≠ (fid, eid) →
  keepsPair fid eid p (modifyFramework fid'
    (λ f, set_f_executors (<[eid' := e']> (f_executors f)) f)).
Proof.
  intros Hne. apply kp_modifyFramework. intros f e -> He Hp. simpl.
  rewrite lookup_insert_ne by congruence. eauto.
Qed.

Lemma kp_modifyExecutor fid' eid' g :
  (∀ e, p ∈ e_updates e → p ∈ e_updates (g e)) →
  keepsPair fid eid p (modifyExecutor fid' eid' g).
Proof.
  intros Hg. apply kp_modifyFramework. intros f e _ He Hp.
  unfold alterExecutor. simpl.
  destruct (decide (eid' = eid)) as [->|Hne].
  - rewrite lookup_alter_eq, He. simpl. eauto.
  - rewrite lookup_alter_ne by done. eauto.
Qed.

Lemma kp_modifyExecutorChecked fid' eid' g :
  (∀ e e', g e = Some e' → p ∈ e_updates e → p ∈ e_updates e') →
  keepsPair fid eid p (modifyExecutorChecked fid' eid' g).
Proof.
  intros Hg s b s' H E. unfold modifyExecutorChecked in E.
  destruct (s_frameworks s !! fid') as [f|] eqn:Ef.
  - rewrite (bindM_Some _ _ s (f_executors f !! eid') s) in E
      by (unfold getExecutor, gets; by rewrite Ef).
    destruct (f_executors f !! eid') as [e0|] eqn:Ee; [|discriminate].
    destruct (g e0) as [e1|] eqn:Eg; [|discriminate].
    rewrite (modifyExecutor_run _ _ _ _ _ _ Ef Ee) in E. injection E as _ <-.
    destruct H as [e [He Hp]]. unfold holdsPair, lookupExecutor in *. simpl.
    destruct (decide (fid' = fid)) as [->|Hne].
    + rewrite lookup_insert_eq. simpl. rewrite Ef in He. simpl in He.
      destruct (decide (eid' = eid)) as [->|Hne'].
      * rewrite lookup_insert_eq. rewrite Ee in He. injection He as <-. eauto.
      * rewrite lookup_insert_ne by done. eauto.
    + rewrite lookup_insert_ne by done. eauto.
  - rewrite (bindM_Some _ _ s None s) in E
      by (unfold getExecutor, gets; by rewrite Ef).
    discriminate.
Qed.

Lemma kp_bind_getFramework {B} fid' (k : option Framework → M B) :
  (∀ f, keepsPair fid eid p (k (Some f))) →
  (fid' ≠ fid → keepsPair fid eid p (k None)) →
  keepsPair fid eid p (bindM (getFramework fid') k).
Proof.
  intros Hs Hn s b s' H E. unfold bindM in E.
  destruct (getFramework fid' s) as [[fw s1]|] eqn:Eg; [|discriminate].
  unfold getFramework, gets in Eg. injection Eg as Ex <-.
  destruct fw as [f|].
  - exact (Hs f s b s' H E).
  - refine (Hn _ s b s' H E). intros ->.
    destruct H as [e [He _]]. unfold lookupExecutor in He. rewrite Ex in He.
    discriminate.
Qed.

Lemma kp_bind_getExecutor {B} fid' eid' (k : option Executor → M B) :
  (∀ e, keepsPair fid eid p (k (Some e))) →
  ((fid', eid') ≠ (fid, eid) → keepsPair fid eid p (k None)) →
  keepsPair fid eid p (bindM (getExecutor fid' eid') k).
Proof.
  intros Hs Hn s b s' H E. unfold bindM in E.
  destruct (getExecutor fid' eid' s) as [[ex s1]|] eqn:Eg; [|discriminate].
  unfold getExecutor, gets in Eg. injection Eg as Ex <-.
  destruct ex as [e|].
  - exact (Hs e s b s' H E).
  - refine (Hn _ s b s' H E). intros [= -> ->].
    destruct H as [e [He _]]. unfold lookupExecutor in He. congruence.
Qed.

Lemma kp_putFramework fid' f :
  fid' ≠ fid → keepsPair fid eid p (putFramework fid' f).
Proof.
  intros Hne s b s' [e [He Hp]] E. unfold putFramework, modify in E.
  injection E as _ <-. exists e. unfold lookupExecutor in *. simpl.
  rewrite lookup_insert_ne by done. auto.
Qed.

Lemma kp_eraseFramework fid' :
  fid' ≠ fid → keepsPair fid eid p (eraseFramework fid').
Proof.
  intros Hne s b s' [e [He Hp]] E. unfold eraseFramework, modify in E.
  injection E as _ <-. exists e. unfold lookupExecutor in *. simpl.
  rewrite lookup_delete_ne by done. auto.
Qed.

Lemma kp_foreachM {A} (l : list A) (k : A → M unit) :
  (∀ x, keepsPair fid eid p (k x)) → keepsPair fid eid p (foreachM l k).
Proof.
  intros Hk. induction l as [|x l IH]; simpl.
  - apply kp_ret.
  - apply kp_bind; [apply Hk | intros; exact IH].
Qed.

Create HintDb kp_db.

Ltac kp_upd_tac :=
  intros ?e ?Hp; cbv beta;
  rewrite ?putUpdate_updates, ?updateTaskState_updates, ?removeTask_updates;
  first [exact Hp | set_solver].

Ltac kp_tac :=
  repeat first
  [ progress cbv beta zeta
  | lazymatch goal with
    | |- keepsPair _ _ _ (bindM (getFramework _) _) =>
        apply kp_bind_getFramework; intros ?
    | |- keepsPair _ _ _ (bindM (getExecutor _ _) _) =>
        apply kp_bind_getExecutor; intros ?
    | |- keepsPair _ _ _ (bindM _ _) => apply kp_bind; [ | intros ? ]
    | |- keepsPair _ _ _ (foreachM _ _) => apply kp_foreachM; intros ?
    end
  | solve [eauto with kp_db]
  | apply kp_ret | apply kp_abort | apply kp_emit | apply kp_modify_stats
  | apply kp_freshUUID | apply kp_gets
  | apply kp_set_f_state | apply kp_set_f_pending
  | apply kp_modifyExecutor; solve [kp_upd_tac]
  | apply kp_modifyExecutorChecked;
    solve [intros ?e ?e' ?Ha ?Hp; rewrite (addTask_updates _ _ _ Ha); exact Hp]
  | apply kp_putFramework; assumption
  | apply kp_insertExecutor; assumption
  | apply kp_modifyFramework_other; assumption
  | match goal with
    | |- keepsPair _ _ _ (match ?x with _ => _ end) => destruct x
    | |- keepsPair _ _ _ (if ?b then _ else _) => destruct b
    end ].

Lemma kp_createStatusUpdate fid' sid tid st msg eid' :
  keepsPair fid eid p (createStatusUpdate fid' sid tid st msg eid').
Proof. unfold createStatusUpdate. kp_tac. Qed.

Lemma kp_forwardUpdate u eid' : keepsPair fid eid p (forwardUpdate u eid').
Proof. unfold forwardUpdate. kp_tac. Qed.

#[local] Hint Resolve kp_createStatusUpdate kp_forwardUpdate : kp_db.

Lemma kp_statusUpdate u : keepsPair fid eid p (statusUpdate u).
Proof. unfold statusUpdate. kp_tac. Qed.

#[local] Hint Resolve kp_statusUpdate : kp_db.

Lemma kp_createExecutor fid' f info : keepsPair fid eid p (createExecutor fid' f info).
Proof. unfold createExecutor. kp_tac. Qed.

#[local] Hint Resolve kp_createExecutor : kp_db.

Lemma kp_runTask fi fid' pid task : keepsPair fid eid p (runTask fi fid' pid task).
Proof. unfold runTask. kp_tac. Qed.

Lemma kp_killTask fid' tid : keepsPair fid eid p (killTask fid' tid).
Proof. unfold killTask. kp_tac. Qed.

Lemma kp_schedulerMessage sid fid' eid' data :
  keepsPair fid eid p (schedulerMessage sid fid' eid' data).
Proof. unfold schedulerMessage. kp_tac. Qed.

Lemma kp_executorMessage sid fid' eid' data :
  keepsPair fid eid p (executorMessage sid fid' eid' data).
Proof. unfold executorMessage. kp_tac. Qed.

Lemma kp_registerExecutor from fid' eid' :
  keepsPair fid eid p (registerExecutor from fid' eid').
Proof. unfold registerExecutor. kp_tac. Qed.

Lemma kp_relaunchStaged fid' fpid pid launched ts :
  keepsPair fid eid p (relaunchStaged fid' fpid pid launched ts).
Proof.
  revert launched. induction ts as [|t ts IH]; intros launched; simpl; kp_tac.
Qed.

#[local] Hint Resolve kp_relaunchStaged : kp_db.

Lemma kp_reregisterExecutor from fid' eid' tasks updates :
  keepsPair fid eid p (reregisterExecutor from fid' eid' tasks updates).
Proof. unfold reregisterExecutor. kp_tac. Qed.

Lemma kp_transitionLaunched fid' eid' sid d msg c ts :
  keepsPair fid eid p (transitionLaunched fid' eid' sid d msg c ts).
Proof. revert c. induction ts as [|t ts IH]; intros c; simpl; kp_tac. Qed.

Lemma kp_transitionQueued fid' eid' sid d msg c ts :
  keepsPair fid eid p (transitionQueued fid' eid' sid d msg c ts).
Proof. revert c. induction ts as [|t ts IH]; intros c; simpl; kp_tac. Qed.

#[local] Hint Resolve kp_transitionLaunched kp_transitionQueued : kp_db.

Lemma kp_registerExecutorTimeout fid' eid' uuid :
  keepsPair fid eid p (registerExecutorTimeout fid' eid' uuid).
Proof. unfold registerExecutorTimeout. kp_tac. Qed.

Lemma kp_shutdownExecutor fid' eid' : keepsPair fid eid p (shutdownExecutor fid' eid').
Proof. unfold shutdownExecutor. kp_tac. Qed.

#[local] Hint Resolve kp_shutdownExecutor : kp_db.

Lemma kp_shutdownFramework from fid' : keepsPair fid eid p (shutdownFramework from fid').
Proof. unfold shutdownFramework. kp_tac. Qed.

Lemma kp_shutdownExecutorTimeout fid' eid' uuid :
  keepsPair fid eid p (shutdownExecutorTimeout fid' eid' uuid).
Proof. unfold shutdownExecutorTimeout. kp_tac. Qed.

Lemma kp_recoverExecutor fid' f st :
  fid' ≠ fid → keepsPair fid eid p (recoverExecutor fid' f st).
Proof. intros Hne. unfold recoverExecutor. kp_tac. Qed.

#[local] Hint Resolve kp_recoverExecutor : kp_db.

Lemma kp_recoverFramework st reconnect :
  keepsPair fid eid p (recoverFramework st reconnect).
Proof. unfold recoverFramework. kp_tac. Qed.

Lemma kp_reregisterExecutorTimeout : keepsPair fid eid p reregisterExecutorTimeout.
Proof. unfold reregisterExecutorTimeout. kp_tac. Qed.

Lemma kd_of_kp {A} (m : M A) : keepsPair fid eid p m → keepsOrDestroys fid eid p m.
Proof. intros Hm s a s' H E. left. eauto. Qed.

Lemma kd_bind {A B} (m : M A) (k : A → M B) :
  keepsPair fid eid p m → (∀ a, keepsOrDestroys fid eid p (k a)) →
  keepsOrDestroys fid eid p (bindM m k).
Proof.
  intros Hm Hk s b s' H E. unfold bindM in E.
  destruct (m s) as [[a s1]|] eqn:Em; [|discriminate].
  eapply Hk; [|exact E]. eapply Hm; eauto.
Qed.

Lemma kd_cleanup fid' eid' : keepsOrDestroys fid eid p (cleanup fid' eid').
Proof.
  intros s b s' [e [He Hp]] E.
  destruct (cleanup_cases _ _ _ _ _ E) as (f & e0 & Ef & Ee & Hc). cbv zeta in Hc.
  unfold holdsPair, destroyedPending, lookupExecutor in *.
  destruct (decide (fid' = fid)) as [->|Hne].
  2:{ left. exists e.
      destruct Hc as [[-> _]|(_ & -> & _)];
        [rewrite lookup_insert_ne by done | rewrite lookup_delete_ne by done]; auto. }
  rewrite Ef in He. simpl in He.
  destruct (decide (eid' = eid)) as [->|Hne'].
  - rewrite Ee in He. injection He as ->.
    destruct (bool_decide (e_state e = TERMINATED)) eqn:Et; simpl in Hc.
    2:{ left. exists e. destruct Hc as [[-> _]|(Hemp & _)].
        - rewrite lookup_insert_eq. simpl. auto.
        - rewrite Hemp in Ee. rewrite lookup_empty in Ee. discriminate. }
    assert (Hne0 : bool_decide (e_updates e = ∅) = false)
      by (apply bool_decide_eq_false_2; set_solver).
    rewrite Hne0 in Hc. simpl in Hc.
    destruct (bool_decide (f_state f = FW_TERMINATING)) eqn:Ets; simpl in Hc.
    2:{ left. exists e. destruct Hc as [[-> _]|(Hemp & _)].
        - rewrite lookup_insert_eq. simpl. auto.
        - rewrite Hemp in Ee. rewrite lookup_empty in Ee. discriminate. }
    apply bool_decide_eq_true_1 in Et, Ets.
    unfold destroyExecutor in Hc. rewrite Ee in Hc.
    right. destruct Hc as [[-> ->]|(_ & -> & ->)].
    + split.
      * rewrite lookup_insert_eq. simpl. apply lookup_delete_eq.
      * eexists _, e. split; [left; apply lookup_insert_eq|].
        simpl. rewrite last_snoc. auto.
    + split.
      * rewrite lookup_delete_eq. reflexivity.
      * eexists _, e. split; [right; apply last_snoc|].
        simpl. rewrite last_snoc. auto.
  - assert (He1 : ∀ c : bool, f_executors (if c then destroyExecutor eid' f else f) !! eid
                              = Some e).
    { intros []; [|exact He]. unfold destroyExecutor. rewrite Ee. simpl.
      rewrite lookup_delete_ne by done. exact He. }
    left. exists e. destruct Hc as [[-> _]|(Hemp & _)].
    + rewrite lookup_insert_eq. simpl. rewrite He1. auto.
    + specialize (He1 (bool_decide (e_state e0 = TERMINATED) &&
                     (bool_decide (e_updates e0 = ∅) ||
                      bool_decide (f_state f = FW_TERMINATING)))).
      rewrite Hemp, lookup_empty in He1. discriminate.
Qed.

Ltac kd_tac :=
  repeat first
  [ progress cbv beta zeta
  | apply kd_cleanup
  | solve [apply kd_of_kp; kp_tac]
  | lazymatch goal with
    | |- keepsOrDestroys _ _ _ (bindM _ _) => apply kd_bind; [ solve [kp_tac] | intros ? ]
    end
  | match goal with
    | |- keepsOrDestroys _ _ _ (match ?x with _ => _ end) => destruct x
    | |- keepsOrDestroys _ _ _ (if ?b then _ else _) => destruct b
    end ].

Lemma kd_executorTerminated fid' eid' status d msg :
  keepsOrDestroys fid eid p (executorTerminated fid' eid' status d msg).
Proof. unfold executorTerminated. kd_tac. Qed.

Lemma kd_statusUpdateAcknowledgementDone r tid fid' uuid :
  (r, tid, fid', uuid) ≠ (AckReady, p.1, fid, p.2) →
  keepsOrDestroys fid eid p (statusUpdateAcknowledgementDone r tid fid' uuid).
Proof.
  intros Hne. unfold statusUpdateAcknowledgementDone.
  destruct r; [|kd_tac|kd_tac].
  apply kd_bind; [apply kp_gets|]. intros [f|]; [|kd_tac].
  destruct (getExecutorByTask f tid) as [[executorId e0]|]; [|kd_tac].
  apply kd_bind; [|intros; apply kd_cleanup].
  destruct (decide (fid' = fid)) as [->|Hf].
  - apply kp_modifyExecutor. intros e Hp. unfold removeUpdate. simpl.
    apply elem_of_difference. split; [exact Hp|].
    rewrite elem_of_singleton. intros ->. apply Hne. reflexivity.
  - apply kp_modifyFramework_other, Hf.
Qed.

Lemma kd_handle ev :
  ev ≠ EvStatusUpdateAcknowledged AckReady p.1 fid p.2 →
  keepsOrDestroys fid eid p (handle ev).
Proof.
  intros Hne. destruct ev; simpl.
  7: apply kd_statusUpdateAcknowledgementDone; intros [= -> -> -> ->];
       apply Hne; destruct p; reflexivity.
  9: apply kd_executorTerminated.
  all: apply kd_of_kp; first
    [ apply kp_runTask | apply kp_killTask | apply kp_shutdownFramework
    | apply kp_schedulerMessage | apply kp_executorMessage | apply kp_statusUpdate
    | apply kp_registerExecutor | apply kp_reregisterExecutor
    | apply kp_registerExecutorTimeout | apply kp_shutdownExecutorTimeout
    | apply kp_recoverFramework | apply kp_reregisterExecutorTimeout ].
Qed.

End PairKept.

Lemma handleAll_pair evs : ∀ s s' fid eid tid uuid,
  handleAll evs s = Some s' → holdsPair s fid eid (tid, uuid) →
  (∀ ev, ev ∈ evs → ev ≠ EvStatusUpdateAcknowledged AckReady tid fid uuid) →
  holdsPair s' fid eid (tid, uuid) ∨
  ∃ evs1 ev evs2 s1 s2,
    evs = (evs1 ++ ev :: evs2)%list ∧ handleAll evs1 s = Some s1 ∧
    holdsPair s1 fid eid (tid, uuid) ∧ handle ev s1 = Some (tt, s2) ∧
    destroyedPending s2 fid eid (tid, uuid).
Proof.
  induction evs as [|ev evs IH]; intros s s' fid eid tid uuid E H Hev; simpl in E.
  - injection E as <-. left. exact H.
  - destruct (handle ev s) as [[[] s1]|] eqn:Eh; [|discriminate].
    assert (Hne : ev ≠ EvStatusUpdateAcknowledged AckReady (tid, uuid).1 fid (tid, uuid).2)
      by (apply Hev; constructor).
    destruct (kd_handle fid eid (tid, uuid) ev Hne s tt s1 H Eh) as [H1|H1].
    + destruct (IH s1 s' fid eid tid uuid E H1) as
        [H2|(evs1 & ev' & evs2 & s2 & s3 & -> & E1 & H2 & E2 & H3)].
      * intros ev' Hin. apply Hev. by constructor.
      * left. exact H2.
      * right. exists (ev :: evs1), ev', evs2, s2, s3.
        split; [reflexivity|]. split; [simpl; rewrite Eh; exact E1|].
        split; [exact H2|]. split; [exact E2|exact H3].
    + right. exists [], ev, evs, s, s1.
      split; [reflexivity|]. split; [reflexivity|].
      split; [exact H|]. split; [exact Eh|exact H1].
Qed.

(* ----------------------------------------------------------------- *)
(** ** C8: a terminal update leaves the task's acknowledgement pending *)

(** C8: when [statusUpdate] handles an update with a terminal state for a task
    that [Framework::getExecutor] finds in executor [eid] of a known framework,
    it returns with the task out of [eid]'s launched tasks and with the pair
    (task id, uuid) added to the executor's [updates], next to the pairs it
    already held.  The pair then stays there: along any run of handled events
    none of which is the coordinator's acknowledgement of that task and uuid
    for that framework, the executor keeps the pair in its [updates], unless
    [cleanup] destroys the executor (TERMINATED, of a TERMINATING framework),
    which moves it, with the pair still in its [updates], to the completed
    executors.  An acknowledgement handled by [_statusUpdateAcknowledgement]
    for the task and a uuid removes that one pair and no other: if the executor
    is still there afterwards, its [updates] are the old ones minus that pair. *)
Theorem terminal_update_pending_until_ack :
  (∀ s u f eid e,
     s_frameworks s !! su_framework_id u = Some f →
     getExecutorByTask f (su_task_id u) = Some (eid, e) →
     isTerminalState (su_state u) = true →
     ∃ s' e', statusUpdate u s = Some (tt, s') ∧
       lookupExecutor s' (su_framework_id u) eid = Some e' ∧
       e_launched e' !! su_task_id u = None ∧
       e_updates e' = {[(su_task_id u, su_uuid u)]} ∪ e_updates e) ∧
  (∀ s fid tid uuid f eid e s' e',
     s_frameworks s !! fid = Some f →
     getExecutorByTask f tid = Some (eid, e) →
     statusUpdateAcknowledgementDone AckReady tid fid uuid s = Some (tt, s') →
     lookupExecutor s' fid eid = Some e' →
     e_updates e' = e_updates e ∖ {[(tid, uuid)]}) ∧
  (∀ evs s s' fid eid tid uuid,
     handleAll evs s = Some s' →
     holdsPair s fid eid (tid, uuid) →
     (∀ ev, ev ∈ evs → ev ≠ EvStatusUpdateAcknowledged AckReady tid fid uuid) →
     holdsPair s' fid eid (tid, uuid) ∨
     ∃ evs1 ev evs2 s1 s2,
       evs = (evs1 ++ ev :: evs2)%list ∧ handleAll evs1 s = Some s1 ∧
       holdsPair s1 fid eid (tid, uuid) ∧ handle ev s1 = Some (tt, s2) ∧
       destroyedPending s2 fid eid (tid, uuid)).
Proof.
  split; [|split].
  - intros s u f eid e Hf Hex Hterm.
    pose proof (getExecutorByTask_lookup _ _ _ _ Hex) as He.
    set (e1 := putUpdate (su_task_id u) (su_uuid u)
                 (updateTaskState (su_task_id u) (su_state u) e)).
    set (f1 := set_f_executors (<[eid := e1]> (f_executors f)) f).
    set (s1 := set_s_frameworks (<[su_framework_id u := f1]> (s_frameworks s)) s).
    set (e2 := removeTask (su_task_id u) e1).
    set (f2 := set_f_executors (<[eid := e2]> (f_executors f1)) f1).
    set (s2 := set_s_frameworks (<[su_framework_id u := f2]> (s_frameworks s1)) s1).
    set (s3 := set_s_outbox (s_outbox s2 ++
                 [DispatchResourcesChanged (su_framework_id u) eid
                    (default res_zero (e_resources <$> Some e2))])%list s2).
    assert (Hf1 : s_frameworks s1 !! su_framework_id u = Some f1)
      by apply lookup_insert_eq.
    assert (He1 : f_executors f1 !! eid = Some e1) by apply lookup_insert_eq.
    assert (Hf2 : s_frameworks s2 !! su_framework_id u = Some f2)
      by apply lookup_insert_eq.
    assert (He2 : f_executors f2 !! eid = Some e2) by apply lookup_insert_eq.
    assert (Hstep : statusUpdate u s = forwardUpdate u (Some eid) s3).
    { unfold statusUpdate.
      rewrite (bindM_Some _ _ s (Some f) s) by (unfold getFramework, gets; by rewrite Hf).
      cbn beta iota. rewrite Hex.
      erewrite bindM_Some; [reflexivity|].
      erewrite bindM_Some; [|exact (modifyExecutor_run _ _ _ _ _ _ Hf He)].
      cbn beta. rewrite Hterm. cbn iota.
      erewrite bindM_Some.
      2:{ erewrite bindM_Some; [|exact (modifyExecutor_run _ _ _ _ _ _ Hf1 He1)].
          cbn beta.
          erewrite bindM_Some; [|exact (getExecutor_run _ _ _ _ _ Hf2 He2)].
          cbn beta. reflexivity. }
      cbn beta. reflexivity. }
    assert (Hl3 : lookupExecutor s3 (su_framework_id u) eid = Some e2).
    { unfold lookupExecutor.
      assert (E3 : s_frameworks s3 = s_frameworks s2) by reflexivity.
      rewrite E3, Hf2. exact He2. }
    destruct (forwardUpdate_run u eid s3 e2 Hl3) as [s4 [Hfw Hfr]].
    exists s4, e2. split; [rewrite Hstep; exact Hfw|].
    split; [unfold lookupExecutor; rewrite Hfr; exact Hl3|].
    split; [apply removeTask_launched|].
    unfold e2, e1. rewrite removeTask_updates. simpl.
    by rewrite updateTaskState_updates.
  - intros s fid tid uuid f eid e s' e' Hf Hex Hack Hl.
    pose proof (getExecutorByTask_lookup _ _ _ _ Hex) as He.
    unfold statusUpdateAcknowledgementDone in Hack.
    rewrite (bindM_Some _ _ s (Some f) s) in Hack
      by (unfold getFramework, gets; by rewrite Hf).
    cbn beta iota in Hack. rewrite Hex in Hack.
    rewrite (bindM_Some _ _ _ _ _ (modifyExecutor_run _ _ _ _ _ _ Hf He)) in Hack.
    cbn beta in Hack.
    pose proof (shrinks_cleanup _ _ _ _ _ fid eid e' Hack Hl) as H1.
    unfold lookupExecutor in H1. simpl in H1. rewrite lookup_insert_eq in H1.
    simpl in H1. rewrite lookup_insert_eq in H1. injection H1 as <-. reflexivity.
  - exact handleAll_pair.
Qed.

Lemma terminal_update_pending_until_ack_witness :
  (∃ f e s' e',
     s_frameworks scen_registered !! "F1" = Some f ∧
     getExecutorByTask f "T1" = Some ("T1", e) ∧
     statusUpdate scen_finished_update scen_registered = Some (tt, s') ∧
     lookupExecutor s' "F1" "T1" = Some e' ∧
     e_launched e' !! "T1" = None ∧
     e_updates e' = {[("T1", 100%N)]} ∪ e_updates e) ∧
  (∃ f e s' e',
     s_frameworks scen_task_finished !! "F1" = Some f ∧
     getExecutorByTask f "T1" = Some ("T1", e) ∧
     statusUpdateAcknowledgementDone AckReady "T1" "F1" 100 scen_task_finished
       = Some (tt, s') ∧
     lookupExecutor s' "F1" "T1" = Some e' ∧
     e_updates e' = e_updates e ∖ {[("T1", 100%N)]}) ∧
  (∃ s',
     handleAll [EvShutdownFramework None "F1";
                EvExecutorTerminated "F1" "T1" 0 false "exited"] scen_task_finished
       = Some s' ∧
     holdsPair scen_task_finished "F1" "T1" ("T1", 100%N) ∧
     (∀ ev, ev ∈ [EvShutdownFramework None "F1";
                  EvExecutorTerminated "F1" "T1" 0 false "exited"] →
        ev ≠ EvStatusUpdateAcknowledged AckReady "T1" "F1" 100) ∧
     (holdsPair s' "F1" "T1" ("T1", 100%N) ∨
      ∃ evs1 ev evs2 s1 s2,
        [EvShutdownFramework None "F1";
         EvExecutorTerminated "F1" "T1" 0 false "exited"] = (evs1 ++ ev :: evs2)%list ∧
        handleAll evs1 scen_task_finished = Some s1 ∧
        holdsPair s1 "F1" "T1" ("T1", 100%N) ∧ handle ev s1 = Some (tt, s2) ∧
        destroyedPending s2 "F1" "T1" ("T1", 100%N))).
Proof.
  split; [|split].
  - pose (f0 := default (newFramework "" scen_fi "")
                  (s_frameworks scen_registered !! "F1")).
    pose (e0 := default (newExecutor "" (mkExecutorInfo "" res_zero None "") 0 ("", "", 0%N) false)
                  (f_executors f0 !! "T1")).
    assert (Ef : s_frameworks scen_registered !! "F1" = Some f0) by (vm_compute; reflexivity).
    assert (Eg : getExecutorByTask f0 "T1" = Some ("T1", e0)) by (vm_compute; reflexivity).
    destruct (proj1 terminal_update_pending_until_ack scen_registered
                scen_finished_update f0 "T1" e0 Ef Eg eq_refl)
      as (s' & e' & H1 & H2 & H3 & H4).
    exists f0, e0, s', e'. split; [exact Ef|]. split; [exact Eg|].
    split; [exact H1|]. split; [exact H2|]. split; [exact H3|exact H4].
  - pose (f0 := default (newFramework "" scen_fi "")
                  (s_frameworks scen_task_finished !! "F1")).
    pose (e0 := default (newExecutor "" (mkExecutorInfo "" res_zero None "") 0 ("", "", 0%N) false)
                  (f_executors f0 !! "T1")).
    pose (s0 := match statusUpdateAcknowledgementDone AckReady "T1" "F1" 100
                        scen_task_finished with
                | Some (_, s) => s
                | None => scen_task_finished
                end).
    pose (e0' := default e0 (lookupExecutor s0 "F1" "T1")).
    assert (Ef : s_frameworks scen_task_finished !! "F1" = Some f0) by (vm_compute; reflexivity).
    assert (Eg : getExecutorByTask f0 "T1" = Some ("T1", e0)) by (vm_compute; reflexivity).
    assert (Ea : statusUpdateAcknowledgementDone AckReady "T1" "F1" 100 scen_task_finished
                   = Some (tt, s0)) by (vm_compute; reflexivity).
    assert (El : lookupExecutor s0 "F1" "T1" = Some e0') by (vm_compute; reflexivity).
    exists f0, e0, s0, e0'. split; [exact Ef|]. split; [exact Eg|].
    split; [exact Ea|]. split; [exact El|].
    exact (proj1 (proj2 terminal_update_pending_until_ack) scen_task_finished "F1" "T1"
             100%N f0 "T1" e0 s0 e0' Ef Eg Ea El).
  - pose (evs := [EvShutdownFramework None "F1";
                  EvExecutorTerminated "F1" "T1" 0 false "exited"]).
    pose (s0 := default scen_task_finished (handleAll evs scen_task_finished)).
    pose (e0 := default (newExecutor "" (mkExecutorInfo "" res_zero None "") 0 ("", "", 0%N) false)
                  (lookupExecutor scen_task_finished "F1" "T1")).
    assert (Eh : handleAll evs scen_task_finished = Some s0) by (vm_compute; reflexivity).
    assert (Hh : holdsPair scen_task_finished "F1" "T1" ("T1", 100%N)).
    { exists e0. split; [vm_compute; reflexivity|].
      apply (bool_decide_eq_true_1 (("T1", 100%N) ∈ e_updates e0)).
      vm_compute. reflexivity. }
    assert (Hev : ∀ ev, ev ∈ evs → ev ≠ EvStatusUpdateAcknowledged AckReady "T1" "F1" 100).
    { intros ev Hin. rewrite list_elem_of_In in Hin. simpl in Hin.
      destruct Hin as [<-|[<-|[]]]; discriminate. }
    exists s0. split; [exact Eh|]. split; [exact Hh|]. split; [exact Hev|].
    exact (proj2 (proj2 terminal_update_pending_until_ack) evs scen_task_finished s0
             "F1" "T1" "T1" 100%N Eh Hh Hev).
Defined.

(* ----------------------------------------------------------------- *)
(** ** Handling a status update *)

Lemma sameDomains_refl s : sameDomains s s.
Proof. split; intros; reflexivity. Qed.

Lemma sameDomains_trans s1 s2 s3 :
  sameDomains s1 s2 → sameDomains s2 s3 → sameDomains s1 s3.
Proof.
  intros [H1 H2] [H3 H4]. split; intros.
  - rewrite H3. apply H1.
  - rewrite H4. apply H2.
Qed.

Lemma sameDomains_frameworks s s' :
  s_frameworks s' = s_frameworks s → sameDomains s s'.
Proof. intros E. split; intros; unfold lookupExecutor; by rewrite E. Qed.

Lemma modifyExecutor_sameDomains fid eid g s a s' :
  modifyExecutor fid eid g s = Some (a, s') → sameDomains s s'.
Proof.
  unfold modifyExecutor, modifyFramework, modify. intros E. injection E as <- <-.
  split; intros fid'; simpl; [apply lookup_alter_is_Some|].
  intros eid'. unfold lookupExecutor. simpl.
  destruct (decide (fid' = fid)) as [->|Hne].
  - rewrite lookup_alter_eq.
    destruct (s_frameworks s !! fid) as [f|]; simpl; [|done].
    apply lookup_alter_is_Some.
  - by rewrite lookup_alter_ne by congruence.
Qed.

Lemma forwardUpdate_run_outbox u eid s e :
  lookupExecutor s (su_framework_id u) eid = Some e →
  ∃ s' c p, forwardUpdate u (Some eid) s = Some (tt, s') ∧
    s_frameworks s' = s_frameworks s ∧
    s_outbox s' = (s_outbox s ++ [UpdateManagerUpdate u c p])%list.
Proof.
  unfold lookupExecutor. intros H.
  destruct (s_frameworks s !! su_framework_id u) as [f|] eqn:Ef; [|discriminate].
  simpl in H. do 3 eexists. split.
  - unfold forwardUpdate, bindM, getExecutor, getFramework, gets, ret,
      modify_stats, emit, modify.
    rewrite Ef. simpl. rewrite H. reflexivity.
  - split; reflexivity.
Qed.

Lemma statusUpdate_run u s :
  ∃ s', statusUpdate u s = Some (tt, s') ∧ statusUpdate_outcome u s s'.
Proof.
  destruct (s_frameworks s !! su_framework_id u) as [f|] eqn:Ef.
  2:{ eexists. split.
      - unfold statusUpdate, forwardUpdate.
        cbv [bindM getFramework gets modify_stats modify emit ret].
        rewrite Ef. reflexivity.
      - exists [], false, None. split; [reflexivity|]. split; [constructor|].
        apply sameDomains_frameworks. reflexivity. }
  destruct (getExecutorByTask f (su_task_id u)) as [[eid e]|] eqn:Eg.
  2:{ eexists. split.
      - unfold statusUpdate, forwardUpdate.
        cbv [bindM getFramework gets modify_stats modify emit ret].
        rewrite Ef. cbv beta iota. rewrite Eg. reflexivity.
      - exists [], false, None. split; [reflexivity|]. split; [constructor|].
        apply sameDomains_frameworks. reflexivity. }
  pose proof (getExecutorByTask_lookup _ _ _ _ Eg) as He.
  set (e1 := putUpdate (su_task_id u) (su_uuid u)
               (updateTaskState (su_task_id u) (su_state u) e)).
  set (f1 := set_f_executors (<[eid := e1]> (f_executors f)) f).
  set (s1 := set_s_frameworks (<[su_framework_id u := f1]> (s_frameworks s)) s).
  assert (Hm1 : modifyExecutor (su_framework_id u) eid
                  (λ e, putUpdate (su_task_id u) (su_uuid u)
                          (updateTaskState (su_task_id u) (su_state u) e)) s
                = Some (tt, s1))
    by exact (modifyExecutor_run _ _ _ _ _ _ Ef He).
  assert (Hf1 : s_frameworks s1 !! su_framework_id u = Some f1)
    by apply lookup_insert_eq.
  assert (He1 : f_executors f1 !! eid = Some e1) by apply lookup_insert_eq.
  destruct (isTerminalState (su_state u)) eqn:Ht.
  - set (e2 := removeTask (su_task_id u) e1).
    set (f2 := set_f_executors (<[eid := e2]> (f_executors f1)) f1).
    set (s2 := set_s_frameworks (<[su_framework_id u := f2]> (s_frameworks s1)) s1).
    set (s3 := set_s_outbox (s_outbox s2 ++
                 [DispatchResourcesChanged (su_framework_id u) eid
                    (default res_zero (e_resources <$> Some e2))])%list s2).
    assert (Hm2 : modifyExecutor (su_framework_id u) eid (removeTask (su_task_id u)) s1
                  = Some (tt, s2))
      by exact (modifyExecutor_run _ _ _ _ _ _ Hf1 He1).
    assert (Hf2 : s_frameworks s2 !! su_framework_id u = Some f2)
      by apply lookup_insert_eq.
    assert (He2 : f_executors f2 !! eid = Some e2) by apply lookup_insert_eq.
    assert (Hstep : statusUpdate u s = forwardUpdate u (Some eid) s3).
    { unfold statusUpdate.
      rewrite (bindM_Some _ _ s (Some f) s) by (unfold getFramework, gets; by rewrite Ef).
      cbn beta iota. rewrite Eg.
      erewrite bindM_Some; [reflexivity|].
      erewrite bindM_Some; [|exact Hm1].
      cbn beta. rewrite Ht. cbn iota.
      erewrite bindM_Some.
      2:{ erewrite bindM_Some; [|exact Hm2].
          cbn beta.
          erewrite bindM_Some; [|exact (getExecutor_run _ _ _ _ _ Hf2 He2)].
          cbn beta. reflexivity. }
      cbn beta. reflexivity. }
    assert (Hl3 : lookupExecutor s3 (su_framework_id u) eid = Some e2).
    { unfold lookupExecutor.
      assert (E3 : s_frameworks s3 = s_frameworks s2) by reflexivity.
      rewrite E3, Hf2. exact He2. }
    destruct (forwardUpdate_run_outbox u eid s3 e2 Hl3) as (s4 & c & p & Hfw & Hfr & Ho).
    exists s4. split; [rewrite Hstep; exact Hfw|].
    exists [DispatchResourcesChanged (su_framework_id u) eid
              (default res_zero (e_resources <$> Some e2))], c, p.
    split; [rewrite Ho; simpl; by rewrite <- app_assoc|].
    split; [repeat constructor; eauto|].
    eapply sameDomains_trans; [exact (modifyExecutor_sameDomains _ _ _ _ _ _ Hm1)|].
    eapply sameDomains_trans; [exact (modifyExecutor_sameDomains _ _ _ _ _ _ Hm2)|].
    eapply sameDomains_trans; [apply (sameDomains_frameworks s2 s3); reflexivity|].
    apply sameDomains_frameworks. exact Hfr.
  - assert (Hstep : statusUpdate u s = forwardUpdate u (Some eid) s1).
    { unfold statusUpdate.
      rewrite (bindM_Some _ _ s (Some f) s) by (unfold getFramework, gets; by rewrite Ef).
      cbn beta iota. rewrite Eg.
      erewrite bindM_Some; [reflexivity|].
      erewrite bindM_Some; [|exact Hm1].
      cbn beta. rewrite Ht. cbn iota. reflexivity. }
    assert (Hl1 : lookupExecutor s1 (su_framework_id u) eid = Some e1).
    { unfold lookupExecutor. rewrite Hf1. exact He1. }
    destruct (forwardUpdate_run_outbox u eid s1 e1 Hl1) as (s4 & c & p & Hfw & Hfr & Ho).
    exists s4. split; [rewrite Hstep; exact Hfw|].
    exists [], c, p.
    split; [rewrite Ho; reflexivity|].
    split; [constructor|].
    eapply sameDomains_trans; [exact (modifyExecutor_sameDomains _ _ _ _ _ _ Hm1)|].
    apply sameDomains_frameworks. exact Hfr.
Qed.

(* ----------------------------------------------------------------- *)
(** ** C9: a checkpointing framework on a slave without checkpointing *)

(** C9: when [runTask] is asked to place a task of a framework that expects
    checkpointing on a slave started without it, it handles exactly one status
    update of its own: TASK_LOST for the task, with the message about
    checkpointing and a fresh uuid.  Apart from the [resourcesChanged] dispatch
    [statusUpdate] may send, nothing else is sent (no executor is launched),
    and no framework or executor is created. *)
Theorem checkpoint_mismatch_task_lost fi fid pid task s :
  fi_checkpoint fi = true → fl_checkpoint (s_flags s) = false →
  ∃ s', runTask fi fid pid task s = Some (tt, s') ∧
    statusUpdate_outcome
      (mkStatusUpdate fid (s_id s) None (ti_task_id task) TASK_LOST
         ("Could not launch the task because the framework expects " +:+
          "checkpointing, but checkpointing is disabled on the slave")
         (s_next_uuid s))
      s s'.
Proof.
  intros Hfi Hfl. unfold runTask.
  rewrite (bindM_Some _ _ s (s_id s) s) by reflexivity. cbn beta.
  rewrite (bindM_Some _ _ s (s_flags s) s) by reflexivity. cbn beta.
  rewrite Hfi, Hfl. cbn [andb negb].
  rewrite (bindM_Some _ _ s _ (set_s_next_uuid (N.succ (s_next_uuid s)) s))
    by reflexivity.
  cbn beta.
  match goal with
  | |- context [statusUpdate ?u ?s1] =>
      destruct (statusUpdate_run u s1) as (s' & Hrun & pre & c & p & Ho & Hpre & Hd)
  end.
  exists s'. split; [exact Hrun|].
  exists pre, c, p. split; [exact Ho|]. split; [exact Hpre|].
  eapply sameDomains_trans; [|exact Hd].
  apply sameDomains_frameworks. reflexivity.
Qed.

Lemma checkpoint_mismatch_task_lost_witness :
  ∃ s', runTask (mkFrameworkInfo "fw" true) "F1" "sched@1" scen_cmd_task scen_init
          = Some (tt, s') ∧
    statusUpdate_outcome
      (mkStatusUpdate "F1" "S1" None "T1" TASK_LOST
         ("Could not launch the task because the framework expects " +:+
          "checkpointing, but checkpointing is disabled on the slave") 0)
      scen_init s'.
Proof.
  apply (checkpoint_mismatch_task_lost (mkFrameworkInfo "fw" true) "F1" "sched@1"
           scen_cmd_task scen_init); reflexivity.
Defined.

(* ----------------------------------------------------------------- *)
(** ** C10: killing a task *)

Lemma fresh_statusUpdate_run fid sid tid st msg eo s :
  ∃ s', (update <- createStatusUpdate fid sid tid st msg eo ;; statusUpdate update) s
          = Some (tt, s') ∧
    statusUpdate_outcome (mkStatusUpdate fid sid eo tid st msg (s_next_uuid s)) s s'.
Proof.
  rewrite (bindM_Some _ _ s _ (set_s_next_uuid (N.succ (s_next_uuid s)) s))
    by reflexivity.
  cbn beta.
  match goal with
  | |- context [statusUpdate ?u ?s1] =>
      destruct (statusUpdate_run u s1) as (s' & Hrun & pre & c & p & Ho & Hpre & Hd)
  end.
  exists s'. split; [exact Hrun|].
  exists pre, c, p. split; [exact Ho|]. split; [exact Hpre|].
  eapply sameDomains_trans; [|exact Hd].
  apply sameDomains_frameworks. reflexivity.
Qed.

(** C10: [killTask] for a task of an unknown framework, or of a framework
    none of whose executors has the task, handles one TASK_LOST update of its
    own; for a task whose executor is still REGISTERING it handles one
    TASK_KILLED update "Unregistered executor" (and sends nothing to the
    executor: only [resourcesChanged] dispatches and the update go out); for
    an executor past REGISTERING it only sends a kill message for the task to
    the executor's pid. *)
Theorem killTask_cases fid tid s :
  (s_frameworks s !! fid = None →
   ∃ s', killTask fid tid s = Some (tt, s') ∧
     statusUpdate_outcome (mkStatusUpdate fid (s_id s) None tid TASK_LOST
                             "Cannot find framework" (s_next_uuid s)) s s') ∧
  (∀ f, s_frameworks s !! fid = Some f → getExecutorByTask f tid = None →
   ∃ s', killTask fid tid s = Some (tt, s') ∧
     statusUpdate_outcome (mkStatusUpdate fid (s_id s) None tid TASK_LOST
                             "Cannot find executor" (s_next_uuid s)) s s') ∧
  (∀ f eid e, s_frameworks s !! fid = Some f →
   getExecutorByTask f tid = Some (eid, e) → e_state e = REGISTERING →
   ∃ s', killTask fid tid s = Some (tt, s') ∧
     statusUpdate_outcome (mkStatusUpdate fid (s_id s) (Some (e_id e)) tid TASK_KILLED
                             "Unregistered executor" (s_next_uuid s)) s s') ∧
  (∀ f eid e, s_frameworks s !! fid = Some f →
   getExecutorByTask f tid = Some (eid, e) → e_state e ≠ REGISTERING →
   killTask fid tid s =
     Some (tt, set_s_outbox (s_outbox s ++ [SendKillTask (e_pid e) fid tid])%list s)).
Proof.
  assert (Hk : killTask fid tid s =
     match s_frameworks s !! fid with
     | None =>
         (update <- createStatusUpdate fid (s_id s) tid TASK_LOST
            "Cannot find framework" None ;; statusUpdate update) s
     | Some f =>
         match getExecutorByTask f tid with
         | None =>
             (update <- createStatusUpdate fid (s_id s) tid TASK_LOST
                "Cannot find executor" None ;; statusUpdate update) s
         | Some (_, e) =>
             if bool_decide (e_state e = REGISTERING) then
               (update <- createStatusUpdate fid (s_id s) tid TASK_KILLED
                  "Unregistered executor" (Some (e_id e)) ;; statusUpdate update) s
             else emit (SendKillTask (e_pid e) fid tid) s
         end
     end).
  { unfold killTask.
    rewrite (bindM_Some _ _ s (s_id s) s) by reflexivity. cbn beta.
    rewrite (bindM_Some _ _ s (s_frameworks s !! fid) s) by reflexivity. cbn beta.
    destruct (s_frameworks s !! fid) as [f|]; [|reflexivity].
    destruct (getExecutorByTask f tid) as [[eid e]|]; [|reflexivity].
    by destruct (bool_decide (e_state e = REGISTERING)). }
  split; [|split; [|split]].
  - intros Ef. rewrite Hk, Ef. apply fresh_statusUpdate_run.
  - intros f Ef Eg. rewrite Hk, Ef, Eg. apply fresh_statusUpdate_run.
  - intros f eid e Ef Eg Hst. rewrite Hk, Ef, Eg, bool_decide_true by exact Hst.
    apply fresh_statusUpdate_run.
  - intros f eid e Ef Eg Hst. rewrite Hk, Ef, Eg, bool_decide_false by exact Hst.
    reflexivity.
Qed.

Lemma killTask_cases_witness :
  (s_frameworks scen_init !! "F1" = None ∧
   ∃ s', killTask "F1" "T1" scen_init = Some (tt, s') ∧
     statusUpdate_outcome (mkStatusUpdate "F1" "S1" None "T1" TASK_LOST
                             "Cannot find framework" 0) scen_init s') ∧
  (∃ f, s_frameworks scen_launched !! "F1" = Some f ∧
     getExecutorByTask f "T9" = None ∧
     ∃ s', killTask "F1" "T9" scen_launched = Some (tt, s') ∧
       statusUpdate_outcome (mkStatusUpdate "F1" "S1" None "T9" TASK_LOST
         "Cannot find executor" (s_next_uuid scen_launched)) scen_launched s') ∧
  (∃ f e, s_frameworks scen_launched !! "F1" = Some f ∧
     getExecutorByTask f "T1" = Some ("T1", e) ∧ e_state e = REGISTERING ∧
     ∃ s', killTask "F1" "T1" scen_launched = Some (tt, s') ∧
       statusUpdate_outcome (mkStatusUpdate "F1" "S1" (Some (e_id e)) "T1" TASK_KILLED
         "Unregistered executor" (s_next_uuid scen_launched)) scen_launched s') ∧
  (∃ f e, s_frameworks scen_registered !! "F1" = Some f ∧
     getExecutorByTask f "T1" = Some ("T1", e) ∧ e_state e ≠ REGISTERING ∧
     killTask "F1" "T1" scen_registered =
       Some (tt, set_s_outbox (s_outbox scen_registered ++
                               [SendKillTask (e_pid e) "F1" "T1"])%list scen_registered)).
Proof.
  split; [|split; [|split]].
  - assert (Ef : s_frameworks scen_init !! "F1" = None) by reflexivity.
    split; [exact Ef|].
    exact (proj1 (killTask_cases "F1" "T1" scen_init) Ef).
  - pose (f0 := default (newFramework "" scen_fi "")
                  (s_frameworks scen_launched !! "F1")).
    assert (Ef : s_frameworks scen_launched !! "F1" = Some f0) by (vm_compute; reflexivity).
    assert (Eg : getExecutorByTask f0 "T9" = None) by (vm_compute; reflexivity).
    exists f0. split; [exact Ef|]. split; [exact Eg|].
    exact (proj1 (proj2 (killTask_cases "F1" "T9" scen_launched)) f0 Ef Eg).
  - pose (f0 := default (newFramework "" scen_fi "")
                  (s_frameworks scen_launched !! "F1")).
    pose (e0 := default (newExecutor "" (mkExecutorInfo "" res_zero None "") 0 ("", "", 0%N) false)
                  (f_executors f0 !! "T1")).
    assert (Ef : s_frameworks scen_launched !! "F1" = Some f0) by (vm_compute; reflexivity).
    assert (Eg : getExecutorByTask f0 "T1" = Some ("T1", e0)) by (vm_compute; reflexivity).
    assert (Hst : e_state e0 = REGISTERING) by (vm_compute; reflexivity).
    exists f0, e0. split; [exact Ef|]. split; [exact Eg|]. split; [exact Hst|].
    exact (proj1 (proj2 (proj2 (killTask_cases "F1" "T1" scen_launched)))
             f0 "T1" e0 Ef Eg Hst).
  - pose (f0 := default (newFramework "" scen_fi "")
                  (s_frameworks scen_registered !! "F1")).
    pose (e0 := default (newExecutor "" (mkExecutorInfo "" res_zero None "") 0 ("", "", 0%N) false)
                  (f_executors f0 !! "T1")).
    assert (Ef : s_frameworks scen_registered !! "F1" = Some f0) by (vm_compute; reflexivity).
    assert (Eg : getExecutorByTask f0 "T1" = Some ("T1", e0)) by (vm_compute; reflexivity).
    assert (Hst : e_state e0 ≠ REGISTERING) by (vm_compute; discriminate).
    exists f0, e0. split; [exact Ef|]. split; [exact Eg|]. split; [exact Hst|].
    exact (proj2 (proj2 (proj2 (killTask_cases "F1" "T1" scen_registered)))
             f0 "T1" e0 Ef Eg Hst).
Defined.

(* ================================================================= *)
(** ** The master's read-only handlers *)

Module MasterFacts.
Import Master.

Lemma field_EMPTY st : field st EMPTY = 0.
Proof. destruct st; reflexivity. Qed.

Lemma field_incr_staging st s :
  field st (incr_staging s) = field st s + (if decide (st = TASK_STAGING) then 1 else 0).
Proof. destruct s; destruct st; simpl; try case_decide; try congruence; lia. Qed.

Lemma summariesTotal_updateAt st k g m :
  summariesTotal st (updateAt EMPTY k g m) + field st (default EMPTY (m !! k)) =
  summariesTotal st m + field st (g (default EMPTY (m !! k))).
Proof.
  unfold updateAt, summariesTotal.
  destruct (m !! k) as [v|] eqn:E; simpl.
  - rewrite <- insert_delete_eq.
    rewrite map_fold_insert_L; [| intros; lia | apply lookup_delete_eq].
    rewrite (map_fold_delete_L _ _ k v m); [lia | intros; lia | exact E].
  - rewrite map_fold_insert_L; [| intros; lia | exact E].
    rewrite field_EMPTY. lia.
Qed.

Lemma foldl_additive {A B} (F : B → nat) (f : B → A → B) (δ : A → nat) l acc :
  (∀ b x, F (f b x) = F b + δ x) →
  F (foldl f acc l) = F acc + sum_list_with δ l.
Proof.
  intros Hf. revert acc; induction l as [|x l IH]; intros acc; simpl; [lia|].
  rewrite IH, Hf. lia.
Qed.

Lemma sum_list_with_indicator st (l : list Task) :
  sum_list_with (λ task, if decide (state task = st) then 1 else 0) l =
  length (filter (λ task, state task = st) l).
Proof.
  induction l as [|t l IH]; simpl; [reflexivity|].
  rewrite filter_cons. case_decide; simpl; lia.
Qed.

Lemma sum_list_with_const {A} (c : nat) (l : list A) :
  sum_list_with (λ _, c) l = c * length l.
Proof. induction l; simpl; lia. Qed.

Lemma count_field task s st :
  field st (count task s) = field st s + (if decide (state task = st) then 1 else 0).
Proof.
  destruct s, task as [? [] ? ?]; destruct st; simpl; try case_decide; try congruence; lia.
Qed.

(** [TaskStateSummary::count] adds one to the counter of the task's state
    and leaves the thirteen other counters unchanged. *)
Theorem TaskStateSummary_count (task : Task) (s : TaskStateSummary) (st : TaskState) :
  field st (count task s) = field st s + (if decide (state task = st) then 1 else 0).
Proof. apply count_field. Qed.

Lemma summariesTotal_count st k task m :
  summariesTotal st (updateAt EMPTY k (count task) m) =
  summariesTotal st m + (if decide (state task = st) then 1 else 0).
Proof.
  pose proof (summariesTotal_updateAt st k (count task) m) as H.
  rewrite count_field in H. lia.
Qed.

Lemma summariesTotal_incr st k m :
  summariesTotal st (updateAt EMPTY k incr_staging m) =
  summariesTotal st m + (if decide (st = TASK_STAGING) then 1 else 0).
Proof.
  pose proof (summariesTotal_updateAt st k incr_staging m) as H.
  rewrite field_incr_staging in H. lia.
Qed.

Lemma summariesOfFramework_totals st fid fw acc :
  summariesTotal st (frameworkTaskSummaries (summariesOfFramework fid fw acc)) =
    summariesTotal st (frameworkTaskSummaries acc) + frameworkTasksIn st fw ∧
  summariesTotal st (slaveTaskSummaries (summariesOfFramework fid fw acc)) =
    summariesTotal st (slaveTaskSummaries acc) + frameworkTasksIn st fw.
Proof.
  unfold summariesOfFramework, frameworkTasksIn. cbv zeta.
  rewrite !filter_app, !length_app, <- !sum_list_with_indicator.
  split.
  - rewrite !(foldl_additive (λ m, summariesTotal st (frameworkTaskSummaries m)) _
               (λ task, if decide (state task = st) then 1 else 0))
      by (intros; simpl; apply summariesTotal_count).
    rewrite (foldl_additive (λ m, summariesTotal st (frameworkTaskSummaries m)) _
               (λ _, if decide (st = TASK_STAGING) then 1 else 0))
      by (intros; simpl; apply summariesTotal_incr).
    rewrite sum_list_with_const. case_decide; lia.
  - rewrite !(foldl_additive (λ m, summariesTotal st (slaveTaskSummaries m)) _
               (λ task, if decide (state task = st) then 1 else 0))
      by (intros; simpl; apply summariesTotal_count).
    rewrite (foldl_additive (λ m, summariesTotal st (slaveTaskSummaries m)) _
               (λ _, if decide (st = TASK_STAGING) then 1 else 0))
      by (intros; simpl; apply summariesTotal_incr).
    rewrite sum_list_with_const. case_decide; lia.
Qed.

(** For every state, the column of the framework summaries and the column of
    the agent summaries of [/state-summary] both add up to the number of
    tasks of all frameworks in that state, the pending tasks counted as
    staging. *)
Theorem taskStateSummaries_totals frameworks st :
  summariesTotal st (frameworkTaskSummaries (taskStateSummaries frameworks)) =
    map_fold (λ _ framework n, frameworkTasksIn st framework + n) 0 frameworks ∧
  summariesTotal st (slaveTaskSummaries (taskStateSummaries frameworks)) =
    map_fold (λ _ framework n, frameworkTasksIn st framework + n) 0 frameworks.
Proof.
  unfold taskStateSummaries. rewrite map_fold_foldr.
  assert (Hgen : ∀ L acc,
    summariesTotal st (frameworkTaskSummaries
      (foldl (λ acc '(frameworkId, framework), summariesOfFramework frameworkId framework acc) acc L)) =
      summariesTotal st (frameworkTaskSummaries acc) +
      foldr (uncurry (λ _ framework n, frameworkTasksIn st framework + n)) 0 L ∧
    summariesTotal st (slaveTaskSummaries
      (foldl (λ acc '(frameworkId, framework), summariesOfFramework frameworkId framework acc) acc L)) =
      summariesTotal st (slaveTaskSummaries acc) +
      foldr (uncurry (λ _ framework n, frameworkTasksIn st framework + n)) 0 L).
  { induction L as [|[fid fw] L IH]; intros acc; simpl; [lia|].
    destruct (IH (summariesOfFramework fid fw acc)) as [IH1 IH2].
    destruct (summariesOfFramework_totals st fid fw acc) as [E1 E2].
    split; lia. }
  destruct (Hgen (map_to_list frameworks) (mkSummaries ∅ ∅)) as [H1 H2].
  rewrite H1, H2. unfold summariesTotal. simpl. rewrite map_fold_empty. lia.
Qed.
Lemma slavesOfFramework_link f sl m fid sid :
  sid ∈ slavesOfFramework (link f sl m) fid ↔
  (fid = f ∧ sid = sl) ∨ sid ∈ slavesOfFramework m fid.
Proof.
  unfold slavesOfFramework, link, updateAt; simpl.
  destruct (decide (fid = f)) as [->|Hne].
  - rewrite lookup_insert_eq; simpl. set_solver.
  - rewrite lookup_insert_ne by congruence. naive_solver.
Qed.

Lemma frameworksOfSlave_link f sl m fid sid :
  fid ∈ frameworksOfSlave (link f sl m) sid ↔
  (fid = f ∧ sid = sl) ∨ fid ∈ frameworksOfSlave m sid.
Proof.
  unfold frameworksOfSlave, link, updateAt; simpl.
  destruct (decide (sid = sl)) as [->|Hne].
  - rewrite lookup_insert_eq; simpl. set_solver.
  - rewrite lookup_insert_ne by congruence. naive_solver.
Qed.

Lemma foldl_link {A} (g : A → string) f l acc fid sid :
  (sid ∈ slavesOfFramework (foldl (λ m x, link f (g x) m) acc l) fid ↔
     (fid = f ∧ sid ∈ map g l) ∨ sid ∈ slavesOfFramework acc fid) ∧
  (fid ∈ frameworksOfSlave (foldl (λ m x, link f (g x) m) acc l) sid ↔
     (fid = f ∧ sid ∈ map g l) ∨ fid ∈ frameworksOfSlave acc sid).
Proof.
  revert acc; induction l as [|x l IH]; intros acc; simpl.
  - set_solver.
  - destruct (IH (link f (g x) acc)) as [IH1 IH2].
    rewrite IH1, IH2, slavesOfFramework_link, frameworksOfSlave_link, elem_of_cons.
    naive_solver.
Qed.

Lemma mappingOfFramework_spec f fw acc fid sid :
  (sid ∈ slavesOfFramework (mappingOfFramework f fw acc) fid ↔
     (fid = f ∧ sid ∈ frameworkSlaves fw) ∨ sid ∈ slavesOfFramework acc fid) ∧
  (fid ∈ frameworksOfSlave (mappingOfFramework f fw acc) sid ↔
     (fid = f ∧ sid ∈ frameworkSlaves fw) ∨ fid ∈ frameworksOfSlave acc sid).
Proof.
  unfold mappingOfFramework, frameworkSlaves. cbv zeta.
  rewrite !map_app, !elem_of_app.
  destruct (foldl_link slave_id f (completedTasks fw)
    (foldl (λ m x, link f (slave_id x) m)
       (foldl (λ m x, link f (slave_id x) m)
          (foldl (λ m x, link f (ti_slave_id x) m) acc (pendingTasks fw))
          (tasks fw)) (unreachableTasks fw)) fid sid) as [A1 A2].
  destruct (foldl_link slave_id f (unreachableTasks fw)
       (foldl (λ m x, link f (slave_id x) m)
          (foldl (λ m x, link f (ti_slave_id x) m) acc (pendingTasks fw))
          (tasks fw)) fid sid) as [B1 B2].
  destruct (foldl_link slave_id f (tasks fw)
          (foldl (λ m x, link f (ti_slave_id x) m) acc (pendingTasks fw)) fid sid)
    as [C1 C2].
  destruct (foldl_link ti_slave_id f (pendingTasks fw) acc fid sid) as [D1 D2].
  rewrite A1, A2, B1, B2, C1, C2, D1, D2. naive_solver.
Qed.

(** The mapping of [/state-summary] is symmetric and exact: an agent is
    listed for a framework, and the framework for the agent, exactly when
    one of the framework's pending, active, unreachable or completed tasks
    is on that agent; in particular an agent or framework without tasks gets
    the empty set. *)
Theorem slaveFrameworkMapping_spec frameworks frameworkId slaveId :
  (slaveId ∈ slavesOfFramework (slaveFrameworkMapping frameworks) frameworkId ↔
     ∃ framework, frameworks !! frameworkId = Some framework ∧
                  slaveId ∈ frameworkSlaves framework) ∧
  (frameworkId ∈ frameworksOfSlave (slaveFrameworkMapping frameworks) slaveId ↔
     ∃ framework, frameworks !! frameworkId = Some framework ∧
                  slaveId ∈ frameworkSlaves framework).
Proof.
  unfold slaveFrameworkMapping.
  assert (Hgen : ∀ L acc,
    (slaveId ∈ slavesOfFramework (foldl (λ acc '(frameworkId, framework),
        mappingOfFramework frameworkId framework acc) acc L) frameworkId ↔
      (∃ framework, (frameworkId, framework) ∈ L ∧ slaveId ∈ frameworkSlaves framework) ∨
      slaveId ∈ slavesOfFramework acc frameworkId) ∧
    (frameworkId ∈ frameworksOfSlave (foldl (λ acc '(frameworkId, framework),
        mappingOfFramework frameworkId framework acc) acc L) slaveId ↔
      (∃ framework, (frameworkId, framework) ∈ L ∧ slaveId ∈ frameworkSlaves framework) ∨
      frameworkId ∈ frameworksOfSlave acc slaveId)).
  { induction L as [|[f fw] L IH]; intros acc; simpl.
    - split; (split; [tauto|]); intros [[? [Hin _]]|H]; [apply elem_of_nil in Hin; done|exact H|
        apply elem_of_nil in Hin; done|exact H].
    - destruct (IH (mappingOfFramework f fw acc)) as [IH1 IH2].
      destruct (mappingOfFramework_spec f fw acc frameworkId slaveId) as [M1 M2].
      rewrite IH1, IH2, M1, M2.
      setoid_rewrite elem_of_cons. split; split; intros H.
      all: repeat match goal with
             | H : _ ∨ _ |- _ => destruct H
             | H : _ ∧ _ |- _ => destruct H
             | H : ∃ _, _ |- _ => destruct H
             end; simplify_eq; eauto 10. }
  destruct (Hgen (map_to_list frameworks) (mkMapping ∅ ∅)) as [H1 H2].
  rewrite H1, H2. setoid_rewrite elem_of_map_to_list.
  unfold slavesOfFramework, frameworksOfSlave; simpl.
  rewrite !lookup_empty; simpl. set_solver.
Qed.
(** [descending] is [ascending] with its arguments swapped; a task without
    any status comes before every task with one in ascending order (after
    them in descending order), and two tasks without status are equivalent. *)
Theorem TaskComparator_order (a b : Task) :
  descending a b = ascending b a ∧
  (statuses a = [] → statuses b ≠ [] → ascending a b = true ∧ descending b a = true) ∧
  (statuses a = [] → statuses b = [] → ascending a b = false ∧ descending a b = false).
Proof.
  unfold ascending, descending.
  split; [destruct (statuses a), (statuses b); reflexivity|].
  split; intros Ha Hb; rewrite Ha; [destruct (statuses b); [congruence|]|rewrite Hb]; done.
Qed.
Section Paging.
Local Open Scope Z_scope.

Lemma omap_lookup_seqZ {A} (l : list A) (o : Z) (n : nat) :
  (0 ≤ o)%Z → (o + Z.of_nat n ≤ Z.of_nat (length l))%Z →
  omap (λ i, l !! Z.to_nat i) (seqZ o (Z.of_nat n)) = take n (drop (Z.to_nat o) l).
Proof.
  revert o; induction n as [|n IH]; intros o Ho Hn.
  - rewrite seqZ_nil by lia. reflexivity.
  - rewrite seqZ_cons by lia.
    destruct (lookup_lt_is_Some_2 l (Z.to_nat o)) as [x Hx]; [lia|].
    simpl. rewrite Hx.
    rewrite (drop_S l x (Z.to_nat o) Hx). simpl. f_equal.
    replace (Z.pred (Z.of_nat (S n))) with (Z.of_nat n) by lia.
    rewrite IH by lia. f_equal. f_equal. lia.
Qed.

Lemma tasksPage_slice_raw {A} (limit offset : Z) (l : list A) :
  (0 ≤ offset)%Z → (0 ≤ limit)%Z → (offset + limit < 2^64)%Z →
  tasksPage limit offset l = take (Z.to_nat limit) (drop (Z.to_nat offset) l).
Proof.
  intros Ho Hl Hw. unfold tasksPage.
  rewrite (Z.mod_small (offset + limit)) by lia.
  destruct (Z_lt_le_dec offset (Z.of_nat (length l))) as [Hlt|Hge].
  - set (k := Z.min (offset + limit) (Z.of_nat (length l)) - offset).
    replace k with (Z.of_nat (Z.to_nat k)) by lia.
    rewrite omap_lookup_seqZ by lia.
    destruct (Z_le_gt_dec (offset + limit) (Z.of_nat (length l))).
    + f_equal. lia.
    + rewrite !take_ge; [reflexivity| |]; rewrite length_drop; lia.
  - rewrite seqZ_nil by lia. rewrite drop_ge by lia. rewrite take_nil. reflexivity.
Qed.

Lemma tasksPage_wrap {A} (limit offset : Z) (l : list A) :
  (0 ≤ offset < 2^64)%Z → (0 ≤ limit < 2^64)%Z → (2^64 ≤ offset + limit)%Z →
  tasksPage limit offset l = [].
Proof.
  intros Ho Hl Hw. unfold tasksPage.
  rewrite <- (Z.mod_unique (offset + limit) (2^64) 1 (offset + limit - 2^64)) by lia.
  rewrite seqZ_nil by lia. reflexivity.
Qed.

Lemma listOption_range r d :
  (0 ≤ d < 2^64)%Z → (0 ≤ listOption r d < 2^64)%Z.
Proof.
  intros Hd. destruct r as [x|]; simpl; [|exact Hd].
  unfold size_t_of_int. apply Z.mod_pos_bound. lia.
Qed.

(** When [offset + limit] does not overflow [size_t], the page of
    [/tasks] is the [limit] tasks from position [offset] (fewer at the end,
    none past it). *)
Theorem tasksPage_slice {A} (limit offset : Z) (tasks : list A) :
  (0 ≤ offset)%Z → (0 ≤ limit)%Z → (offset + limit < 2^64)%Z →
  tasksPage limit offset tasks = take (Z.to_nat limit) (drop (Z.to_nat offset) tasks).
Proof. apply tasksPage_slice_raw. Qed.

(** A negative [limit=-k] is converted to [2^64 - k]: the page holds every
    task from [offset] on when [offset < k], and none otherwise, since
    [offset + limit] wraps around. *)
Theorem tasksOfQuery_negative_limit {A} (TASK_LIMIT k offset : Z) (tasks : list A) :
  (0 < k ≤ 2^31)%Z → (0 ≤ offset < 2^31)%Z → (Z.of_nat (length tasks) < 2^63)%Z →
  tasksOfQuery TASK_LIMIT (Some (- k)%Z) (Some offset) tasks =
    if decide (offset < k)%Z then drop (Z.to_nat offset) tasks else [].
Proof.
  intros Hk Ho Hn. unfold tasksOfQuery, listOption, size_t_of_int.
  rewrite <- (Z.mod_unique (- k) (2^64) (-1) (2^64 - k)) by lia.
  rewrite (Z.mod_small offset) by lia.
  case_decide.
  - rewrite tasksPage_slice_raw by lia.
    rewrite take_ge; [reflexivity|]. rewrite length_drop. lia.
  - apply tasksPage_wrap; lia.
Qed.

(** A negative [offset] always gives an empty page, whatever the limit. *)
Theorem tasksOfQuery_negative_offset {A} (TASK_LIMIT k : Z) (limit : option Z)
    (tasks : list A) :
  (0 < k ≤ 2^31)%Z → (0 ≤ TASK_LIMIT < 2^64)%Z → (Z.of_nat (length tasks) < 2^63)%Z →
  tasksOfQuery TASK_LIMIT limit (Some (- k)%Z) tasks = [].
Proof.
  intros Hk HT Hn. unfold tasksOfQuery.
  pose proof (listOption_range limit TASK_LIMIT HT) as HL.
  change (listOption (Some (-k)) 0) with (size_t_of_int (-k)). unfold size_t_of_int.
  rewrite <- (Z.mod_unique (- k) (2^64) (-1) (2^64 - k)) by lia.
  destruct (Z_lt_le_dec (2^64 - k + listOption limit TASK_LIMIT) (2^64)).
  - rewrite tasksPage_slice_raw by lia. rewrite drop_ge by lia. apply take_nil.
  - apply tasksPage_wrap; lia.
Qed.
End Paging.

Lemma map_lookup_list {A B} (f : A → B) (l : list A) i :
  map f l !! i = f <$> l !! i.
Proof.
  revert i. induction l as [|x l IH]; intros [|i]; simpl; auto.
Qed.

Lemma executorsField_entries {ExecutorInfo : Type}
    (approvedExecutor : ExecutorInfo → bool)
    (jsonExecutor : ExecutorInfo → list (string * Json))
    (executors : list (string * list ExecutorInfo)) :
  executorsField approvedExecutor jsonExecutor executors =
  JArray (map (λ '(slaveId, executor),
    JObject (if approvedExecutor executor
             then (jsonExecutor executor ++ [("slave_id", JString slaveId)])%list
             else [])) (executorEntries executors)).
Proof.
  unfold executorsField, executorEntries. f_equal.
  induction executors as [|[slaveId es] executors IH]; simpl; [done|].
  rewrite map_app, IH, map_map. reflexivity.
Qed.

(** In a framework's [/state] object, the [executors] array has one element
    per executor, in the order of [framework_->executors]: an unauthorized
    executor is written as the empty object [{}], an authorized one as its
    fields and its agent id, never [{}].  The [tasks] array holds exactly the
    authorized pending tasks, in order, then the authorized tasks, in order. *)
Theorem FullFrameworkWriter_executors_tasks {ExecutorInfo : Type}
    (approvedExecutor : ExecutorInfo → bool)
    (jsonExecutor : ExecutorInfo → list (string * Json))
    (approvedTaskInfo : TaskInfo → bool) (approvedTask : Task → bool)
    (jsonPending : TaskInfo → list (string * Json)) (jsonTask : Task → list (string * Json))
    (executors : list (string * list ExecutorInfo)) (framework : Framework) :
  (∃ elements,
     executorsField approvedExecutor jsonExecutor executors = JArray elements ∧
     length elements = length (executorEntries executors) ∧
     ∀ i slaveId executor,
       executorEntries executors !! i = Some (slaveId, executor) →
       ∃ j, elements !! i = Some j ∧
         j = (if approvedExecutor executor
              then JObject (jsonExecutor executor ++ [("slave_id", JString slaveId)])%list
              else JObject []) ∧
         isEmptyObject j = negb (approvedExecutor executor)) ∧
  (∃ elements,
     tasksField approvedTaskInfo approvedTask jsonPending jsonTask framework = JArray elements ∧
     length elements =
       length (filter approvedTaskInfo (pendingTasks framework)) +
       length (filter approvedTask (tasks framework)) ∧
     (∀ i taskInfo, filter approvedTaskInfo (pendingTasks framework) !! i = Some taskInfo →
        elements !! i = Some (JObject (jsonPending taskInfo))) ∧
     (∀ i task, filter approvedTask (tasks framework) !! i = Some task →
        elements !! (length (filter approvedTaskInfo (pendingTasks framework)) + i)
          = Some (JObject (jsonTask task))) ∧
     ∀ j, j ∈ elements ↔
       (∃ taskInfo, taskInfo ∈ pendingTasks framework ∧
          approvedTaskInfo taskInfo = true ∧ j = JObject (jsonPending taskInfo)) ∨
       (∃ task, task ∈ tasks framework ∧
          approvedTask task = true ∧ j = JObject (jsonTask task))).
Proof.
  split.
  - rewrite executorsField_entries. eexists. split; [reflexivity|].
    split; [apply length_map|].
    intros i slaveId executor Hi. rewrite map_lookup_list, Hi. simpl.
    eexists. split; [reflexivity|].
    destruct (approvedExecutor executor); split; try reflexivity.
    simpl. by destruct (jsonExecutor executor).
  - eexists. split; [reflexivity|].
    split; [rewrite length_app, !length_map; reflexivity|].
    split; [|split].
    + intros i taskInfo Hi. rewrite lookup_app_l.
      * by rewrite map_lookup_list, Hi.
      * rewrite length_map. eapply lookup_lt_Some. exact Hi.
    + intros i task Hi.
      rewrite lookup_app_r by (rewrite length_map; lia).
      rewrite length_map, Nat.add_comm, Nat.add_sub. by rewrite map_lookup_list, Hi.
    + intros j. rewrite elem_of_app. split.
      * intros [Hj|Hj]; apply list_elem_of_In, in_map_iff in Hj as [x [<- Hx]];
          apply list_elem_of_In, list_elem_of_filter in Hx as [Hp Hx]; [left|right];
          exists x; (split; [exact Hx|split; [exact (Is_true_true_1 _ Hp)|reflexivity]]).
      * intros [(x & Hx & Hp & ->)|(x & Hx & Hp & ->)]; [left|right];
          apply list_elem_of_In, in_map_iff; exists x; (split; [reflexivity|]);
          apply list_elem_of_In, list_elem_of_filter;
          (split; [apply Is_true_true_2, Hp|exact Hx]).
Qed.
Lemma TaskComparator_order_witness :
  ascending (mkTask "t1" TASK_STAGING "s1" []) (mkTask "t2" TASK_RUNNING "s1" [1.5%float])
    = true ∧
  descending (mkTask "t2" TASK_RUNNING "s1" [1.5%float]) (mkTask "t1" TASK_STAGING "s1" [])
    = true.
Proof.
  destruct (TaskComparator_order (mkTask "t1" TASK_STAGING "s1" [])
              (mkTask "t2" TASK_RUNNING "s1" [1.5%float])) as [_ [H _]].
  apply H; [reflexivity|discriminate].
Defined.

Lemma tasksPage_slice_witness :
  (0 ≤ 1)%Z ∧ (0 ≤ 2)%Z ∧ (1 + 2 < 2^64)%Z ∧
  tasksPage 2 1 ["a"; "b"; "c"; "d"] = ["b"; "c"].
Proof.
  split; [lia|]. split; [lia|]. split; [lia|].
  rewrite (tasksPage_slice 2 1 ["a"; "b"; "c"; "d"]) by lia. reflexivity.
Defined.

Lemma tasksOfQuery_negative_limit_witness :
  (0 < 2 ≤ 2^31)%Z ∧ (0 ≤ 1 < 2^31)%Z ∧ (Z.of_nat (length ["a"; "b"; "c"]) < 2^63)%Z ∧
  tasksOfQuery 100 (Some (Z.opp 2)) (Some 1%Z) ["a"; "b"; "c"] = ["b"; "c"].
Proof.
  split; [lia|]. split; [lia|]. split; [simpl; lia|].
  rewrite (tasksOfQuery_negative_limit 100 2 1 ["a"; "b"; "c"]) by (simpl; lia).
  reflexivity.
Defined.

Lemma tasksOfQuery_negative_offset_witness :
  (0 < 1 ≤ 2^31)%Z ∧ (0 ≤ 100 < 2^64)%Z ∧ (Z.of_nat (length ["a"; "b"; "c"]) < 2^63)%Z ∧
  tasksOfQuery 100 (Some 2%Z) (Some (Z.opp 1)) ["a"; "b"; "c"] = [].
Proof.
  split; [lia|]. split; [lia|]. split; [simpl; lia|].
  apply (tasksOfQuery_negative_offset 100 1 (Some 2%Z) ["a"; "b"; "c"]); simpl; lia.
Defined.
End MasterFacts.

(* ----------------------------------------------------------------- *)
(** ** The framework metrics *)

Module MetricsFacts.
Import Metrics.

Lemma value_incr h c v c' :
  value (incr c v h) c' =
  (value h c' + if decide (counter_id c' = counter_id c) then v else 0)%Z.
Proof.
  unfold value, incr; simpl. case_decide as E.
  - rewrite E, lookup_insert_eq. simpl. lia.
  - rewrite lookup_insert_ne by congruence. lia.
Qed.

Lemma value_add h c c' : value (add c h) c' = value h c'.
Proof. reflexivity. Qed.

Lemma value_newCounter h nm c' :
  value (snd (newCounter nm h)) c' =
  if decide (counter_id c' = next_id h) then 0%Z else value h c'.
Proof.
  unfold value, newCounter; simpl. case_decide as E.
  - rewrite E, lookup_insert_eq. reflexivity.
  - rewrite lookup_insert_ne by congruence. reflexivity.
Qed.

Lemma regCount_add h c c' :
  regCount (add c h) c' = (regCount h c' + if decide (counter_id c = counter_id c') then 1 else 0)%nat.
Proof.
  unfold regCount, add; simpl. rewrite filter_app, length_app. simpl.
  rewrite filter_cons. case_decide; simpl; lia.
Qed.

Lemma regCount_fresh h c :
  heapOK h → (next_id h ≤ counter_id c)%N → regCount h c = 0%nat.
Proof.
  unfold heapOK, regCount. intros Hok Hle.
  induction Hok as [|c' l Hc' _ IH]; [reflexivity|].
  rewrite filter_cons. case_decide; [lia|exact IH].
Qed.

Lemma family_step {P} `{EqDecision P} (L L' : P → option Counter) p0 h h2 :
  famInj L → famBelow L h → famRegOnce L h → heapOK h →
  (∀ p, p ≠ p0 → L' p = L p) →
  ((∃ c0, L p0 = Some c0 ∧ L' p0 = Some c0 ∧ h2 = incr c0 1 h) ∨
   (L p0 = None ∧ ∃ nm, L' p0 = Some (mkCounter (next_id h) nm) ∧
      h2 = incr (mkCounter (next_id h) nm) 1
             (add (mkCounter (next_id h) nm) (snd (newCounter nm h))))) →
  famInj L' ∧ famBelow L' h2 ∧ famRegOnce L' h2 ∧ heapOK h2 ∧ (next_id h ≤ next_id h2)%N ∧
  (∀ p, famValue L' h2 p = (famValue L h p + if decide (p = p0) then 1 else 0)%Z) ∧
  (∀ c, (counter_id c < next_id h)%N →
     (∀ p c', L p = Some c' → counter_id c' ≠ counter_id c) →
     value h2 c = value h c ∧ regCount h2 c = regCount h c).
Proof.
  intros Hinj Hbel Hreg Hok Hoff Hcase.
  destruct Hcase as [[c0 [Hc0 [Hc0' ->]]]|[Hnone [nm [Hc0' ->]]]].
  - assert (HL : ∀ p, L' p = L p).
    { intros p. destruct (decide (p = p0)) as [->|]; [congruence|auto]. }
    unfold famInj, famBelow, famRegOnce, famValue, heapOK in *.
    setoid_rewrite HL. simpl.
    split; [exact Hinj|]. split; [exact Hbel|]. split; [exact Hreg|].
    split; [exact Hok|]. split; [lia|]. split.
    + intros p. destruct (L p) as [c|] eqn:E.
      * rewrite value_incr. f_equal.
        case_decide as Hid; case_decide as Hp; subst; try reflexivity.
        -- exfalso. apply Hp. eapply Hinj; eauto.
        -- congruence.
      * case_decide; [subst; congruence|]. lia.
    + intros c Hlt Hnot. rewrite value_incr.
      rewrite decide_False by (intros E; apply (Hnot p0 c0 Hc0); congruence).
      split; [lia|reflexivity].
  - set (n := next_id h) in *. set (c0 := mkCounter n nm) in *.
    assert (Hv : ∀ c, value (incr c0 1 (add c0 (snd (newCounter nm h)))) c =
      (if decide (counter_id c = n) then 1 else value h c)%Z).
    { intros c. rewrite value_incr, value_add, value_newCounter. simpl.
      repeat case_decide; try lia; congruence. }
    assert (Hr : ∀ c, regCount (incr c0 1 (add c0 (snd (newCounter nm h)))) c =
      (regCount h c + if decide (n = counter_id c) then 1 else 0)%nat).
    { intros c. unfold regCount; simpl.
      rewrite filter_app, length_app, filter_cons, filter_nil.
      repeat case_decide; simpl; try lia; unfold c0 in *; simpl in *; congruence. }
    assert (HL : ∀ p c, L' p = Some c →
      (p = p0 ∧ c = c0) ∨ (p ≠ p0 ∧ L p = Some c ∧ (counter_id c < n)%N)).
    { intros p c E. destruct (decide (p = p0)) as [->|Hne].
      - left. split; congruence.
      - right. rewrite Hoff in E by done. split; [done|]. split; [done|]. eapply Hbel; eauto. }
    split; [|split; [|split; [|split; [|split; [|split]]]]].
    + intros p1 p2 c1 c2 E1 E2 Eid.
      destruct (HL _ _ E1) as [[-> ->]|[? [E1' ?]]];
      destruct (HL _ _ E2) as [[-> ->]|[? [E2' ?]]]; simpl in *; try done; try lia.
      eapply Hinj; eauto.
    + intros p c E. simpl. destruct (HL _ _ E) as [[-> ->]|[? [? ?]]]; simpl; lia.
    + intros p c E. rewrite Hr. destruct (HL _ _ E) as [[-> ->]|[? [E' Hlt]]].
      * simpl. rewrite decide_True by done. rewrite regCount_fresh; [lia|done|simpl; lia].
      * rewrite decide_False by lia. rewrite (Hreg _ _ E'). lia.
    + unfold heapOK in *. simpl. apply Forall_app; split.
      * eapply Forall_impl; [exact Hok|]. simpl; intros; lia.
      * constructor; [simpl; lia|constructor].
    + simpl. lia.
    + intros p. unfold famValue. destruct (decide (p = p0)) as [->|Hne].
      * rewrite Hc0', Hnone, Hv. simpl. rewrite decide_True by done. lia.
      * rewrite Hoff by done. destruct (L p) as [c|] eqn:E; [|lia].
        rewrite Hv. rewrite decide_False; [lia|].
        pose proof (Hbel p c E). fold n in H. lia.
    + intros c Hlt Hnot. rewrite Hv, Hr.
      rewrite !decide_False by lia. split; [reflexivity|lia].
Qed.

Lemma filter_id_absent (l : list Counter) x :
  x ∉ map counter_id l → length (filter (λ c', counter_id c' = x) l) = 0.
Proof.
  induction l as [|c l IH]; simpl; [done|]. rewrite elem_of_cons.
  intros Hn. rewrite filter_cons. case_decide; [naive_solver|]. apply IH. naive_solver.
Qed.

Lemma filter_id_NoDup (l : list Counter) x :
  NoDup (map counter_id l) → x ∈ map counter_id l →
  length (filter (λ c', counter_id c' = x) l) = 1.
Proof.
  induction l as [|c l IH]; simpl; [intros _ Hin; inversion Hin|].
  intros Hnd Hin. inversion Hnd as [|? ? Hnotin Hnd']; subst.
  rewrite filter_cons. apply elem_of_cons in Hin.
  case_decide as E.
  - simpl. rewrite filter_id_absent; [done|]. congruence.
  - destruct Hin as [->|Hin]; [done|]. apply IH; done.
Qed.

Ltac unfold_ctor :=
  cbv beta iota zeta delta [frameworkMetrics newCounter next_id cells added
    fst snd add foldl calls events operations refuse_seconds_infinite
    refuseSecondsBuckets callTypes eventTypes eventUpdates operation_types
    value regCount heapOK].

Ltac lookup_inserts :=
  repeat match goal with
  | |- context [<[?i := _]> ?m !! ?j] =>
      let E := fresh "E" in
      destruct (decide (i = j)) as [E|E];
      [rewrite <- E, lookup_insert_eq; reflexivity
      |rewrite (lookup_insert_ne m i j _ E);
       match goal with
       | Hb : (j < _)%N |- _ => assert (j < i)%N by lia; clear Hb E
       end]
  end.

Lemma frameworkMetrics_facts p h0 :
  heapOK h0 →
  heapOK (frameworkMetrics p h0).2 ∧
  (next_id h0 + 22 = next_id (frameworkMetrics p h0).2)%N ∧
  (∀ c, (next_id h0 ≤ counter_id c < next_id h0 + 22)%N →
        value (frameworkMetrics p h0).2 c = 0%Z ∧
        regCount (frameworkMetrics p h0).2 c = 1) ∧
  counter_id (calls (frameworkMetrics p h0).1) = (next_id h0 + 1)%N ∧
  counter_id (events (frameworkMetrics p h0).1) = (next_id h0 + 2)%N ∧
  counter_id (operations (frameworkMetrics p h0).1) = (next_id h0 + 16)%N ∧
  counter_id (refuse_seconds_infinite (frameworkMetrics p h0).1) = (next_id h0 + 17)%N ∧
  map (λ bc, (bc.1, counter_id bc.2)) (refuseSecondsBuckets (frameworkMetrics p h0).1) =
    zip bucketBounds [(next_id h0 + 18)%N; (next_id h0 + 19)%N;
                      (next_id h0 + 20)%N; (next_id h0 + 21)%N] ∧
  callTypes (frameworkMetrics p h0).1 = ∅ ∧ eventTypes (frameworkMetrics p h0).1 = ∅ ∧
  eventUpdates (frameworkMetrics p h0).1 = ∅ ∧ operation_types (frameworkMetrics p h0).1 = ∅.
Proof.
  intros Hok. pose proof (regCount_fresh h0) as Hfresh.
  destruct h0 as [cells0 n added0]. unfold_ctor. unfold heapOK, regCount in *. cbn [next_id added counter_id] in *.
  split; [|split; [lia|split; [|split; [lia|split; [lia|split; [lia|split; [lia|
    split; [simpl; repeat f_equal; lia|repeat split]]]]]]]].
  - rewrite <- !app_assoc. cbn [app]. apply Forall_app; split.
    + eapply Forall_impl; [exact Hok|]. cbv beta; intros; lia.
    + repeat (apply Forall_cons_2; [cbn [counter_id]; lia|]); apply Forall_nil_2.
  - intros c [Hlo Hhi]. split.
    + lookup_inserts. exfalso. lia.
    + rewrite <- !app_assoc. cbn [app].
      rewrite filter_app, length_app, Hfresh by (exact Hok || lia).
      set (ks := [0; 1; 2; 16; 3; 4; 5; 6; 7; 8; 9; 10; 11; 12; 13; 14; 15;
                  17; 18; 19; 20; 21]%N).
      match goal with |- context [filter _ ?l] =>
        assert (El : map counter_id l = map (N.add n) ks)
          by (unfold ks; cbn [map counter_id]; repeat f_equal; lia) end.
      rewrite filter_id_NoDup; [done| |]; rewrite El.
      * apply NoDup_fmap_2; [intros ? ? ?; lia|].
        apply (bool_decide_unpack _). vm_compute. exact I.
      * apply (list_elem_of_fmap (N.add n)). exists (counter_id c - n)%N. split; [lia|].
        assert (Hall : Forall (λ k, k ∈ ks) (map N.of_nat (seq 0 22))).
        { apply (bool_decide_unpack _). vm_compute. exact I. }
        rewrite Forall_forall in Hall. apply Hall.
        apply (list_elem_of_fmap N.of_nat). exists (N.to_nat (counter_id c - n)).
        split; [lia|]. apply elem_of_seq. lia.
Qed.

Lemma ensure_bump_shape m k nm h :
  (∀ k', k' ≠ k → (ensure m k nm h).1 !! k' = m !! k') ∧
  ((∃ c0, m !! k = Some c0 ∧ (ensure m k nm h).1 !! k = Some c0 ∧
          bump (ensure m k nm h).1 k (ensure m k nm h).2 = incr c0 1 h) ∨
   (m !! k = None ∧ ∃ nm', (ensure m k nm h).1 !! k = Some (mkCounter (next_id h) nm') ∧
      bump (ensure m k nm h).1 k (ensure m k nm h).2 =
        incr (mkCounter (next_id h) nm') 1
          (add (mkCounter (next_id h) nm') (snd (newCounter nm' h))))).
Proof.
  unfold ensure. destruct (m !! k) as [c0|] eqn:E; simpl.
  - split; [auto|]. left. exists c0. split; [done|]. split; [done|].
    unfold bump. rewrite E. reflexivity.
  - split; [intros; apply lookup_insert_ne; congruence|]. right. split; [done|].
    exists nm. rewrite lookup_insert_eq. split; [done|].
    unfold bump. rewrite lookup_insert_eq. reflexivity.
Qed.

Lemma regCount_incr h c v c' : regCount (incr c v h) c' = regCount h c'.
Proof. reflexivity. Qed.

(** One [increment*] of a per-type counter family with its total. *)
Lemma family_total_step (m0 : gmap string Counter) (t : Counter) k nm h :
  famInj (m0 !!.) → famBelow (m0 !!.) h → famRegOnce (m0 !!.) h → heapOK h →
  (counter_id t < next_id h)%N →
  (∀ p c', m0 !! p = Some c' → counter_id c' ≠ counter_id t) →
  let m := (ensure m0 k nm h).1 in
  let h2 := incr t 1 (bump m k (ensure m0 k nm h).2) in
  famInj (m !!.) ∧ famBelow (m !!.) h2 ∧ famRegOnce (m !!.) h2 ∧ heapOK h2 ∧
  (counter_id t < next_id h2)%N ∧
  (∀ p c', m !! p = Some c' → counter_id c' ≠ counter_id t) ∧
  value h2 t = (value h t + 1)%Z ∧ regCount h2 t = regCount h t ∧
  (∀ p, famValue (m !!.) h2 p = (famValue (m0 !!.) h p + if decide (p = k) then 1 else 0)%Z) ∧
  (∀ c, (counter_id c < next_id h)%N → (∀ p c', m0 !! p = Some c' → counter_id c' ≠ counter_id c) →
     counter_id c ≠ counter_id t → value h2 c = value h c ∧ regCount h2 c = regCount h c) ∧
  (next_id h ≤ next_id h2)%N.
Proof.
  intros Hinj Hbel Hreg Hok Ht Htn m h2.
  destruct (ensure_bump_shape m0 k nm h) as [Hoff Hcase].
  destruct (family_step (m0 !!.) (m !!.) k h (bump m k (ensure m0 k nm h).2)
              Hinj Hbel Hreg Hok Hoff Hcase)
    as (Hinj' & Hbel' & Hreg' & Hok' & Hnext & Hval & Hother).
  assert (Hmt : ∀ p c', m !! p = Some c' → counter_id c' ≠ counter_id t).
  { intros p c' E. destruct (decide (p = k)) as [->|Hne].
    - destruct Hcase as [[c0 [E0 [E1 _]]]|[_ [nm' [E1 _]]]];
        fold m in E1; rewrite E1 in E; injection E as <-.
      + eauto.
      + simpl. lia.
    - unfold m in E. rewrite (Hoff p Hne) in E. eauto. }
  destruct (Hother t Ht Htn) as [Hvt Hrt].
  unfold h2. split; [exact Hinj'|]. split; [exact Hbel'|].
  split; [intros p c E; rewrite regCount_incr; eauto|].
  split; [exact Hok'|]. split; [simpl; lia|]. split; [exact Hmt|].
  split; [rewrite value_incr, decide_True by done; lia|].
  split; [rewrite regCount_incr; exact Hrt|]. split.
  - intros p. rewrite <- Hval. unfold famValue. destruct (m !! p) as [c|] eqn:E; [|done].
    rewrite value_incr, decide_False by (eapply Hmt; eauto). lia.
  - split; [|simpl; lia]. intros c Hc Hcn Hct.
    destruct (Hother c Hc Hcn) as [Hv Hr].
    rewrite value_incr, decide_False by done. rewrite regCount_incr. split; lia.
Qed.

Lemma callTypes_set m fm : callTypes (set_callTypes m fm) = m.
Proof. destruct fm; reflexivity. Qed.

Lemma calls_set m fm : calls (set_callTypes m fm) = calls fm.
Proof. destruct fm; reflexivity. Qed.

Lemma incrementCall_eq lower type fm h :
  incrementCall lower type fm h =
  let r := ensure (callTypes fm) type (prefix fm ++ "calls/" ++ lower type) h in
  (set_callTypes r.1 fm, incr (calls fm) 1 (bump r.1 type r.2)).
Proof. unfold incrementCall. destruct (ensure _ _ _ _); reflexivity. Qed.

Lemma incrementSubscribeCall_eq fm h :
  incrementSubscribeCall fm h =
  let r := ensure (callTypes fm) "SUBSCRIBE" (prefix fm ++ "calls/subscribe") h in
  (set_callTypes r.1 fm, incr (calls fm) 1 (bump r.1 "SUBSCRIBE" r.2)).
Proof. unfold incrementSubscribeCall. destruct (ensure _ _ _ _); reflexivity. Qed.

Lemma calls_run lower (l : list (option string)) fm h :
  famInj (callTypes fm !!.) → famBelow (callTypes fm !!.) h →
  famRegOnce (callTypes fm !!.) h → heapOK h →
  (counter_id (calls fm) < next_id h)%N →
  (∀ p c', callTypes fm !! p = Some c' → counter_id c' ≠ counter_id (calls fm)) →
  let r := foldl (λ '(fm, h) call,
             match call with
             | Some type => incrementCall lower type fm h
             | None => incrementSubscribeCall fm h
             end) (fm, h) l in
  calls r.1 = calls fm ∧ famRegOnce (callTypes r.1 !!.) r.2 ∧
  regCount r.2 (calls r.1) = regCount h (calls fm) ∧
  value r.2 (calls r.1) = (value h (calls fm) + Z.of_nat (length l))%Z ∧
  (∀ type, famValue (callTypes r.1 !!.) r.2 type =
     (famValue (callTypes fm !!.) h type +
      Z.of_nat (length (filter (λ call, default "SUBSCRIBE" call = type) l)))%Z).
Proof.
  revert fm h. induction l as [|call l IH]; intros fm h Hinj Hbel Hreg Hok Ht Htn; cbv zeta; cbn [foldl].
  - simpl. repeat split; try done; lia.
  - set (k := default "SUBSCRIBE" call).
    set (nm := match call with
               | Some type => prefix fm ++ "calls/" ++ lower type
               | None => prefix fm ++ "calls/subscribe" end).
    assert (Hstep : (match call with
             | Some type => incrementCall lower type fm h
             | None => incrementSubscribeCall fm h
             end) =
             (set_callTypes (ensure (callTypes fm) k nm h).1 fm,
              incr (calls fm) 1 (bump (ensure (callTypes fm) k nm h).1 k
                                  (ensure (callTypes fm) k nm h).2))).
    { destruct call; [apply incrementCall_eq|apply incrementSubscribeCall_eq]. }
    rewrite Hstep.
    destruct (family_total_step (callTypes fm) (calls fm) k nm h Hinj Hbel Hreg Hok Ht Htn)
      as (Hinj' & Hbel' & Hreg' & Hok' & Ht' & Htn' & Hvt & Hrt & Hval & _ & _).
    edestruct (IH (set_callTypes (ensure (callTypes fm) k nm h).1 fm)
      (incr (calls fm) 1 (bump (ensure (callTypes fm) k nm h).1 k
                                  (ensure (callTypes fm) k nm h).2)))
      as (Ec & Hreg2 & Hrt2 & Hvt2 & Hval2);
      rewrite ?callTypes_set, ?calls_set; [exact Hinj'|exact Hbel'|exact Hreg'|exact Hok'
        |exact Ht'|exact Htn'|].
    rewrite calls_set in Ec. split; [exact Ec|]. split; [exact Hreg2|].
    split; [rewrite Hrt2, calls_set; exact Hrt|].
    split; [rewrite Hvt2, calls_set, Hvt; cbn [length]; lia|].
    intros type. rewrite Hval2, callTypes_set, Hval, filter_cons.
    fold k. destruct (decide (type = k)) as [->|Hne];
      [rewrite decide_True by done|rewrite decide_False by congruence]; simpl; lia.
Qed.

(** [FrameworkMetrics::incrementCall] and
    [FrameworkMetrics::incrementSubscribeCall], run on the metrics of a newly
    constructed [FrameworkMetrics] (a [None] call is a subscribe call):
    [calls] counts all the calls, the [callTypes] counter of each type
    counts the calls of that type ([SUBSCRIBE] for subscribe calls), and
    [calls] and every per-type counter are added to [process::metrics]
    exactly once. *)
Theorem FrameworkMetrics_calls lower prefix h0 (calls_ : list (option string)) :
  heapOK h0 →
  let r := foldl (λ '(fm, h) call,
             match call with
             | Some type => incrementCall lower type fm h
             | None => incrementSubscribeCall fm h
             end) (frameworkMetrics prefix h0) calls_ in
  value r.2 (calls r.1) = Z.of_nat (length calls_) ∧
  (∀ type, famValue (callTypes r.1 !!.) r.2 type =
     Z.of_nat (length (filter (λ call, default "SUBSCRIBE" call = type) calls_))) ∧
  regCount r.2 (calls r.1) = 1 ∧ famRegOnce (callTypes r.1 !!.) r.2.
Proof.
  intros Hok0.
  destruct (frameworkMetrics_facts prefix h0 Hok0)
    as (Hok & Hnext & Hfresh & Hc & _ & _ & _ & _ & Hct & _).
  destruct (frameworkMetrics prefix h0) as [fm h]. cbn [fst snd] in *.
  destruct (Hfresh (calls fm)) as [Hv0 Hr0]; [lia|].
  edestruct (calls_run lower calls_ fm h) as (Ec & Hreg & Hrt & Hvt & Hval);
    rewrite ?Hct.
  1-3, 6: intros ? ?; rewrite lookup_empty; discriminate.
  1-2: first [exact Hok | lia].
  split; [rewrite Hvt, Hv0; lia|]. split; [|split; [rewrite Hrt; exact Hr0|exact Hreg]].
  intros type. rewrite Hval. unfold famValue. rewrite Hct, lookup_empty. lia.
Qed.


Lemma sum_list_with_ext {A} (f g : A → nat) (l : list A) :
  (∀ x, f x = g x) → sum_list_with f l = sum_list_with g l.
Proof. intros E. induction l as [|x l IH]; simpl; [done|]. rewrite E, IH. done. Qed.

Lemma sum_list_with_Zle (b : Z) (l : list Z) :
  sum_list_with (λ d, if decide (d ≤ b)%Z then 1 else 0) l =
  length (filter (λ d, (d ≤ b)%Z) l).
Proof.
  induction l as [|d l IH]; simpl; [reflexivity|].
  rewrite filter_cons. case_decide; simpl; lia.
Qed.

Lemma buckets_fold_value d bs h c :
  value (foldl (λ h '(duration, counter),
                  if Z.leb d duration then incr counter 1 h else h) h bs) c =
  (value h c + Z.of_nat (length (filter (λ p, p.2 = counter_id c ∧ (d ≤ p.1)%Z)
                                  (map (λ bc, (bc.1, counter_id bc.2)) bs))))%Z.
Proof.
  revert h. induction bs as [|[b c'] bs IH]; intros h; cbn [foldl map]; [simpl; lia|].
  rewrite IH, filter_cons. cbn [fst snd]. destruct (Z.leb_spec d b) as [Hle|Hgt].
  - rewrite value_incr. destruct (decide (counter_id c = counter_id c')) as [E|E].
    + rewrite decide_True by (split; [congruence|exact Hle]). cbn [length]. lia.
    + rewrite decide_False by (intros [? ?]; congruence). lia.
  - rewrite decide_False by (intros [? ?]; lia). lia.
Qed.

Lemma offerFilter_value ds fm h c :
  value (foldl (λ h d, incrementOfferFilterBuckets d fm h) h ds) c =
  (value h c + Z.of_nat (sum_list_with (λ d,
     (if decide (counter_id c = counter_id (refuse_seconds_infinite fm)) then 1 else 0) +
     length (filter (λ p, p.2 = counter_id c ∧ (d ≤ p.1)%Z)
               (map (λ bc, (bc.1, counter_id bc.2)) (refuseSecondsBuckets fm))))%nat ds))%Z.
Proof.
  revert h. induction ds as [|d ds IH]; intros h; cbn [foldl sum_list_with]; [simpl; lia|].
  rewrite IH. unfold incrementOfferFilterBuckets. rewrite buckets_fold_value, value_incr.
  case_decide; lia.
Qed.

(** [FrameworkMetrics::incrementOfferFilterBuckets], run on the metrics of
    a newly constructed [FrameworkMetrics] for refusal durations [ds]:
    [refuse_seconds/infinite] counts every refusal, and each of the four
    buckets ([5secs], [1mins], [1hours], [1days]) counts the refusals whose
    duration is at most its bound. *)
Theorem FrameworkMetrics_offerFilterBuckets prefix h0 (ds : list Z) :
  heapOK h0 →
  let r := frameworkMetrics prefix h0 in
  let h := foldl (λ h d, incrementOfferFilterBuckets d r.1 h) r.2 ds in
  value h (refuse_seconds_infinite r.1) = Z.of_nat (length ds) ∧
  map (λ bc, (bc.1, value h bc.2)) (refuseSecondsBuckets r.1) =
  map (λ b, (b, Z.of_nat (length (filter (λ d, (d ≤ b)%Z) ds)))) bucketBounds.
Proof.
  intros Hok0.
  destruct (frameworkMetrics_facts prefix h0 Hok0)
    as (Hok & Hnext & Hfresh & _ & _ & _ & Hinf & Hb & _).
  destruct (frameworkMetrics prefix h0) as [fm h]. cbn [fst snd] in *. cbv zeta.
  set (n := next_id h0) in *.
  destruct (refuseSecondsBuckets fm) as [|[b1 c1] [|[b2 c2] [|[b3 c3] [|[b4 c4] [|]]]]] eqn:EB;
    unfold bucketBounds in Hb; cbn in Hb; try discriminate.
  injection Hb as Eb1 E1 Eb2 E2 Eb3 E3 Eb4 E4. subst b1 b2 b3 b4.
  split.
  - rewrite offerFilter_value, EB. cbn [map fst snd].
    destruct (Hfresh (refuse_seconds_infinite fm)) as [Hv _]; [lia|]. rewrite Hv.
    rewrite (sum_list_with_ext _ (λ _, 1)), MasterFacts.sum_list_with_const; [lia|].
    intros d. rewrite decide_True by done.
    rewrite !filter_cons, !decide_False by (cbn; intros [? ?]; lia). done.
  - unfold bucketBounds. cbn [map fst snd]. rewrite !offerFilter_value, !EB. cbn [map fst snd].
    destruct (Hfresh c1) as [V1 _]; [lia|]. destruct (Hfresh c2) as [V2 _]; [lia|].
    destruct (Hfresh c3) as [V3 _]; [lia|]. destruct (Hfresh c4) as [V4 _]; [lia|].
    rewrite V1, V2, V3, V4.
    repeat f_equal; rewrite Z.add_0_l; f_equal; rewrite <- sum_list_with_Zle;
      apply sum_list_with_ext; intros d; rewrite !filter_cons, filter_nil;
      cbn [fst snd]; repeat case_decide; cbn [length]; lia.
Qed.

Lemma incrementTasksStates_eq lower state source reason (ts : TasksStates) h :
  let rs := match ts !! state with Some sr => default ∅ (sr !! source) | None => ∅ end in
  let e := ensure rs reason
      ("master/" ++ lower state ++ "/" ++ lower source ++ "/" ++ lower reason) h in
  (∀ s so r, tasksStatesAt (incrementTasksStates lower state source reason ts h).1 (s, so, r) =
     if decide (s = state ∧ so = source) then e.1 !! r else tasksStatesAt ts (s, so, r)) ∧
  (∀ r, rs !! r = tasksStatesAt ts (state, source, r)) ∧
  (incrementTasksStates lower state source reason ts h).2 = bump e.1 reason e.2.
Proof.
  cbv zeta. unfold incrementTasksStates. unfold TasksStates in *.
  set (nm := "master/" ++ lower state ++ "/" ++ lower source ++ "/" ++ lower reason).
  assert (Hins : ∀ (ts1 : gmap string (gmap string (gmap string Counter))) (sr1 : gmap string (gmap string Counter))
      (rs1 : gmap string Counter),
    (∀ s so r, s = state → so ≠ source →
      match sr1 !! so with Some rs => rs !! r | None => None end = tasksStatesAt ts (s, so, r)) →
    (∀ s so r, s ≠ state → tasksStatesAt ts1 (s, so, r) = tasksStatesAt ts (s, so, r)) →
    ∀ s so r, tasksStatesAt (<[state := <[source := rs1]> sr1]> ts1) (s, so, r) =
      if decide (s = state ∧ so = source) then rs1 !! r else tasksStatesAt ts (s, so, r)).
  { intros ts1 sr1 rs1 Hsr Hts s so r.
    destruct (decide (s = state)) as [->|Hs].
    - unfold tasksStatesAt, TasksStates. rewrite lookup_insert_eq.
      destruct (decide (so = source)) as [->|Hso].
      + rewrite lookup_insert_eq, decide_True by done. reflexivity.
      + rewrite lookup_insert_ne by congruence. rewrite decide_False by tauto.
        specialize (Hsr state so r eq_refl Hso). unfold tasksStatesAt, TasksStates in Hsr.
        exact Hsr.
    - rewrite decide_False by tauto. rewrite <- (Hts s so r Hs).
      unfold tasksStatesAt, TasksStates. rewrite lookup_insert_ne by congruence. reflexivity. }
  destruct (ts !! state) as [sr|] eqn:Ets; cbn [default from_option id].
  - rewrite Ets. cbn [default from_option id]. destruct (sr !! source) as [rs0|] eqn:Esr; cbn [default from_option id].
    + rewrite Esr. cbn [default from_option id].
      destruct (ensure rs0 reason nm h) as [rs1 h1] eqn:Ee. cbn [fst snd].
      split; [|split; [|reflexivity]].
      * apply Hins; [|done]. intros s so r -> Hso. unfold tasksStatesAt, TasksStates. rewrite Ets. reflexivity.
      * intros r. unfold tasksStatesAt, TasksStates. rewrite Ets, Esr. reflexivity.
    + rewrite lookup_insert_eq. cbn [default from_option id].
      destruct (ensure ∅ reason nm h) as [rs1 h1] eqn:Ee. cbn [fst snd].
      split; [|split; [|reflexivity]].
      * apply Hins; [|done]. intros s so r -> Hso. unfold tasksStatesAt, TasksStates. rewrite Ets.
        rewrite lookup_insert_ne by congruence. reflexivity.
      * intros r. unfold tasksStatesAt, TasksStates. rewrite Ets, Esr. apply lookup_empty.
  - rewrite lookup_insert_eq. cbn [default from_option id]. rewrite lookup_empty. cbn [default from_option id].
    rewrite lookup_insert_eq. cbn [default from_option id].
    destruct (ensure ∅ reason nm h) as [rs1 h1] eqn:Ee. cbn [fst snd].
    split; [|split; [|reflexivity]].
    + apply Hins.
      * intros s so r -> Hso. unfold tasksStatesAt, TasksStates. rewrite Ets.
        rewrite lookup_insert_ne, lookup_empty by congruence. reflexivity.
      * intros s so r Hs. unfold tasksStatesAt, TasksStates. rewrite lookup_insert_ne by congruence.
        reflexivity.
    + intros r. unfold tasksStatesAt, TasksStates. rewrite Ets. apply lookup_empty.
Qed.

Lemma incrementTasksStates_step lower state source reason (ts : TasksStates) h :
  famInj (tasksStatesAt ts) → famBelow (tasksStatesAt ts) h →
  famRegOnce (tasksStatesAt ts) h → heapOK h →
  let r := incrementTasksStates lower state source reason ts h in
  famInj (tasksStatesAt r.1) ∧ famBelow (tasksStatesAt r.1) r.2 ∧
  famRegOnce (tasksStatesAt r.1) r.2 ∧ heapOK r.2 ∧
  (∀ p, famValue (tasksStatesAt r.1) r.2 p =
     (famValue (tasksStatesAt ts) h p +
      if decide (p = (state, source, reason)) then 1 else 0)%Z).
Proof.
  intros Hinj Hbel Hreg Hok r.
  destruct (incrementTasksStates_eq lower state source reason ts h) as (Hat & Hrs & Hh).
  set (rs := match ts !! state with Some sr => default ∅ (sr !! source) | None => ∅ end) in *.
  set (nm := "master/" ++ lower state ++ "/" ++ lower source ++ "/" ++ lower reason) in *.
  destruct (ensure_bump_shape rs reason nm h) as [Hoff Hcase].
  assert (E1 : tasksStatesAt ts (state, source, reason) = rs !! reason) by (symmetry; apply Hrs).
  assert (E2 : tasksStatesAt r.1 (state, source, reason) = (ensure rs reason nm h).1 !! reason).
  { unfold r. rewrite Hat, decide_True by done. reflexivity. }
  destruct (family_step (tasksStatesAt ts) (tasksStatesAt r.1) (state, source, reason) h r.2
              Hinj Hbel Hreg Hok) as (Hinj' & Hbel' & Hreg' & Hok' & _ & Hval & _).
  - intros [[s so] x] Hne. unfold r. rewrite Hat. case_decide as Hss; [|reflexivity].
    destruct Hss as [-> ->]. rewrite Hoff by congruence. apply Hrs.
  - rewrite E1, E2. unfold r. rewrite Hh. exact Hcase.
  - repeat split; assumption.
Qed.

Lemma incrementTasksStates_run lower (keys : list (string * string * string))
    (ts : TasksStates) h :
  famInj (tasksStatesAt ts) → famBelow (tasksStatesAt ts) h →
  famRegOnce (tasksStatesAt ts) h → heapOK h →
  let r := foldl (λ '(ts, h) '(state, source, reason),
                    incrementTasksStates lower state source reason ts h) (ts, h) keys in
  famInj (tasksStatesAt r.1) ∧ famRegOnce (tasksStatesAt r.1) r.2 ∧
  (∀ p, famValue (tasksStatesAt r.1) r.2 p =
     (famValue (tasksStatesAt ts) h p + Z.of_nat (length (filter (λ k, k = p) keys)))%Z).
Proof.
  revert ts h. induction keys as [|[[state source] reason] keys IH];
    intros ts h Hinj Hbel Hreg Hok; cbv zeta; cbn [foldl].
  - split; [exact Hinj|]. split; [exact Hreg|]. intros p. simpl. lia.
  - destruct (incrementTasksStates_step lower state source reason ts h Hinj Hbel Hreg Hok)
      as (Hinj' & Hbel' & Hreg' & Hok' & Hval).
    destruct (incrementTasksStates lower state source reason ts h) as [ts' h'] eqn:E.
    cbn [fst snd] in *.
    destruct (IH ts' h' Hinj' Hbel' Hreg' Hok') as (Hinj2 & Hreg2 & Hval2).
    split; [exact Hinj2|]. split; [exact Hreg2|].
    intros p. rewrite Hval2, Hval, filter_cons.
    destruct (decide (p = (state, source, reason))) as [->|Hne].
    + rewrite decide_True by done. cbn [length]. lia.
    + rewrite decide_False by congruence. lia.
Qed.

(** [Metrics::incrementTasksStates], run from an empty [tasks_states] on a
    sequence of (state, source, reason) keys: the counter at each key counts
    that key's occurrences in the sequence (0 when there is none), distinct
    keys get distinct counters, and each is added to [process::metrics]
    exactly once. *)
Theorem Metrics_incrementTasksStates_counts lower (keys : list (string * string * string)) h0 :
  heapOK h0 →
  let r := foldl (λ '(ts, h) '(state, source, reason),
                    incrementTasksStates lower state source reason ts h) (∅, h0) keys in
  (∀ key, famValue (tasksStatesAt r.1) r.2 key =
          Z.of_nat (length (filter (λ k, k = key) keys))) ∧
  famInj (tasksStatesAt r.1) ∧ famRegOnce (tasksStatesAt r.1) r.2.
Proof.
  intros Hok0.
  assert (Hnone : ∀ p, tasksStatesAt (∅ : TasksStates) p = None).
  { intros [[s so] x]. unfold tasksStatesAt, TasksStates. rewrite lookup_empty. reflexivity. }
  destruct (incrementTasksStates_run lower keys ∅ h0) as (Hinj & Hreg & Hval);
    [intros ? ?; rewrite Hnone; discriminate
    |intros ?; rewrite Hnone; discriminate
    |intros ?; rewrite Hnone; discriminate
    |exact Hok0|].
  split; [|split; assumption]. intros key. rewrite Hval. unfold famValue.
  rewrite Hnone. lia.
Qed.

Lemma ensure_lookup_cases m0 k nm h p c :
  (ensure m0 k nm h).1 !! p = Some c → m0 !! p = Some c ∨ counter_id c = next_id h.
Proof.
  unfold ensure. destruct (m0 !! k) eqn:E; simpl; [auto|].
  destruct (decide (p = k)) as [->|Hne].
  - rewrite lookup_insert_eq. intros [= <-]. right. reflexivity.
  - rewrite lookup_insert_ne by congruence. auto.
Qed.

Lemma set_eventUpdates_proj m fm :
  eventTypes (set_eventUpdates m fm) = eventTypes fm ∧
  eventUpdates (set_eventUpdates m fm) = m ∧
  events (set_eventUpdates m fm) = events fm ∧ prefix (set_eventUpdates m fm) = prefix fm.
Proof. destruct fm; repeat split. Qed.

Lemma set_eventTypes_proj m fm :
  eventTypes (set_eventTypes m fm) = m ∧
  eventUpdates (set_eventTypes m fm) = eventUpdates fm ∧
  events (set_eventTypes m fm) = events fm ∧ prefix (set_eventTypes m fm) = prefix fm.
Proof. destruct fm; repeat split. Qed.

Lemma updates_step fm h k nm :
  eventsOK fm h →
  let e := ensure (eventUpdates fm) k nm h in
  let h1 := bump e.1 k e.2 in
  eventsOK (set_eventUpdates e.1 fm) h1 ∧
  value h1 (events fm) = value h (events fm) ∧
  regCount h1 (events fm) = regCount h (events fm) ∧
  (∀ t, famValue (eventTypes fm !!.) h1 t = famValue (eventTypes fm !!.) h t) ∧
  (∀ s, famValue (e.1 !!.) h1 s =
        (famValue (eventUpdates fm !!.) h s + if decide (s = k) then 1 else 0)%Z).
Proof.
  intros (Ti & Tb & Tr & Ui & Ub & Ur & Hok & Hev & Hte & Hue & Htu) e h1.
  destruct (ensure_bump_shape (eventUpdates fm) k nm h) as [Hoff Hcase].
  destruct (family_step (eventUpdates fm !!.) (e.1 !!.) k h h1 Ui Ub Ur Hok Hoff Hcase)
    as (Ui' & Ub' & Ur' & Hok' & Hnext & Hval & Hother).
  assert (Hcases : ∀ p c, e.1 !! p = Some c →
            eventUpdates fm !! p = Some c ∨ counter_id c = next_id h).
  { intros p c E. exact (ensure_lookup_cases _ _ _ _ _ _ E). }
  assert (HT : ∀ p c, eventTypes fm !! p = Some c →
            value h1 c = value h c ∧ regCount h1 c = regCount h c).
  { intros p c E. apply Hother; [exact (Tb p c E)|].
    intros p' c' E' Heq. apply (Htu p c p' c' E E'). congruence. }
  destruct (Hother (events fm) Hev Hue) as [Hve Hre].
  destruct (set_eventUpdates_proj e.1 fm) as (P1 & P2 & P3 & _).
  split; [|split; [exact Hve|split; [exact Hre|split]]].
  - unfold eventsOK. rewrite P1, P2, P3.
    split; [exact Ti|]. split; [intros p c E; specialize (Tb p c E); lia|].
    split; [intros p c E; destruct (HT p c E) as [_ ->]; exact (Tr p c E)|].
    split; [exact Ui'|]. split; [exact Ub'|]. split; [exact Ur'|].
    split; [exact Hok'|]. split; [lia|]. split; [exact Hte|]. split.
    + intros p c E. destruct (Hcases p c E) as [E'| ->]; [exact (Hue p c E')|lia].
    + intros p c p' c' E E'. destruct (Hcases p' c' E') as [E''| ->].
      * exact (Htu p c p' c' E E'').
      * specialize (Tb p c E). lia.
  - intros t. unfold famValue. destruct (eventTypes fm !! t) as [c|] eqn:E; [|reflexivity].
    destruct (HT t c E) as [-> _]. reflexivity.
  - exact Hval.
Qed.

Lemma types_step fm h k nm :
  eventsOK fm h →
  let e := ensure (eventTypes fm) k nm h in
  let h2 := incr (events fm) 1 (bump e.1 k e.2) in
  eventsOK (set_eventTypes e.1 fm) h2 ∧
  value h2 (events fm) = (value h (events fm) + 1)%Z ∧
  regCount h2 (events fm) = regCount h (events fm) ∧
  (∀ s, famValue (eventUpdates fm !!.) h2 s = famValue (eventUpdates fm !!.) h s) ∧
  (∀ t, famValue (e.1 !!.) h2 t =
        (famValue (eventTypes fm !!.) h t + if decide (t = k) then 1 else 0)%Z).
Proof.
  intros (Ti & Tb & Tr & Ui & Ub & Ur & Hok & Hev & Hte & Hue & Htu). cbv zeta.
  destruct (family_total_step (eventTypes fm) (events fm) k nm h Ti Tb Tr Hok Hev Hte)
    as (Ti' & Tb' & Tr' & Hok' & Ht' & Hmt & Hvt & Hrt & Hval & Hother & Hnext).
  assert (Hcases : ∀ p c, (ensure (eventTypes fm) k nm h).1 !! p = Some c →
            eventTypes fm !! p = Some c ∨ counter_id c = next_id h).
  { intros p c E. exact (ensure_lookup_cases _ _ _ _ _ _ E). }
  assert (HU : ∀ p c, eventUpdates fm !! p = Some c →
            value (incr (events fm) 1 (bump (ensure (eventTypes fm) k nm h).1 k
              (ensure (eventTypes fm) k nm h).2)) c = value h c ∧
            regCount (incr (events fm) 1 (bump (ensure (eventTypes fm) k nm h).1 k
              (ensure (eventTypes fm) k nm h).2)) c = regCount h c).
  { intros p c E. apply Hother; [exact (Ub p c E)| |exact (Hue p c E)].
    intros p' c' E'. exact (Htu p' c' p c E' E). }
  destruct (set_eventTypes_proj (ensure (eventTypes fm) k nm h).1 fm) as (P1 & P2 & P3 & _).
  split; [|split; [exact Hvt|split; [exact Hrt|split]]].
  - unfold eventsOK. rewrite P1, P2, P3.
    split; [exact Ti'|]. split; [exact Tb'|]. split; [exact Tr'|].
    split; [exact Ui|]. split; [intros p c E; specialize (Ub p c E); lia|].
    split; [intros p c E; destruct (HU p c E) as [_ ->]; exact (Ur p c E)|].
    split; [exact Hok'|]. split; [exact Ht'|]. split; [exact Hmt|]. split; [exact Hue|].
    intros p c p' c' E E'. destruct (Hcases p c E) as [E''| ->].
    + exact (Htu p c p' c' E'' E').
    + specialize (Ub p' c' E'). lia.
  - intros s. unfold famValue. destruct (eventUpdates fm !! s) as [c|] eqn:E; [|reflexivity].
    destruct (HU s c E) as [-> _]. reflexivity.
  - exact Hval.
Qed.

Lemma types_tail fm1 h1 type nm :
  eventsOK fm1 h1 →
  let r := (let '(m, h2) := ensure (eventTypes fm1) type nm h1 in
            (set_eventTypes m fm1, incr (events fm1) 1 (bump m type h2))) in
  eventsOK r.1 r.2 ∧ events r.1 = events fm1 ∧
  value r.2 (events r.1) = (value h1 (events fm1) + 1)%Z ∧
  regCount r.2 (events r.1) = regCount h1 (events fm1) ∧
  eventUpdates r.1 = eventUpdates fm1 ∧
  (∀ s, famValue (eventUpdates fm1 !!.) r.2 s = famValue (eventUpdates fm1 !!.) h1 s) ∧
  (∀ t, famValue (eventTypes r.1 !!.) r.2 t =
        (famValue (eventTypes fm1 !!.) h1 t + if decide (t = type) then 1 else 0)%Z).
Proof.
  intros Hinv.
  destruct (types_step fm1 h1 type nm Hinv) as (Inv2 & Hv2 & Hr2 & HU2 & HT2).
  cbv zeta. destruct (ensure (eventTypes fm1) type nm h1) as [m h2] eqn:Ee.
  cbn [fst snd] in *. destruct (set_eventTypes_proj m fm1) as (P1 & P2 & P3 & _).
  rewrite P1, P2, P3.
  split; [exact Inv2|]. split; [reflexivity|]. split; [exact Hv2|].
  split; [exact Hr2|]. split; [reflexivity|]. split; [exact HU2|exact HT2].
Qed.

Lemma incrementEvent_step lower ev fm h :
  eventsOK fm h →
  let r := incrementEvent lower ev fm h in
  eventsOK r.1 r.2 ∧ events r.1 = events fm ∧
  value r.2 (events r.1) = (value h (events fm) + 1)%Z ∧
  regCount r.2 (events r.1) = regCount h (events fm) ∧
  (∀ t, famValue (eventTypes r.1 !!.) r.2 t =
        (famValue (eventTypes fm !!.) h t + if decide (t = event_type ev) then 1 else 0)%Z) ∧
  (∀ s, famValue (eventUpdates r.1 !!.) r.2 s =
        (famValue (eventUpdates fm !!.) h s +
         if decide (event_type ev = "UPDATE" ∧ s = update_state ev) then 1 else 0)%Z).
Proof.
  intros Hinv. cbv zeta. unfold incrementEvent.
  destruct (decide (event_type ev = "UPDATE")) as [Hu|Hu].
  - set (nm := prefix fm ++ "events/update/" ++ lower (update_state ev)).
    destruct (updates_step fm h (update_state ev) nm Hinv) as (Inv1 & Hv1 & Hr1 & HT1 & HU1).
    cbv zeta. fold nm.
    destruct (ensure (eventUpdates fm) (update_state ev) nm h) as [m h'] eqn:Ee.
    cbn [fst snd] in *. destruct (set_eventUpdates_proj m fm) as (P1 & P2 & P3 & P4).
    destruct (types_tail (set_eventUpdates m fm) (bump m (update_state ev) h') (event_type ev)
                (prefix (set_eventUpdates m fm) ++ "events/" ++ lower (event_type ev)) Inv1)
      as (Inv2 & E2 & Hv2 & Hr2 & EU2 & HU2 & HT2).
    rewrite P1, P2, P3 in *.
    split; [exact Inv2|]. split; [exact E2|].
    split; [rewrite Hv2, Hv1; reflexivity|]. split; [rewrite Hr2, Hr1; reflexivity|].
    split.
    + intros t. rewrite HT2, HT1. reflexivity.
    + intros s. rewrite EU2, HU2, HU1. f_equal.
      destruct (decide (s = update_state ev)) as [->|Hs];
        [rewrite decide_True by done|rewrite decide_False by tauto]; reflexivity.
  - destruct (types_tail fm h (event_type ev)
                (prefix fm ++ "events/" ++ lower (event_type ev)) Hinv)
      as (Inv2 & E2 & Hv2 & Hr2 & EU2 & HU2 & HT2).
    split; [exact Inv2|]. split; [exact E2|]. split; [exact Hv2|]. split; [exact Hr2|].
    split; [exact HT2|].
    intros s. rewrite EU2, HU2, decide_False by tauto. lia.
Qed.

Lemma incrementEvent_run lower (evs : list Event) fm h :
  eventsOK fm h →
  let r := foldl (λ '(fm, h) ev, incrementEvent lower ev fm h) (fm, h) evs in
  eventsOK r.1 r.2 ∧ events r.1 = events fm ∧
  value r.2 (events r.1) = (value h (events fm) + Z.of_nat (length evs))%Z ∧
  regCount r.2 (events r.1) = regCount h (events fm) ∧
  (∀ t, famValue (eventTypes r.1 !!.) r.2 t =
        (famValue (eventTypes fm !!.) h t +
         Z.of_nat (length (filter (λ ev, event_type ev = t) evs)))%Z) ∧
  (∀ s, famValue (eventUpdates r.1 !!.) r.2 s =
        (famValue (eventUpdates fm !!.) h s +
         Z.of_nat (length (filter (λ ev, event_type ev = "UPDATE" ∧ update_state ev = s)
                             evs)))%Z).
Proof.
  revert fm h. induction evs as [|ev evs IH]; intros fm h Hinv; cbv zeta; cbn [foldl].
  - split; [exact Hinv|]. simpl. repeat split; intros; lia.
  - destruct (incrementEvent_step lower ev fm h Hinv) as (Inv1 & E1 & Hv1 & Hr1 & HT1 & HU1).
    destruct (incrementEvent lower ev fm h) as [fm1 h1] eqn:Ee. cbn [fst snd] in *.
    destruct (IH fm1 h1 Inv1) as (Inv2 & E2 & Hv2 & Hr2 & HT2 & HU2).
    split; [exact Inv2|]. split; [congruence|].
    split; [rewrite Hv2, Hv1; cbn [length]; lia|].
    split; [rewrite Hr2, Hr1; reflexivity|]. split.
    + intros t. rewrite HT2, HT1, filter_cons.
      destruct (decide (t = event_type ev)) as [->|Ht];
        [rewrite decide_True by done|rewrite decide_False by congruence]; cbn [length]; lia.
    + intros s. rewrite HU2, HU1, filter_cons.
      destruct (decide (event_type ev = "UPDATE" ∧ s = update_state ev)) as [[H1 ->]|Hs];
        [rewrite decide_True by done|rewrite decide_False by (intros [? ?]; apply Hs; split; congruence)];
        cbn [length]; lia.
Qed.

(** [FrameworkMetrics::incrementEvent], run on the metrics of a newly
    constructed [FrameworkMetrics]: [events] counts all the events, the
    [eventTypes] counter of a type counts the events of that type, the
    [eventUpdates] counter of a task state counts the [UPDATE] events for
    that state, and each of these counters is added to [process::metrics]
    exactly once. *)
Theorem FrameworkMetrics_events lower prefix h0 (evs : list Event) :
  heapOK h0 →
  let r := foldl (λ '(fm, h) ev, incrementEvent lower ev fm h)
             (frameworkMetrics prefix h0) evs in
  value r.2 (events r.1) = Z.of_nat (length evs) ∧
  (∀ type, famValue (eventTypes r.1 !!.) r.2 type =
     Z.of_nat (length (filter (λ ev, event_type ev = type) evs))) ∧
  (∀ state, famValue (eventUpdates r.1 !!.) r.2 state =
     Z.of_nat (length (filter (λ ev, event_type ev = "UPDATE" ∧ update_state ev = state)
                         evs))) ∧
  regCount r.2 (events r.1) = 1 ∧
  famRegOnce (eventTypes r.1 !!.) r.2 ∧ famRegOnce (eventUpdates r.1 !!.) r.2.
Proof.
  intros Hok0.
  destruct (frameworkMetrics_facts prefix h0 Hok0)
    as (Hok & Hnext & Hfresh & _ & He & _ & _ & _ & _ & Het & Heu & _).
  destruct (frameworkMetrics prefix h0) as [fm h]. cbn [fst snd] in *.
  destruct (Hfresh (events fm)) as [Hv0 Hr0]; [lia|].
  assert (Hinv : eventsOK fm h).
  { unfold eventsOK. rewrite Het, Heu.
    repeat split; try (intros ?; rewrite lookup_empty; discriminate);
      try (intros ? ?; rewrite lookup_empty; discriminate); [exact Hok|lia]. }
  cbv zeta.
  destruct (incrementEvent_run lower evs fm h Hinv)
    as ((_ & _ & Tr & _ & _ & Ur & _) & E & Hv & Hr & HT & HU).
  split; [rewrite Hv, Hv0; lia|]. split.
  { intros type. rewrite HT. unfold famValue. rewrite Het, lookup_empty. lia. }
  split.
  { intros state. rewrite HU. unfold famValue. rewrite Heu, lookup_empty. lia. }
  split; [rewrite Hr; exact Hr0|]. split; assumption.
Qed.

Lemma set_offers_proj m fm :
  offers_with_resource_types (set_offers_with_resource_types m fm) = m ∧
  prefix (set_offers_with_resource_types m fm) = prefix fm.
Proof. destruct fm; split; reflexivity. Qed.

Lemma incrementOffersWithResourceTypes_run {Resource} (name : Resource → string)
    (isEmpty : Resource → bool) (resources : list Resource) fm h :
  famInj (offers_with_resource_types fm !!.) →
  famBelow (offers_with_resource_types fm !!.) h →
  famRegOnce (offers_with_resource_types fm !!.) h → heapOK h →
  let r := incrementOffersWithResourceTypes name isEmpty resources fm h in
  famInj (offers_with_resource_types r.1 !!.) ∧
  famBelow (offers_with_resource_types r.1 !!.) r.2 ∧
  famRegOnce (offers_with_resource_types r.1 !!.) r.2 ∧ heapOK r.2 ∧
  (next_id h ≤ next_id r.2)%N ∧
  (∀ k, famValue (offers_with_resource_types r.1 !!.) r.2 k =
     (famValue (offers_with_resource_types fm !!.) h k +
      Z.of_nat (length (filter (λ res, isEmpty res = false ∧ name res = k) resources)))%Z).
Proof.
  unfold incrementOffersWithResourceTypes.
  revert fm h. induction resources as [|res resources IH]; intros fm h Hinj Hbel Hreg Hok;
    cbv zeta; cbn [foldl].
  - split; [exact Hinj|]. split; [exact Hbel|]. split; [exact Hreg|]. split; [exact Hok|].
    split; [simpl; lia|]. intros k. simpl. lia.
  - destruct (isEmpty res) eqn:Ei; cbn [negb].
    + destruct (IH fm h Hinj Hbel Hreg Hok) as (Hinj' & Hbel' & Hreg' & Hok' & Hn' & Hval').
      split; [exact Hinj'|]. split; [exact Hbel'|]. split; [exact Hreg'|].
      split; [exact Hok'|]. split; [exact Hn'|].
      intros k. rewrite Hval', filter_cons, decide_False by (intros [? ?]; congruence). lia.
    + assert (Hstep : ∃ fm1 h1,
        (match offers_with_resource_types fm !! name res with
         | Some counter => (fm, incr counter 1 h)
         | None =>
             let '(counter, h1) :=
               newCounter (prefix fm ++ "offers/sent/with_" ++ name res) h in
             (set_offers_with_resource_types
                (<[name res := counter]> (offers_with_resource_types fm)) fm,
              incr counter 1 (add counter h1))
         end) = (fm1, h1) ∧
        famInj (offers_with_resource_types fm1 !!.) ∧
        famBelow (offers_with_resource_types fm1 !!.) h1 ∧
        famRegOnce (offers_with_resource_types fm1 !!.) h1 ∧ heapOK h1 ∧
        (next_id h ≤ next_id h1)%N ∧
        (∀ k, famValue (offers_with_resource_types fm1 !!.) h1 k =
           (famValue (offers_with_resource_types fm !!.) h k +
            if decide (k = name res) then 1 else 0)%Z)).
      { destruct (offers_with_resource_types fm !! name res) as [c0|] eqn:Eo.
        - eexists _, _. split; [reflexivity|].
          destruct (family_step (offers_with_resource_types fm !!.)
                      (offers_with_resource_types fm !!.) (name res) h (incr c0 1 h)
                      Hinj Hbel Hreg Hok)
            as (? & ? & ? & ? & ? & ? & _); [done|left; eauto|].
          repeat (split; [eassumption|]). assumption.
        - set (nm := prefix fm ++ "offers/sent/with_" ++ name res).
          set (c := mkCounter (next_id h) nm).
          exists (set_offers_with_resource_types
                    (<[name res := c]> (offers_with_resource_types fm)) fm),
                 (incr c 1 (add c (snd (newCounter nm h)))).
          split; [reflexivity|].
          destruct (set_offers_proj (<[name res := c]> (offers_with_resource_types fm)) fm)
            as [P1 _]. rewrite P1.
          destruct (family_step (offers_with_resource_types fm !!.)
                      ((<[name res := c]> (offers_with_resource_types fm)) !!.) (name res) h
                      (incr c 1 (add c (snd (newCounter nm h)))) Hinj Hbel Hreg Hok)
            as (? & ? & ? & ? & ? & ? & _).
          + intros p Hp. apply lookup_insert_ne. congruence.
          + right. split; [exact Eo|]. exists nm. rewrite lookup_insert_eq. split; reflexivity.
          + repeat (split; [eassumption|]). assumption. }
      destruct Hstep as (fm1 & h1 & -> & Hinj1 & Hbel1 & Hreg1 & Hok1 & Hn1 & Hval1).
      destruct (IH fm1 h1 Hinj1 Hbel1 Hreg1 Hok1) as (Hinj' & Hbel' & Hreg' & Hok' & Hn' & Hval').
      split; [exact Hinj'|]. split; [exact Hbel'|]. split; [exact Hreg'|].
      split; [exact Hok'|]. split; [lia|].
      intros k. rewrite Hval', Hval1, filter_cons.
      destruct (decide (k = name res)) as [->|Hk].
      * rewrite decide_True by done. cbn [length]. lia.
      * rewrite decide_False by (intros [? ?]; congruence). lia.
Qed.

Lemma frameworkMetrics_offers p h0 :
  let m := offers_with_resource_types (frameworkMetrics p h0).1 in
  famInj (m !!.) ∧
  (∀ k c, m !! k = Some c → (next_id h0 + 7 ≤ counter_id c ≤ next_id h0 + 11)%N).
Proof.
  destruct h0 as [cells0 n added0]. cbv zeta. unfold_ctor.
  cbn [offers_with_resource_types next_id].
  split.
  - intros k1 k2 c1 c2 E1 E2 Eid.
    rewrite !lookup_insert_Some, lookup_empty in E1, E2.
    repeat match goal with H : _ ∨ _ |- _ => destruct H | H : _ ∧ _ |- _ => destruct H end;
      subst; cbn [counter_id] in *; try done; lia.
  - intros k c E. rewrite !lookup_insert_Some, lookup_empty in E.
    repeat match goal with H : _ ∨ _ |- _ => destruct H | H : _ ∧ _ |- _ => destruct H end;
      subst; cbn [counter_id]; try done; lia.
Qed.

(** [FrameworkMetrics::incrementOffersWithResourceTypes], run on the
    metrics of a newly constructed [FrameworkMetrics] for a sequence of
    offers: the counter of a resource name (one of those the constructor
    creates for [cpus], [mem], [disk], [ports] and [gpus], or one created on
    first use) counts the non-empty resources of that name over all the
    offers; the counters are distinct and each is added to
    [process::metrics] exactly once. *)
Theorem FrameworkMetrics_offersWithResourceTypes {Resource} (name : Resource → string)
    (isEmpty : Resource → bool) prefix h0 (offers : list (list Resource)) :
  heapOK h0 →
  let r := foldl (λ '(fm, h) resources,
                    incrementOffersWithResourceTypes name isEmpty resources fm h)
             (frameworkMetrics prefix h0) offers in
  (∀ k, famValue (offers_with_resource_types r.1 !!.) r.2 k =
        Z.of_nat (length (filter (λ res, isEmpty res = false ∧ name res = k)
                            (concat offers)))) ∧
  famInj (offers_with_resource_types r.1 !!.) ∧
  famRegOnce (offers_with_resource_types r.1 !!.) r.2.
Proof.
  intros Hok0.
  destruct (frameworkMetrics_facts prefix h0 Hok0) as (Hok & Hnext & Hfresh & _).
  destruct (frameworkMetrics_offers prefix h0) as [Hinj Hrange].
  destruct (frameworkMetrics prefix h0) as [fm h]. cbn [fst snd] in *. cbv zeta.
  assert (Hgen : ∀ (offers : list (list Resource)) fm h,
    famInj (offers_with_resource_types fm !!.) →
    famBelow (offers_with_resource_types fm !!.) h →
    famRegOnce (offers_with_resource_types fm !!.) h → heapOK h →
    let r := foldl (λ '(fm, h) resources,
                      incrementOffersWithResourceTypes name isEmpty resources fm h)
               (fm, h) offers in
    famInj (offers_with_resource_types r.1 !!.) ∧
    famRegOnce (offers_with_resource_types r.1 !!.) r.2 ∧
    (∀ k, famValue (offers_with_resource_types r.1 !!.) r.2 k =
       (famValue (offers_with_resource_types fm !!.) h k +
        Z.of_nat (length (filter (λ res, isEmpty res = false ∧ name res = k)
                            (concat offers))))%Z)).
  { clear. induction offers as [|resources offers IH]; intros fm h Hinj Hbel Hreg Hok;
      cbv zeta; cbn [foldl].
    - split; [exact Hinj|]. split; [exact Hreg|]. intros k. simpl. lia.
    - destruct (incrementOffersWithResourceTypes_run name isEmpty resources fm h
                  Hinj Hbel Hreg Hok) as (Hinj1 & Hbel1 & Hreg1 & Hok1 & _ & Hval1).
      destruct (incrementOffersWithResourceTypes name isEmpty resources fm h)
        as [fm1 h1] eqn:E. cbn [fst snd] in *.
      destruct (IH fm1 h1 Hinj1 Hbel1 Hreg1 Hok1) as (Hinj2 & Hreg2 & Hval2).
      split; [exact Hinj2|]. split; [exact Hreg2|].
      intros k. rewrite Hval2, Hval1. cbn [concat]. rewrite filter_app, length_app. lia. }
  destruct (Hgen offers fm h Hinj) as (Hinj' & Hreg' & Hval').
  - intros k c E. specialize (Hrange k c E). lia.
  - intros k c E. specialize (Hrange k c E). apply (Hfresh c). lia.
  - exact Hok.
  - split; [|split; assumption]. intros k. rewrite Hval'. unfold famValue.
    destruct (offers_with_resource_types fm !! k) as [c|] eqn:E; [|lia].
    specialize (Hrange k c E). rewrite (proj1 (Hfresh c ltac:(lia))). lia.
Qed.

Lemma operation_types_set m fm : operation_types (set_operation_types m fm) = m.
Proof. destruct fm; reflexivity. Qed.

Lemma operations_set m fm : operations (set_operation_types m fm) = operations fm.
Proof. destruct fm; reflexivity. Qed.

Lemma incrementOperation_eq lower type fm h :
  incrementOperation lower type fm h =
  let r := ensure (operation_types fm) type (prefix fm ++ "operations/" ++ lower type) h in
  (set_operation_types r.1 fm, incr (operations fm) 1 (bump r.1 type r.2)).
Proof. unfold incrementOperation. destruct (ensure _ _ _ _); reflexivity. Qed.

Lemma operations_run lower (l : list string) fm h :
  famInj (operation_types fm !!.) → famBelow (operation_types fm !!.) h →
  famRegOnce (operation_types fm !!.) h → heapOK h →
  (counter_id (operations fm) < next_id h)%N →
  (∀ p c', operation_types fm !! p = Some c' → counter_id c' ≠ counter_id (operations fm)) →
  let r := foldl (λ '(fm, h) type, incrementOperation lower type fm h) (fm, h) l in
  operations r.1 = operations fm ∧ famRegOnce (operation_types r.1 !!.) r.2 ∧
  regCount r.2 (operations r.1) = regCount h (operations fm) ∧
  value r.2 (operations r.1) = (value h (operations fm) + Z.of_nat (length l))%Z ∧
  (∀ type, famValue (operation_types r.1 !!.) r.2 type =
     (famValue (operation_types fm !!.) h type +
      Z.of_nat (length (filter (λ type', type' = type) l)))%Z).
Proof.
  revert fm h. induction l as [|k l IH]; intros fm h Hinj Hbel Hreg Hok Ht Htn; cbv zeta; cbn [foldl].
  - simpl. repeat split; try done; lia.
  - set (nm := prefix fm ++ "operations/" ++ lower k).
    rewrite incrementOperation_eq. cbv zeta. fold nm.
    destruct (family_total_step (operation_types fm) (operations fm) k nm h
                Hinj Hbel Hreg Hok Ht Htn)
      as (Hinj' & Hbel' & Hreg' & Hok' & Ht' & Htn' & Hvt & Hrt & Hval & _ & _).
    edestruct (IH (set_operation_types (ensure (operation_types fm) k nm h).1 fm)
      (incr (operations fm) 1 (bump (ensure (operation_types fm) k nm h).1 k
                                  (ensure (operation_types fm) k nm h).2)))
      as (Ec & Hreg2 & Hrt2 & Hvt2 & Hval2);
      rewrite ?operation_types_set, ?operations_set; [exact Hinj'|exact Hbel'|exact Hreg'
        |exact Hok'|exact Ht'|exact Htn'|].
    rewrite operations_set in Ec. split; [exact Ec|]. split; [exact Hreg2|].
    split; [rewrite Hrt2, operations_set; exact Hrt|].
    split; [rewrite Hvt2, operations_set, Hvt; cbn [length]; lia|].
    intros type. rewrite Hval2, operation_types_set, Hval, filter_cons.
    destruct (decide (type = k)) as [->|Hne];
      [rewrite decide_True by done|rewrite decide_False by congruence]; simpl; lia.
Qed.

(** [FrameworkMetrics::incrementOperation], run on the metrics of a newly
    constructed [FrameworkMetrics]: [operations] counts all the operations,
    the [operation_types] counter of a type counts the operations of that
    type, and each of these counters is added to [process::metrics] exactly
    once. *)
Theorem FrameworkMetrics_operations lower prefix h0 (types : list string) :
  heapOK h0 →
  let r := foldl (λ '(fm, h) type, incrementOperation lower type fm h)
             (frameworkMetrics prefix h0) types in
  value r.2 (operations r.1) = Z.of_nat (length types) ∧
  (∀ type, famValue (operation_types r.1 !!.) r.2 type =
     Z.of_nat (length (filter (λ type', type' = type) types))) ∧
  regCount r.2 (operations r.1) = 1 ∧ famRegOnce (operation_types r.1 !!.) r.2.
Proof.
  intros Hok0.
  destruct (frameworkMetrics_facts prefix h0 Hok0)
    as (Hok & Hnext & Hfresh & _ & _ & Hc & _ & _ & _ & _ & _ & Hot).
  destruct (frameworkMetrics prefix h0) as [fm h]. cbn [fst snd] in *.
  destruct (Hfresh (operations fm)) as [Hv0 Hr0]; [lia|].
  edestruct (operations_run lower types fm h) as (Ec & Hreg & Hrt & Hvt & Hval);
    rewrite ?Hot.
  1-3, 6: intros ? ?; rewrite lookup_empty; discriminate.
  1-2: first [exact Hok | lia].
  split; [rewrite Hvt, Hv0; lia|]. split; [|split; [rewrite Hrt; exact Hr0|exact Hreg]].
  intros type. rewrite Hval. unfold famValue. rewrite Hot, lookup_empty. lia.
Qed.

Lemma FrameworkMetrics_calls_witness :
  heapOK (mkHeap ∅ 0%N []) ∧
  (let r := foldl (λ '(fm, h) call,
             match call with
             | Some type => incrementCall (λ s, s) type fm h
             | None => incrementSubscribeCall fm h
             end) (frameworkMetrics "frameworks/f1/" (mkHeap ∅ 0%N []))
             [Some "ACCEPT"; None; Some "ACCEPT"] in
  value r.2 (calls r.1) = Z.of_nat (length [Some "ACCEPT"; None; Some "ACCEPT"]) ∧
  (∀ type, famValue (callTypes r.1 !!.) r.2 type =
     Z.of_nat (length (filter (λ call, default "SUBSCRIBE" call = type)
                         [Some "ACCEPT"; None; Some "ACCEPT"]))) ∧
  regCount r.2 (calls r.1) = 1 ∧ famRegOnce (callTypes r.1 !!.) r.2).
Proof.
  split; [apply Forall_nil_2|].
  apply (FrameworkMetrics_calls (λ s, s) "frameworks/f1/" (mkHeap ∅ 0%N [])
           [Some "ACCEPT"; None; Some "ACCEPT"]).
  apply Forall_nil_2.
Defined.

Lemma FrameworkMetrics_offerFilterBuckets_witness :
  heapOK (mkHeap ∅ 0%N []) ∧
  (let r := frameworkMetrics "frameworks/f1/" (mkHeap ∅ 0%N []) in
  let h := foldl (λ h d, incrementOfferFilterBuckets d r.1 h) r.2
             [(3 * 10^9)%Z; (7200 * 10^9)%Z] in
  value h (refuse_seconds_infinite r.1) =
    Z.of_nat (length [(3 * 10^9)%Z; (7200 * 10^9)%Z]) ∧
  map (λ bc, (bc.1, value h bc.2)) (refuseSecondsBuckets r.1) =
  map (λ b, (b, Z.of_nat (length (filter (λ d, (d ≤ b)%Z)
                                    [(3 * 10^9)%Z; (7200 * 10^9)%Z]))))
    bucketBounds).
Proof.
  split; [apply Forall_nil_2|].
  apply (FrameworkMetrics_offerFilterBuckets "frameworks/f1/" (mkHeap ∅ 0%N [])
           [(3 * 10^9)%Z; (7200 * 10^9)%Z]).
  apply Forall_nil_2.
Defined.

Lemma Metrics_incrementTasksStates_counts_witness :
  heapOK (mkHeap ∅ 0%N []) ∧
  (let r := foldl (λ '(ts, h) '(state, source, reason),
                    incrementTasksStates (λ s, s) state source reason ts h)
              (∅, mkHeap ∅ 0%N [])
              [("TASK_FAILED", "SOURCE_AGENT", "REASON_COMMAND_EXECUTOR_FAILED")] in
  (∀ key, famValue (tasksStatesAt r.1) r.2 key =
          Z.of_nat (length (filter (λ k, k = key)
            [("TASK_FAILED", "SOURCE_AGENT", "REASON_COMMAND_EXECUTOR_FAILED")]))) ∧
  famInj (tasksStatesAt r.1) ∧ famRegOnce (tasksStatesAt r.1) r.2).
Proof.
  split; [apply Forall_nil_2|].
  apply (Metrics_incrementTasksStates_counts (λ s, s)
           [("TASK_FAILED", "SOURCE_AGENT", "REASON_COMMAND_EXECUTOR_FAILED")]
           (mkHeap ∅ 0%N [])).
  apply Forall_nil_2.
Defined.

Lemma FrameworkMetrics_events_witness :
  heapOK (mkHeap ∅ 0%N []) ∧
  (let r := foldl (λ '(fm, h) ev, incrementEvent (λ s, s) ev fm h)
             (frameworkMetrics "frameworks/f1/" (mkHeap ∅ 0%N []))
             [mkEvent "UPDATE" "TASK_RUNNING"; mkEvent "OFFERS" "TASK_STAGING"] in
  value r.2 (events r.1) =
    Z.of_nat (length [mkEvent "UPDATE" "TASK_RUNNING"; mkEvent "OFFERS" "TASK_STAGING"]) ∧
  (∀ type, famValue (eventTypes r.1 !!.) r.2 type =
     Z.of_nat (length (filter (λ ev, event_type ev = type)
       [mkEvent "UPDATE" "TASK_RUNNING"; mkEvent "OFFERS" "TASK_STAGING"]))) ∧
  (∀ state, famValue (eventUpdates r.1 !!.) r.2 state =
     Z.of_nat (length (filter (λ ev, event_type ev = "UPDATE" ∧ update_state ev = state)
       [mkEvent "UPDATE" "TASK_RUNNING"; mkEvent "OFFERS" "TASK_STAGING"]))) ∧
  regCount r.2 (events r.1) = 1 ∧
  famRegOnce (eventTypes r.1 !!.) r.2 ∧ famRegOnce (eventUpdates r.1 !!.) r.2).
Proof.
  split; [apply Forall_nil_2|].
  apply (FrameworkMetrics_events (λ s, s) "frameworks/f1/" (mkHeap ∅ 0%N [])
           [mkEvent "UPDATE" "TASK_RUNNING"; mkEvent "OFFERS" "TASK_STAGING"]).
  apply Forall_nil_2.
Defined.

Lemma FrameworkMetrics_offersWithResourceTypes_witness :
  heapOK (mkHeap ∅ 0%N []) ∧
  (let r := foldl (λ '(fm, h) resources,
                    incrementOffersWithResourceTypes (λ s : string, s)
                      (λ s, bool_decide (s = "")) resources fm h)
             (frameworkMetrics "frameworks/f1/" (mkHeap ∅ 0%N []))
             [["cpus"; "mem"]; ["cpus"; ""; "foo"]] in
  (∀ k, famValue (offers_with_resource_types r.1 !!.) r.2 k =
        Z.of_nat (length (filter (λ res, bool_decide (res = "") = false ∧ res = k)
                            (concat [["cpus"; "mem"]; ["cpus"; ""; "foo"]])))) ∧
  famInj (offers_with_resource_types r.1 !!.) ∧
  famRegOnce (offers_with_resource_types r.1 !!.) r.2).
Proof.
  split; [apply Forall_nil_2|].
  apply (FrameworkMetrics_offersWithResourceTypes (λ s : string, s)
           (λ s, bool_decide (s = "")) "frameworks/f1/" (mkHeap ∅ 0%N [])
           [["cpus"; "mem"]; ["cpus"; ""; "foo"]]).
  apply Forall_nil_2.
Defined.

Lemma FrameworkMetrics_operations_witness :
  heapOK (mkHeap ∅ 0%N []) ∧
  (let r := foldl (λ '(fm, h) type, incrementOperation (λ s, s) type fm h)
             (frameworkMetrics "frameworks/f1/" (mkHeap ∅ 0%N [])) ["LAUNCH"; "RESERVE"] in
  value r.2 (operations r.1) = Z.of_nat (length ["LAUNCH"; "RESERVE"]) ∧
  (∀ type, famValue (operation_types r.1 !!.) r.2 type =
     Z.of_nat (length (filter (λ type', type' = type) ["LAUNCH"; "RESERVE"]))) ∧
  regCount r.2 (operations r.1) = 1 ∧ famRegOnce (operation_types r.1 !!.) r.2).
Proof.
  split; [apply Forall_nil_2|].
  apply (FrameworkMetrics_operations (λ s, s) "frameworks/f1/" (mkHeap ∅ 0%N [])
           ["LAUNCH"; "RESERVE"]).
  apply Forall_nil_2.
Defined.

End MetricsFacts.
